(** * CHUCK (chat-harvester): tokenizer, adapters and dispatcher, verified

    A shallow embedding of the parts of the chat harvester that its
    specification talks about:

    - [JS]       the JavaScript string and number primitives the sources call;
    - [Core]     the canonical [ChatMessage] and the name-based identity;
    - [Twitch]   the IRC-over-WebSocket adapter (src/platforms/twitch.js);
    - [YouTube]  the action-tree adapter (src/platforms/youtube.js);
    - [Regex]    the backtracking matcher behind the payment pattern;
    - [Facebook] the comment adapter (src/platforms/facebook.js);
    - [Seed]     the command dispatcher of the base class;
    - [Rumble]   the subscription records of the Rumble adapter.

    JavaScript strings are sequences of UTF-16 code units, so a string is a
    [list N]; literals are written [u16 "..."] and decoded from the UTF-8
    bytes of the source file. *)

From Stdlib Require Import String Ascii NArith ZArith QArith List Bool Lia.
From Stdlib Require Import DecimalString.
From stdpp Require Import gmap list option.
Import ListNotations.

(* ===================================================================== *)
(** ** JavaScript primitives *)
(* ===================================================================== *)

Module JS.

Definition char16 := N.
Definition jsstring := list N.

(** UTF-8 bytes of a source literal to UTF-16 code units. *)
Fixpoint utf16_of_utf8 (fuel : nat) (bs : list N) : jsstring :=
  match fuel with
  | O => []
  | S fuel =>
    match bs with
    | [] => []
    | b :: r1 =>
      if (b <? 128)%N then b :: utf16_of_utf8 fuel r1
      else match r1 with
      | [] => [65533%N]
      | b2 :: r2 =>
        if (b <? 224)%N
        then N.lor (N.shiftl (N.land b 31) 6) (N.land b2 63) :: utf16_of_utf8 fuel r2
        else match r2 with
        | [] => [65533%N]
        | b3 :: r3 =>
          if (b <? 240)%N
          then N.lor (N.shiftl (N.land b 15) 12)
                     (N.lor (N.shiftl (N.land b2 63) 6) (N.land b3 63))
               :: utf16_of_utf8 fuel r3
          else match r3 with
          | [] => [65533%N]
          | b4 :: r4 =>
            let cp := N.lor (N.shiftl (N.land b 7) 18)
                      (N.lor (N.shiftl (N.land b2 63) 12)
                      (N.lor (N.shiftl (N.land b3 63) 6) (N.land b4 63))) in
            let v := (cp - 65536)%N in
            (55296 + N.shiftr v 10)%N :: (56320 + N.land v 1023)%N
              :: utf16_of_utf8 fuel r4
          end
        end
      end
    end
  end.

Definition u16 (s : string) : jsstring :=
  let bs := map N_of_ascii (list_ascii_of_string s) in
  utf16_of_utf8 (length bs) bs.

(** A single code unit, for separators: [ch ";"]. *)
Definition ch (s : string) : N :=
  match u16 s with c :: _ => c | [] => 0%N end.

(** [String.prototype.startsWith]. *)
Fixpoint startsWith (s p : jsstring) {struct p} : bool :=
  match p, s with
  | [], _ => true
  | _ :: _, [] => false
  | c :: p', d :: s' => (c =? d)%N && startsWith s' p'
  end.

(** [String.prototype.indexOf]: [None] is JavaScript's [-1]. *)
Fixpoint indexOf (s p : jsstring) : option nat :=
  if startsWith s p then Some 0%nat
  else match s with
       | [] => None
       | _ :: s' => S <$> indexOf s' p
       end.

(** [s.slice(a, b)] and [s.slice(a)] for indices [0 <= a], [0 <= b]; both
    clamp to the length, and [b < a] gives the empty string. *)
Definition slice (s : jsstring) (a b : nat) : jsstring := take (b - a) (drop a s).
Definition sliceFrom (s : jsstring) (a : nat) : jsstring := drop a s.

(** [s.split(sep)] for a separator of one code unit, which is what every
    call in the sources passes. The empty string splits to [[""]]. *)
Fixpoint split (sep : N) (s : jsstring) : list jsstring :=
  match s with
  | [] => [[]]
  | c :: s' =>
    if (c =? sep)%N then [] :: split sep s'
    else match split sep s' with
         | [] => [[c]]
         | w :: ws => (c :: w) :: ws
         end
  end.

(** [parts.join(sep)]. *)
Fixpoint join (sep : jsstring) (parts : list jsstring) : jsstring :=
  match parts with
  | [] => []
  | [p] => p
  | p :: ps => p ++ sep ++ join sep ps
  end.

(** Truthiness of a string: only the empty string is falsy. *)
Definition truthy (s : jsstring) : bool :=
  match s with [] => false | _ => true end.

(** Truthiness of a value that is a string, [null] or [undefined]. *)
Definition truthy_opt (o : option jsstring) : bool :=
  match o with Some s => truthy s | None => false end.

(** [a || b] on such values. *)
Definition or_else (a b : option jsstring) : option jsstring :=
  if truthy_opt a then a else b.

(** [s.replace(/ab/g, r)] for a pattern of two literal code units [a], [b]:
    one left-to-right scan, matches do not overlap, the replacement is not
    rescanned. *)
Fixpoint replaceAll2 (a b : N) (r : jsstring) (s : jsstring) : jsstring :=
  match s with
  | [] => []
  | c :: s' =>
    match s' with
    | [] => [c]
    | d :: s'' =>
      if (c =? a)%N && (d =? b)%N then r ++ replaceAll2 a b r s''
      else c :: replaceAll2 a b r s'
    end
  end.

(** The characters of [\s] in a regular expression, which are also the ones
    [parseInt] and [parseFloat] skip: WhiteSpace and LineTerminator. *)
Definition isWhiteSpace (c : N) : bool :=
  ((9 <=? c) && (c <=? 13) || (c =? 32) || (c =? 160) || (c =? 5760)
   || (8192 <=? c) && (c <=? 8202) || (c =? 8232) || (c =? 8233)
   || (c =? 8239) || (c =? 8287) || (c =? 12288) || (c =? 65279))%N.

(** [\d]. *)
Definition isDigit (c : N) : bool := ((48 <=? c) && (c <=? 57))%N.

(** Numbers. A finite number is kept as the exact decimal the program
    computed, in lowest terms; the claims only concern small decimals, which
    the double-precision numbers of the language hold exactly. *)
Inductive number : Type :=
  | NaN
  | Infinity
  | Num (q : Q).

Definition num_of_Z (z : Z) : number := Num (inject_Z z).

(** Value of a run of decimal digits, most significant first. *)
Definition digits_value (ds : jsstring) : Z :=
  fold_left (fun acc d => (10 * acc + (Z.of_N d - 48))%Z) ds 0%Z.

Fixpoint skipWhiteSpace (s : jsstring) : jsstring :=
  match s with
  | c :: s' => if isWhiteSpace c then skipWhiteSpace s' else s
  | [] => []
  end.

Fixpoint takeDigits (s : jsstring) : jsstring :=
  match s with
  | c :: s' => if isDigit c then c :: takeDigits s' else []
  | [] => []
  end.

(** [parseInt(s, 10)]: [None] is [NaN]. An [undefined] argument, whose
    string form has no digits, is the argument [None]. *)
Definition parseInt10 (o : option jsstring) : option Z :=
  match o with
  | None => None
  | Some s =>
    let t := skipWhiteSpace s in
    let '(neg, t) :=
      match t with
      | c :: t' => if (c =? ch "-")%N then (true, t')
                   else if (c =? ch "+")%N then (false, t') else (false, t)
      | [] => (false, t)
      end in
    match takeDigits t with
    | [] => None
    | ds => let v := digits_value ds in Some (if neg then (- v)%Z else v)
    end
  end.

Definition num_of_int (o : option Z) : number :=
  match o with Some z => num_of_Z z | None => NaN end.

(** A call either returns or raises. *)
Inductive exn : Type :=
  | TypeError (what : jsstring)
  | SyntaxError (what : jsstring).

Inductive result (A : Type) : Type :=
  | Ok (a : A)
  | Throw (e : exn).
Arguments Ok {A} a.
Arguments Throw {A} e.

Definition bind {A B : Type} (r : result A) (f : A -> result B) : result B :=
  match r with
  | Ok a => f a
  | Throw e => Throw e
  end.

(** Reading a property of a value that may be [undefined]. *)
Definition deref {A : Type} (what : string) (o : option A) : result A :=
  match o with
  | Some a => Ok a
  | None => Throw (TypeError (u16 what))
  end.

(** Optional chaining, [o?.f] in the sources: [undefined] when [o] is. *)
Definition chain {A B : Type} (o : option A) (f : A -> option B) : option B :=
  match o with
  | Some a => f a
  | None => None
  end.
Notation "o ?> f" := (chain o f) (at level 50, left associativity).

(** A property of an object of the traffic where the sources tell the three
    apart: absent ([undefined]), [null], or a value. *)
Inductive nullable (A : Type) : Type :=
  | Undefined
  | Null
  | Defined (a : A).
Arguments Undefined {A}.
Arguments Null {A}.
Arguments Defined {A} a.

(** The value, when there is one: what [x?.f] goes on with, and what a test
    for truth sees of an object. *)
Definition present {A : Type} (p : nullable A) : option A :=
  match p with
  | Defined a => Some a
  | _ => None
  end.

(** [x !== undefined]. *)
Definition notUndefined {A : Type} (p : nullable A) : bool :=
  match p with
  | Undefined => false
  | _ => true
  end.

(** The string form of a property that holds text, as a template literal and
    [+=] on a string build it. *)
Definition stringOf (p : nullable jsstring) : jsstring :=
  match p with
  | Undefined => u16 "undefined"
  | Null => u16 "null"
  | Defined s => s
  end.

(** [s.trim()] on the white space that [Number] drops at both ends. *)
Definition trim (s : jsstring) : jsstring :=
  rev (skipWhiteSpace (rev (skipWhiteSpace s))).

(** A sign in front of a literal: whether it is a minus, and the rest. *)
Definition takeSign (t : jsstring) : bool * jsstring :=
  match t with
  | c :: t' => if (c =? ch "-")%N then (true, t')
               else if (c =? ch "+")%N then (false, t') else (false, t)
  | [] => (false, t)
  end.

(** [m * 10^e] as an exact fraction. *)
Definition scale10 (m e : Z) : Q :=
  if (0 <=? e)%Z then inject_Z (m * 10 ^ e)
  else Qred (Qmake m (Z.to_pos (10 ^ (- e)))).

(** The largest magnitude that does not round to [Infinity]. *)
Definition overflows (q : Q) : bool :=
  Qle_bool (inject_Z (2 ^ 1024 - 2 ^ 970)) q || Qle_bool q (inject_Z (- (2 ^ 1024 - 2 ^ 970))).

(** Digits of a radix other than ten, after [0x], [0o] or [0b]. *)
Definition radixDigit (radix : Z) (c : N) : option Z :=
  let v :=
    if isDigit c then Some (Z.of_N c - 48)%Z
    else if ((97 <=? c) && (c <=? 102))%N then Some (Z.of_N c - 87)%Z
    else if ((65 <=? c) && (c <=? 70))%N then Some (Z.of_N c - 55)%Z
    else None in
  match v with
  | Some d => if (d <? radix)%Z then Some d else None
  | None => None
  end.

Definition radixValue (radix : Z) (ds : jsstring) : option Z :=
  match ds with
  | [] => None
  | _ => fold_left (fun acc c =>
           match acc, radixDigit radix c with
           | Some a, Some d => Some (radix * a + d)%Z
           | _, _ => None
           end) ds (Some 0%Z)
  end.

(** A number too small for the smallest double rounds to zero. *)
Definition roundTiny (q : Q) : Q :=
  if Qle_bool q (Qmake 1 (2 ^ 1075)) && Qle_bool (Qmake (-1) (2 ^ 1075)) q
  then 0%Q else q.

(** An unsigned integer in radix 16, 8 or 2: [0x], [0o], [0b] and digits. *)
Definition nonDecimalLiteral (t : jsstring) : option Q :=
  match t with
  | c0 :: c1 :: ds =>
    if (c0 =? ch "0")%N && ((c1 =? ch "x") || (c1 =? ch "X"))%N
    then inject_Z <$> radixValue 16 ds
    else if (c0 =? ch "0")%N && ((c1 =? ch "o") || (c1 =? ch "O"))%N
    then inject_Z <$> radixValue 8 ds
    else if (c0 =? ch "0")%N && ((c1 =? ch "b") || (c1 =? ch "B"))%N
    then inject_Z <$> radixValue 2 ds
    else None
  | _ => None
  end.

(** A signed decimal literal: digits, an optional point and fraction (one
    of the two sides may be empty), an optional exponent. *)
Definition decimalLiteral (t : jsstring) : option Q :=
  let '(neg, u) := takeSign t in
  let ip := takeDigits u in
  let r1 := drop (length ip) u in
  let '(fp, r2) :=
    match r1 with
    | c :: r => if (c =? ch ".")%N
                then (takeDigits r, drop (length (takeDigits r)) r)
                else ([], r1)
    | [] => ([], [])
    end in
  match ip ++ fp with
  | [] => None
  | _ =>
    let exponent : option Z :=
      match r2 with
      | [] => Some 0%Z
      | c :: r =>
        if ((c =? ch "e") || (c =? ch "E"))%N then
          let '(eneg, ed) := takeSign r in
          match ed with
          | [] => None
          | _ => if forallb isDigit ed
                 then Some (if eneg then (- digits_value ed)%Z else digits_value ed)
                 else None
          end
        else None
      end in
    match exponent with
    | None => None
    | Some e =>
      let q := scale10 (digits_value (ip ++ fp)) (e - Z.of_nat (length fp)) in
      if overflows q then None else Some (roundTiny (if neg then Qred (- q) else q))
    end
  end.

(** [Number(s)] when it is finite; [None] stands for [NaN] and for the two
    infinities, which the callers do not tell apart. The text is a
    StringNumericLiteral: white space around, and then nothing (zero), an
    unsigned integer in radix 16, 8 or 2, or a signed decimal literal. A
    finite value is kept exact. *)
Definition finiteNumber (s : jsstring) : option Q :=
  let t := trim s in
  match t with
  | [] => Some 0%Q
  | _ =>
    match nonDecimalLiteral t with
    | Some q => if overflows q then None else Some q
    | None => decimalLiteral t
    end
  end.

(** The first digit of a positive integer. *)
Fixpoint firstDigit (fuel : nat) (z : Z) : Z :=
  match fuel with
  | O => z
  | S fuel' => if (z <? 10)%Z then z else firstDigit fuel' (z / 10)
  end.

(** The first digit that is not zero of [n / d], a fraction below one. *)
Fixpoint firstFraction (fuel : nat) (n d : Z) : Z :=
  match fuel with
  | O => 0
  | S fuel' => if (d <=? 10 * n)%Z then (10 * n) / d else firstFraction fuel' (10 * n) d
  end.

(** [parseInt(x)] for a finite number [x]: the number is written out and
    the digits in front are read. From [1e21] up and below [1e-6] it is
    written with an exponent, so that only its first digit is read;
    otherwise the fraction is cut off. *)
Definition parseIntOfNumber (q : Q) : Z :=
  let n := Z.abs (Qnum q) in
  let d := Zpos (Qden q) in
  let magnitude :=
    if (n =? 0)%Z then 0%Z
    else if (10 ^ 21 * d <=? n)%Z
    then firstDigit (S (Z.to_nat (Z.log2 (n / d)))) (n / d)
    else if (n * 10 ^ 6 <? d)%Z
    then firstFraction (S (Z.to_nat (Z.log2 d))) n d
    else (n / d)%Z in
  if (Qnum q <? 0)%Z then (- magnitude)%Z else magnitude.

(** What the adapters write to their log: the method and its arguments. *)
Inductive diagnostic : Type :=
  | Warn (args : list jsstring)
  | Log (args : list jsstring).

#[global] Instance Q_eq_dec : EqDecision Q.
Proof. solve_decision. Defined.
#[global] Instance number_eq_dec : EqDecision number.
Proof. solve_decision. Defined.
#[global] Instance exn_eq_dec : EqDecision exn.
Proof. solve_decision. Defined.
#[global] Instance result_eq_dec {A : Type} `{EqDecision A} : EqDecision (result A).
Proof. solve_decision. Defined.

End JS.
Export JS.

(* ===================================================================== *)
(** ** Core: the canonical message and the identity generator *)
(* ===================================================================== *)

Module Core.

(** *** SHA-1 over bytes, on 32-bit words kept in [N] *)

Definition mask32 : N := 4294967295%N.
Definition add32 (x y : N) : N := N.land (x + y) mask32.
Definition rotl32 (x : N) (k : N) : N :=
  N.land (N.lor (N.shiftl x k) (N.shiftr x (32 - k))) mask32.
Definition not32 (x : N) : N := N.lxor x mask32.

Fixpoint be_bytes (n : nat) (x : N) : list N :=
  match n with
  | O => []
  | S n' => N.land (N.shiftr x (8 * N.of_nat n')) 255 :: be_bytes n' x
  end.

Definition sha1_pad (msg : list N) : list N :=
  let len := length msg in
  let zeros := ((64 - (len + 9) mod 64) mod 64)%nat in
  msg ++ [128%N] ++ repeat 0%N zeros ++ be_bytes 8 (8 * N.of_nat len).

Fixpoint words_be (fuel : nat) (bs : list N) : list N :=
  match fuel, bs with
  | S fuel', b0 :: b1 :: b2 :: b3 :: rest =>
      (N.shiftl b0 24 + N.shiftl b1 16 + N.shiftl b2 8 + b3)%N :: words_be fuel' rest
  | _, _ => []
  end.

(** The message schedule, newest word first. *)
Fixpoint schedule (n : nat) (rev_w : list N) : list N :=
  match n with
  | O => rev_w
  | S n' =>
    let x := N.lxor (N.lxor (nth 2 rev_w 0%N) (nth 7 rev_w 0%N))
                    (N.lxor (nth 13 rev_w 0%N) (nth 15 rev_w 0%N)) in
    schedule n' (rotl32 x 1 :: rev_w)
  end.

Definition sha1_state : Type := N * N * N * N * N.

Definition sha1_round (t : nat) (st : sha1_state) (w : N) : sha1_state :=
  let '(a, b, c, d, e) := st in
  let '(f, k) :=
    if (t <? 20)%nat then (N.lor (N.land b c) (N.land (not32 b) d), 1518500249%N)
    else if (t <? 40)%nat then (N.lxor (N.lxor b c) d, 1859775393%N)
    else if (t <? 60)%nat
         then (N.lor (N.lor (N.land b c) (N.land b d)) (N.land c d), 2400959708%N)
    else (N.lxor (N.lxor b c) d, 3395469782%N) in
  let temp := add32 (add32 (add32 (add32 (rotl32 a 5) f) e) k) w in
  (temp, a, rotl32 b 30, c, d).

Fixpoint sha1_rounds (t : nat) (ws : list N) (st : sha1_state) : sha1_state :=
  match ws with
  | [] => st
  | w :: ws' => sha1_rounds (S t) ws' (sha1_round t st w)
  end.

Definition sha1_block (h : sha1_state) (block : list N) : sha1_state :=
  let ws := rev (schedule 64 (rev (words_be 16 block))) in
  let '(a, b, c, d, e) := sha1_rounds 0 ws h in
  let '(h0, h1, h2, h3, h4) := h in
  (add32 h0 a, add32 h1 b, add32 h2 c, add32 h3 d, add32 h4 e).

Fixpoint sha1_blocks (fuel : nat) (h : sha1_state) (bs : list N) : sha1_state :=
  match fuel, bs with
  | S fuel', _ :: _ => sha1_blocks fuel' (sha1_block h (take 64 bs)) (drop 64 bs)
  | _, _ => h
  end.

Definition sha1 (msg : list N) : list N :=
  let p := sha1_pad msg in
  let '(h0, h1, h2, h3, h4) :=
    sha1_blocks (length p)
      (1732584193%N, 4023233417%N, 2562383102%N, 271733878%N, 3285377520%N) p in
  be_bytes 4 h0 ++ be_bytes 4 h1 ++ be_bytes 4 h2 ++ be_bytes 4 h3 ++ be_bytes 4 h4.

(** *** Name-based identity *)

Definition hex_value (c : N) : option N :=
  if ((48 <=? c) && (c <=? 57))%N then Some (c - 48)%N
  else if ((97 <=? c) && (c <=? 102))%N then Some (c - 87)%N
  else if ((65 <=? c) && (c <=? 70))%N then Some (c - 55)%N
  else None.

Fixpoint bytes_of_hex (fuel : nat) (ds : list N) : list N :=
  match fuel, ds with
  | S fuel', hi :: lo :: rest => (16 * hi + lo)%N :: bytes_of_hex fuel' rest
  | _, _ => []
  end.

(** The sixteen bytes of a namespace written as 8-4-4-4-12 hexadecimal. *)
Definition uuid_bytes (ns : jsstring) : list N :=
  let ds := omap hex_value ns in
  bytes_of_hex (length ds) ds.

Definition hex_digit (n : N) : N :=
  if (n <? 10)%N then (48 + n)%N else (87 + n)%N.

Definition hex_of_bytes (bs : list N) : jsstring :=
  flat_map (fun b => [hex_digit (N.shiftr b 4); hex_digit (N.land b 15)]) bs.

(** UTF-8 bytes of a string; a code unit that is half of a surrogate pair is
    written like any other three-byte code unit. *)
Definition utf8_of_utf16 (s : jsstring) : list N :=
  flat_map (fun c =>
    if (c <? 128)%N then [c]
    else if (c <? 2048)%N then [(192 + N.shiftr c 6)%N; (128 + N.land c 63)%N]
    else [(224 + N.shiftr c 12)%N; (128 + N.land (N.shiftr c 6) 63)%N;
          (128 + N.land c 63)%N]) s.

(** Modelled from the spec: [uuidv5] of src/core/index.js is not among the
    sources. The specification calls it deterministic, pure, namespace-salted
    name hashing and the project notes call it UUIDv5, so it is the version-5
    name-based UUID: SHA-1 of the namespace bytes followed by the name,
    truncated to 128 bits, with the version and variant bits set. The
    adapters call [uuidv5(nativeId, namespace)]. *)
Definition uuidv5 (name ns : jsstring) : jsstring :=
  let h := take 16 (sha1 (uuid_bytes ns ++ utf8_of_utf16 name)) in
  let h := alter (fun b => N.lor (N.land b 15) 80) 6%nat h in
  let h := alter (fun b => N.lor (N.land b 63) 128) 8%nat h in
  hex_of_bytes (slice h 0 4) ++ u16 "-" ++ hex_of_bytes (slice h 4 6) ++ u16 "-"
  ++ hex_of_bytes (slice h 6 8) ++ u16 "-" ++ hex_of_bytes (slice h 8 10) ++ u16 "-"
  ++ hex_of_bytes (slice h 10 16).

(** *** The canonical message *)

Definition emoji_triple : Type := jsstring * jsstring * jsstring.

(** Modelled from the spec: the class [ChatMessage] of src/core/message.js is
    not among the sources. Its fields are those of the CanonicalMessage of
    the specification. The constructor stores its three arguments as they
    are (the adapter tests read back the very id they passed), the flags
    default to false, the body starts empty and the emoji list starts empty
    (the adapters append to both). A field that an adapter never assigns
    keeps the constructor's default, written [None] for the optional ones. *)
Record ChatMessage : Type := mkChatMessage {
  id : jsstring;
  platform : jsstring;
  channel : option jsstring;
  username : option jsstring;
  avatar : option jsstring;
  message : jsstring;
  sent_at : option number;
  amount : option number;
  currency : option jsstring;
  is_verified : bool;
  is_sub : bool;
  is_mod : bool;
  is_owner : bool;
  is_placeholder : bool;
  emojis : list emoji_triple;
  extra : list (jsstring * option jsstring)
}.

Definition new_ChatMessage (i p : jsstring) (c : option jsstring) : ChatMessage :=
  {| id := i; platform := p; channel := c;
     username := None; avatar := None; message := [];
     sent_at := None; amount := None; currency := None;
     is_verified := false; is_sub := false; is_mod := false; is_owner := false;
     is_placeholder := false; emojis := []; extra := [] |}.

(** The instance fields of an adapter that its methods read. *)
Record Seed : Type := mkSeed {
  this_namespace : jsstring;
  this_platform : jsstring;
  this_channel : option jsstring
}.

(** The invariant of the specification: amount present implies currency
    present. *)
Definition amount_has_currency (m : ChatMessage) : Prop :=
  is_Some (amount m) -> is_Some (currency m).

End Core.

(* ===================================================================== *)
(** ** Twitch: the text-protocol adapter *)
(* ===================================================================== *)

Module Twitch.
Import Core.

Definition namespace : jsstring := u16 "4a342b79-e302-403a-99be-669b5f27b152".

(** The object [tags]: own string-keyed properties. *)
Abbreviation Tags := (gmap jsstring jsstring).

(** [tags[k] = v] for a string [v]. An assignment to ["__proto__"] reaches the
    accessor of [Object.prototype], which ignores a value that is not an
    object, so no property is created. *)
Definition set_property (tags : Tags) (k v : jsstring) : Tags :=
  if decide (k = u16 "__proto__") then tags else <[k := v]> tags.

(** The chain of five global replacements applied to a tag value. *)
Definition unescape (value : jsstring) : jsstring :=
  replaceAll2 (ch "\") (ch "\") (u16 "\")
    (replaceAll2 (ch "\") (ch ":") (u16 ";")
      (replaceAll2 (ch "\") (ch "r") [13%N]
        (replaceAll2 (ch "\") (ch "n") [10%N]
          (replaceAll2 (ch "\") (ch "s") (u16 " ") value)))).

Definition parseIrcTags (tagsStr : jsstring) : Tags :=
  if negb (truthy tagsStr) then ∅
  else
    fold_left
      (fun (tags : Tags) (pair : jsstring) =>
         match indexOf pair (u16 "=") with
         | None => set_property tags pair []
         | Some eqIdx =>
             let key := slice pair 0 eqIdx in
             let value := sliceFrom pair (eqIdx + 1) in
             set_property tags key (unescape value)
         end)
      (split (ch ";") tagsStr) ∅.

(** The parsed frame. [meta] is the alias of [tags] kept for older callers;
    it is assigned after the tag block, so a frame returned from inside the
    tag block has none. *)
Record ParsedTextFrame : Type := mkFrame {
  raw : jsstring;
  tags : Tags;
  meta : option Tags;
  prefix : option jsstring;
  command : option jsstring;
  params : list jsstring;
  trailing : option jsstring
}.

(** The part of [parseIrcMessageToJson] after the prefix block. *)
Definition parseCommand (message : jsstring) (tgs : Tags) (pfx : option jsstring)
    (remaining : jsstring) : ParsedTextFrame :=
  let '(trl, commandAndParams) :=
    match indexOf remaining (u16 " :") with
    | Some trailingIdx =>
        (Some (sliceFrom remaining (trailingIdx + 2)), slice remaining 0 trailingIdx)
    | None => (None, remaining)
    end in
  let parts := List.filter truthy (split (ch " ") commandAndParams) in
  match parts with
  | p0 :: ps =>
      {| raw := message; tags := tgs; meta := Some tgs; prefix := pfx;
         command := Some p0; params := ps; trailing := trl |}
  | [] =>
      {| raw := message; tags := tgs; meta := Some tgs; prefix := pfx;
         command := None; params := []; trailing := trl |}
  end.

(** The part after the tag block. *)
Definition parsePrefix (message : jsstring) (tgs : Tags) (remaining : jsstring)
    : ParsedTextFrame :=
  if startsWith remaining (u16 ":") then
    match indexOf remaining (u16 " ") with
    | None =>
        {| raw := message; tags := tgs; meta := Some tgs; prefix := None;
           command := None; params := []; trailing := None |}
    | Some spaceIdx =>
        parseCommand message tgs (Some (slice remaining 1 spaceIdx))
                     (sliceFrom remaining (spaceIdx + 1))
    end
  else parseCommand message tgs None remaining.

Definition parseIrcMessageToJson (message : jsstring) : ParsedTextFrame :=
  if startsWith message (u16 "@") then
    match indexOf message (u16 " ") with
    | None =>
        {| raw := message; tags := ∅; meta := None; prefix := None;
           command := None; params := []; trailing := None |}
    | Some spaceIdx =>
        parsePrefix message (parseIrcTags (slice message 1 spaceIdx))
                    (sliceFrom message (spaceIdx + 1))
    end
  else parsePrefix message ∅ message.

Definition extractUsername (pfx : option jsstring) : option jsstring :=
  match pfx with
  | None => None
  | Some p =>
    if negb (truthy p) then None
    else match indexOf p (u16 "!") with
         | None => Some p
         | Some bangIdx => Some (slice p 0 bangIdx)
         end
  end.

(** [badges] is a string or [null]. *)
Definition hasBadge (badges : option jsstring) (type : jsstring) : bool :=
  match badges with
  | None => false
  | Some bs =>
    if negb (truthy bs) then false
    else existsb (fun b => startsWith b (type ++ u16 "/")) (split (ch ",") bs)
  end.

Definition emoteUrl (emoteId : jsstring) : jsstring :=
  u16 "https://static-cdn.jtvnw.net/emoticons/v2/" ++ emoteId ++ u16 "/default/dark/1.0".

Definition parseEmotes (emotesStr : option jsstring) (msg : jsstring)
    : list emoji_triple :=
  if negb (truthy_opt emotesStr) || negb (truthy msg) then []
  else
    flat_map
      (fun group =>
         if negb (truthy group) then []
         else match indexOf group (u16 ":") with
         | None => []
         | Some colonIdx =>
           let emoteId := slice group 0 colonIdx in
           let positions := split (ch ",") (sliceFrom group (colonIdx + 1)) in
           flat_map
             (fun pos =>
                let fields := split (ch "-") pos in
                match parseInt10 (head fields), parseInt10 (head (tail fields)) with
                | Some start, Some end_ =>
                    if ((start <=? end_) && (end_ <? Z.of_nat (length msg)))%Z
                    then let emoteName :=
                           slice msg (Z.to_nat start) (Z.to_nat (end_ + 1)) in
                         [(emoteName, emoteUrl emoteId, emoteName)]
                    else []
                | _, _ => []
                end)
             positions
         end)
      (split (ch "/") (default [] emotesStr)).

(** [prepareChatMessage(parsed)]: the message or [null], and what was
    written to the log. [now] is the reading of [Date.now()]. *)
Definition prepareChatMessage (this : Seed) (now : Z) (parsed : ParsedTextFrame)
    : option ChatMessage * list diagnostic :=
  let tgs := tags parsed in
  let messageText := default [] (or_else (trailing parsed) (Some [])) in
  let i := tgs !! u16 "id" in
  let uname :=
    or_else (or_else (tgs !! u16 "display-name") (extractUsername (prefix parsed)))
            (Some (u16 "Unknown")) in
  if negb (truthy_opt i) then (None, [Warn [u16 "PRIVMSG missing id:"; raw parsed]])
  else
    let m := new_ChatMessage (default [] i) (this_platform this) (this_channel this) in
    let tmiSentTs := tgs !! u16 "tmi-sent-ts" in
    let badges := default [] (or_else (tgs !! u16 "badges") (Some [])) in
    (Some
       {| id := id m; platform := platform m; channel := channel m;
          username := uname; avatar := avatar m; message := messageText;
          sent_at := Some (if truthy_opt tmiSentTs then num_of_int (parseInt10 tmiSentTs)
                           else num_of_Z now);
          amount := amount m; currency := currency m;
          is_verified := hasBadge (Some badges) (u16 "partner");
          is_sub := bool_decide (tgs !! u16 "subscriber" = Some (u16 "1"))
                    || hasBadge (Some badges) (u16 "subscriber");
          is_mod := bool_decide (tgs !! u16 "mod" = Some (u16 "1"))
                    || hasBadge (Some badges) (u16 "moderator");
          is_owner := hasBadge (Some badges) (u16 "broadcaster");
          is_placeholder := is_placeholder m;
          emojis := parseEmotes (tgs !! u16 "emotes") messageText;
          extra := [(u16 "userId", tgs !! u16 "user-id");
                    (u16 "color", or_else (tgs !! u16 "color") (Some []));
                    (u16 "badges", Some badges)] |},
     []).

(** Re-serialising a frame: the verb and the parameters joined by spaces,
    then [" :"] and the trailing text when there is one. *)
Definition serialize (cmd : jsstring) (ps : list jsstring) (trl : option jsstring)
    : jsstring :=
  join (u16 " ") (cmd :: ps)
  ++ match trl with Some t => u16 " :" ++ t | None => [] end.

(** The parameters of a serialised line, each with the space before it. *)
Definition spaced (ps : list jsstring) : jsstring :=
  flat_map (fun p => 32%N :: p) ps.

(** The frame with nothing but the raw line. *)
Definition blank (message : jsstring) (tgs : Tags) (mt : option Tags)
    : ParsedTextFrame :=
  {| raw := message; tags := tgs; meta := mt; prefix := None; command := None;
     params := []; trailing := None |}.

(** The tags and the line of the chat-post scenario of the specification,
    and an adapter instance to run it on. *)
Definition scenario_tags : jsstring :=
  u16 "id=abc123;display-name=TestUser;badges=moderator/1,subscriber/24;mod=1;subscriber=1".

Definition scenario_line : jsstring :=
  u16 "@" ++ scenario_tags
  ++ u16 " :testuser!testuser@testuser.tmi.twitch.tv PRIVMSG #streamerchannel :Hello chat!".

Definition scenario_seed : Seed :=
  {| this_namespace := namespace; this_platform := u16 "Twitch";
     this_channel := Some (u16 "streamerchannel") |}.

(** The token of a badge entry: the text before its slash, for an entry that
    has one. *)
Definition tokenOf (entry : jsstring) : option jsstring :=
  (fun i => slice entry 0 i) <$> indexOf entry (u16 "/").

(** An entry of the form token/version: one slash, between two texts that
    hold none. *)
Definition entry_form (entry : jsstring) : Prop :=
  exists tok ver,
    entry = tok ++ ch "/" :: ver /\ (ch "/" ∉ tok) /\ (ch "/" ∉ ver).

(** A word of the line grammar: not empty, no space inside, and no colon in
    front (a colon in front of a word opens the trailing text). *)
Definition word (w : jsstring) : Prop :=
  w <> [] /\ (ch " " ∉ w) /\ head w <> Some (ch ":").

(** A frame of the grammar [verb params... :trailing]: the verb and the
    parameters are words, and the verb opens neither a tag block nor a
    prefix block. The trailing text is any text. *)
Definition well_formed (cmd : jsstring) (ps : list jsstring) : Prop :=
  word cmd /\ head cmd <> Some (ch "@") /\ Forall word ps.

End Twitch.

(* ===================================================================== *)
(** ** Regular expressions, as far as the sources use them *)
(* ===================================================================== *)

Module Regex.

(** The pattern language: literal text, one character class under a
    quantifier, sequence, alternation, an optional group, a capturing group
    and the two anchors. *)
Inductive re : Type :=
  | Never
  | Bol
  | Eol
  | Lit (p : jsstring)
  | Star (cls : N -> bool)
  | Plus (cls : N -> bool)
  | Between (cls : N -> bool) (lo hi : nat)
  | Seq (r1 r2 : re)
  | Alt (r1 r2 : re)
  | Opt (r : re)
  | Group (i : nat) (r : re).

Definition captures : Type := list (option jsstring).

(** Canonicalize of the [i] flag (without the [u] flag): the upper-case form
    of a code unit, when that is one code unit and does not take a code unit
    of 128 or more below 128. Listed are the letters that occur in the
    patterns of the sources and every code unit that has the same upper-case
    form as one of them: a-z, U+010D, U+0142, and in Cyrillic U+0432 with
    U+1C80, U+0434 with U+1C81, U+0435, U+0438, U+043B, U+043D. Any other
    code unit never compares equal to a pattern letter, whichever its
    upper-case form, and is left as it is. *)
Definition canonicalize (c : N) : N :=
  if ((97 <=? c) && (c <=? 122))%N then (c - 32)%N
  else if (c =? 269)%N then 268%N
  else if (c =? 322)%N then 321%N
  else if ((c =? 1074) || (c =? 7296))%N then 1042%N
  else if ((c =? 1076) || (c =? 7297))%N then 1044%N
  else if (c =? 1077)%N then 1045%N
  else if (c =? 1080)%N then 1048%N
  else if (c =? 1083)%N then 1051%N
  else if (c =? 1085)%N then 1053%N
  else c.

(** [String.prototype.toLowerCase] on the same letters: the capitals go to
    their small letters; U+1C80 and U+1C81 are small letters already. *)
Definition toLowerCase (s : jsstring) : jsstring :=
  map (fun c =>
    if ((65 <=? c) && (c <=? 90))%N then (c + 32)%N
    else if (c =? 268)%N then 269%N
    else if (c =? 321)%N then 322%N
    else if (c =? 1042)%N then 1074%N
    else if (c =? 1044)%N then 1076%N
    else if (c =? 1045)%N then 1077%N
    else if (c =? 1048)%N then 1080%N
    else if (c =? 1051)%N then 1083%N
    else if (c =? 1053)%N then 1085%N
    else c) s.

Definition char_eq (ignoreCase : bool) (c d : N) : bool :=
  if ignoreCase then (canonicalize c =? canonicalize d)%N else (c =? d)%N.

(** Literal text at the head of [s]: the rest of [s] after it. *)
Fixpoint strip_lit (ic : bool) (p s : jsstring) : option jsstring :=
  match p, s with
  | [], _ => Some s
  | _ :: _, [] => None
  | c :: p', d :: s' => if char_eq ic c d then strip_lit ic p' s' else None
  end.

(** Greedy repetition of a class, longest first, giving characters back one
    at a time while the continuation fails. *)
Fixpoint star {A : Type} (cls : N -> bool) (s : jsstring)
    (k : jsstring -> option A) : option A :=
  match s with
  | c :: s' =>
    if cls c then
      match star cls s' k with
      | Some r => Some r
      | None => k s
      end
    else k s
  | [] => k []
  end.

Definition plus {A : Type} (cls : N -> bool) (s : jsstring)
    (k : jsstring -> option A) : option A :=
  match s with
  | c :: s' => if cls c then star cls s' k else None
  | [] => None
  end.

Fixpoint between {A : Type} (cls : N -> bool) (lo hi : nat) (s : jsstring)
    (k : jsstring -> option A) : option A :=
  let stop := match lo with O => k s | S _ => None end in
  match hi with
  | O => stop
  | S hi' =>
    match s with
    | c :: s' =>
      if cls c then
        match between cls (pred lo) hi' s' k with
        | Some r => Some r
        | None => stop
        end
      else stop
    | [] => stop
    end
  end.

(** The backtracking matcher, in continuation-passing style: [k] is what is
    left of the pattern. Captures set on a path that fails are dropped with
    it. The classes of the sources ([\s], [\d], the comma) hold no letters,
    so the [i] flag does not change them. *)
Fixpoint m {A : Type} (ic : bool) (input : jsstring) (r : re) (s : jsstring)
    (caps : captures) (k : jsstring -> captures -> option A) : option A :=
  match r with
  | Never => None
  | Bol => if (length s =? length input)%nat then k s caps else None
  | Eol => match s with [] => k s caps | _ :: _ => None end
  | Lit p =>
    match strip_lit ic p s with
    | Some s' => k s' caps
    | None => None
    end
  | Star cls => star cls s (fun s' => k s' caps)
  | Plus cls => plus cls s (fun s' => k s' caps)
  | Between cls lo hi => between cls lo hi s (fun s' => k s' caps)
  | Seq r1 r2 => m ic input r1 s caps (fun s' caps' => m ic input r2 s' caps' k)
  | Alt r1 r2 =>
    match m ic input r1 s caps k with
    | Some res => Some res
    | None => m ic input r2 s caps k
    end
  | Opt r1 =>
    match m ic input r1 s caps k with
    | Some res => Some res
    | None => k s caps
    end
  | Group i r1 =>
    m ic input r1 s caps
      (fun s' caps' => k s' (<[i := Some (take (length s - length s') s)]> caps'))
  end.

(** [RegExp.prototype.exec] without the [g] flag: the first start index, from
    the left, at which the pattern matches; element 0 is the matched text,
    element [i] the text of group [i] or [None] when it took no part. *)
Fixpoint exec_from (ic : bool) (input : jsstring) (r : re) (ngroups : nat)
    (s : jsstring) : option captures :=
  match m ic input r s (replicate (S ngroups) None)
          (fun s' caps => Some (<[0%nat := Some (take (length s - length s') s)]> caps)) with
  | Some caps => Some caps
  | None =>
    match s with
    | [] => None
    | _ :: s' => exec_from ic input r ngroups s'
    end
  end.

Definition exec (ic : bool) (r : re) (ngroups : nat) (input : jsstring)
    : option captures :=
  exec_from ic input r ngroups input.

(** What a pattern allows, step by step: the declarative reading of [m],
    from the text [s] and the captures [caps] before a pattern to the text
    and the captures after it. *)
Fixpoint matches (ic : bool) (input : jsstring) (r : re)
    (s : jsstring) (caps : captures) (s' : jsstring) (caps' : captures) : Prop :=
  match r with
  | Never => False
  | Bol => s' = s /\ caps' = caps
  | Eol => s = [] /\ s' = [] /\ caps' = caps
  | Lit p => strip_lit ic p s = Some s' /\ caps' = caps
  | Star cls => (exists w, s = w ++ s') /\ caps' = caps
  | Plus cls => (exists c w, s = c :: w ++ s') /\ caps' = caps
  | Between cls lo hi => (exists w, s = w ++ s') /\ caps' = caps
  | Seq r1 r2 =>
      exists s1 c1, matches ic input r1 s caps s1 c1 /\ matches ic input r2 s1 c1 s' caps'
  | Alt r1 r2 =>
      matches ic input r1 s caps s' caps' \/ matches ic input r2 s caps s' caps'
  | Opt r1 => matches ic input r1 s caps s' caps' \/ (s' = s /\ caps' = caps)
  | Group i r1 =>
      exists c1, matches ic input r1 s caps s' c1
                 /\ caps' = <[i := Some (take (length s - length s') s)]> c1
  end.

(** [match[i]]. *)
Definition group (match_ : captures) (i : nat) : option jsstring :=
  mjoin (match_ !! i).

End Regex.

(* ===================================================================== *)
(** ** YouTube: the action-tree adapter *)
(* ===================================================================== *)

Module YouTube.
Import Core Regex.

Definition namespace : jsstring := u16 "fd60ac36-d6b5-49dc-aee6-b0d87d130582".

(** *** paymentValue *)

(** The object literal [currencyData], entry by entry in source order. The
    key ['chf'] is written twice. *)
Definition entry (key value : string) : jsstring * jsstring := (u16 key, u16 value).
Local Notation "k ↦ v" := (entry k v) (at level 60, only parsing).

Definition currencyData : list (jsstring * jsstring) :=
  [ "us$" ↦ "USD"; "a$" ↦ "AUD"; "c$" ↦ "CAD"; "clp$" ↦ "CLP"; "cop$" ↦ "COP";
    "hk$" ↦ "HKD"; "mx$" ↦ "MXN"; "nt$" ↦ "TWD"; "nz$" ↦ "NZD"; "r$" ↦ "BRL";
    "rd$" ↦ "DOP"; "s$" ↦ "SGD"; "s/" ↦ "PEN"; "b/." ↦ "PAB"; "bs." ↦ "BOB";
    "лв" ↦ "BGN"; "ден" ↦ "MKD"; "дин." ↦ "RSD"; "ر.س" ↦ "SAR"; "د.إ" ↦ "AED";
    "br" ↦ "BYN"; "kn" ↦ "HRK"; "kč" ↦ "CZK"; "kr" ↦ "SEK"; "ft" ↦ "HUF";
    "zł" ↦ "PLN"; "cfa" ↦ "XOF"; "ush" ↦ "UGX"; "lei" ↦ "RON"; "chf" ↦ "CHF";
    "€" ↦ "EUR"; "£" ↦ "GBP"; "¥" ↦ "JPY"; "₩" ↦ "KRW"; "₹" ↦ "INR"; "₪" ↦ "ILS";
    "₱" ↦ "PHP"; "₽" ↦ "RUB"; "₺" ↦ "TRY"; "₦" ↦ "NGN"; "₲" ↦ "PYG"; "₡" ↦ "CRC";
    "q" ↦ "GTQ"; "l" ↦ "HNL"; "$" ↦ "USD"; "r" ↦ "ZAR";
    "aed" ↦ "AED"; "ars" ↦ "ARS"; "aud" ↦ "AUD"; "bgn" ↦ "BGN"; "bob" ↦ "BOB";
    "brl" ↦ "BRL"; "byn" ↦ "BYN"; "cad" ↦ "CAD"; "chf" ↦ "CHF"; "clp" ↦ "CLP";
    "cop" ↦ "COP"; "crc" ↦ "CRC"; "czk" ↦ "CZK"; "dkk" ↦ "DKK"; "dop" ↦ "DOP";
    "eur" ↦ "EUR"; "gbp" ↦ "GBP"; "gtq" ↦ "GTQ"; "hkd" ↦ "HKD"; "hnl" ↦ "HNL";
    "hrk" ↦ "HRK"; "huf" ↦ "HUF"; "ils" ↦ "ILS"; "inr" ↦ "INR"; "isk" ↦ "ISK";
    "jpy" ↦ "JPY"; "krw" ↦ "KRW"; "mkd" ↦ "MKD"; "mxn" ↦ "MXN"; "ngn" ↦ "NGN";
    "nio" ↦ "NIO"; "nok" ↦ "NOK"; "nzd" ↦ "NZD"; "pab" ↦ "PAB"; "pen" ↦ "PEN";
    "php" ↦ "PHP"; "pln" ↦ "PLN"; "pyg" ↦ "PYG"; "ron" ↦ "RON"; "rsd" ↦ "RSD";
    "rub" ↦ "RUB"; "sar" ↦ "SAR"; "sek" ↦ "SEK"; "sgd" ↦ "SGD"; "twd" ↦ "TWD";
    "try" ↦ "TRY"; "ugx" ↦ "UGX"; "usd" ↦ "USD"; "xof" ↦ "XOF"; "zar" ↦ "ZAR" ].

(** [Object.keys]: each key once, at the place of its first entry. *)
Fixpoint object_keys (seen : list jsstring) (entries : list (jsstring * jsstring))
    : list jsstring :=
  match entries with
  | [] => []
  | (k, _) :: rest =>
    if bool_decide (k ∈ seen) then object_keys seen rest
    else k :: object_keys (k :: seen) rest
  end.

(** [obj[k]] on own properties: of two entries with one key the later one
    holds. *)
Definition property (entries : list (jsstring * jsstring)) (k : jsstring)
    : option jsstring :=
  snd <$> List.find (fun kv => bool_decide (fst kv = k)) (rev entries).

(** [keys.sort((a, b) => b.length - a.length)]: longest first; the sort is
    stable, so keys of one length keep their order. [x] stood before every
    key of [sorted], so it goes in front of the keys of its own length. *)
Fixpoint insert_by_length (x : jsstring) (sorted : list jsstring) : list jsstring :=
  match sorted with
  | [] => [x]
  | y :: ys =>
    if (length y <=? length x)%nat then x :: sorted
    else y :: insert_by_length x ys
  end.

Definition sort_by_length_desc (l : list jsstring) : list jsstring :=
  fold_right insert_by_length [] l.

Definition all_keys : list jsstring := object_keys [] currencyData.

(** The alternation of the escaped symbols: each symbol is literal text. *)
Definition symbols : re :=
  fold_right Alt Never
    (map Lit (sort_by_length_desc all_keys)).

Definition isDigitOrComma (c : N) : bool := isDigit c || (c =? ch ",")%N.

(** [[\d,]+(?:\.\d{1,2})?] *)
Definition amountPattern : re :=
  Seq (Plus isDigitOrComma) (Opt (Seq (Lit (u16 ".")) (Between isDigit 1 2))).

(** [^\s*(?:(SYM)\s*(AMOUNT)|(AMOUNT)\s*(SYM))\s*$] with the flag [i]. *)
Definition paymentRegex : re :=
  Seq Bol
  (Seq (Star isWhiteSpace)
  (Seq (Alt (Seq (Group 1 symbols) (Seq (Star isWhiteSpace) (Group 2 amountPattern)))
            (Seq (Group 3 amountPattern) (Seq (Star isWhiteSpace) (Group 4 symbols))))
  (Seq (Star isWhiteSpace) Eol))).

(** [parseFloat] of digits with an optional fraction, after optional white
    space and sign; the argument built by [paymentValue] holds nothing else.
    No digit at all gives [NaN]; a value that rounds beyond the largest
    double gives [Infinity]. *)
Definition parseFloat (s : jsstring) : number :=
  let t := skipWhiteSpace s in
  let '(neg, t) :=
    match t with
    | c :: t' => if (c =? ch "-")%N then (true, t')
                 else if (c =? ch "+")%N then (false, t') else (false, t)
    | [] => (false, t)
    end in
  let ds := takeDigits t in
  let fs :=
    match drop (length ds) t with
    | c :: t' => if (c =? ch ".")%N then takeDigits t' else []
    | [] => []
    end in
  match ds ++ fs with
  | [] => NaN
  | _ =>
    let q := Qred (Qmake (digits_value (ds ++ fs)) (Pos.pow 10 (Pos.of_nat (length fs))))
    in
    let q := if (length fs =? 0)%nat then inject_Z (digits_value ds) else q in
    if Qle_bool (inject_Z (2 ^ 1024 - 2 ^ 970)) q then Infinity
    else Num (if neg then Qred (- q) else q)
  end.

Definition paymentValue (paymentText : jsstring)
    : result (option jsstring * option number) :=
  match exec true paymentRegex 4 paymentText with
  | None => Ok (None, None)
  | Some match_ =>
    let currencySymbol :=
      toLowerCase
        (default [] (or_else (or_else (group match_ 1) (group match_ 4)) (Some [])))
    in
    bind (deref "amountString.replace" (or_else (group match_ 2) (group match_ 3)))
      (fun amountString =>
         let amount :=
           parseFloat (List.filter (fun c => negb (c =? ch ",")%N) amountString) in
         let currencyCode := property currencyData currencySymbol in
         Ok (currencyCode, Some amount))
  end.

(** *** The shapes of the action tree

    The traffic is JSON, and every property may be missing. A property that
    the sources only read, test for truth or reach through [?.] is an
    [option]: [None] is a property that is [undefined] or [null], which
    such code does not tell apart. A property that they compare with
    [undefined] or turn into text is a [nullable]. An element of an array
    is an object or [null]. The text and paid renderers, the two gift
    events and the placeholder are objects with properties out of one set,
    so they share a record. *)

Record Thumbnail : Type := mkThumbnail { url : nullable jsstring }.
Record Photo : Type := mkPhoto { thumbnails : option (list (option Thumbnail)) }.
Record SimpleText : Type := mkSimpleText { simpleText : nullable jsstring }.
Record Icon : Type := mkIcon { iconType : option jsstring }.
Record AuthorBadgeRenderer : Type := mkAuthorBadgeRenderer {
  icon : option Icon;
  customThumbnail : nullable unit
}.
Record Badge : Type := mkBadge {
  liveChatAuthorBadgeRenderer : option AuthorBadgeRenderer
}.
Record Emoji : Type := mkEmoji { emojiId : nullable jsstring; image : option Photo }.
Record Run : Type := mkRun { text : nullable jsstring; emoji : nullable Emoji }.
Record Body : Type := mkBody { runs : option (list (option Run)) }.

Record Renderer : Type := mkRenderer {
  renderer_id : nullable jsstring;
  authorName : option SimpleText;
  authorPhoto : option Photo;
  timestampUsec : nullable jsstring;
  authorBadges : option (list (option Badge));
  purchaseAmountText : option SimpleText;
  renderer_message : option Body;
  numGiftedMembers : nullable Z
}.

Record Item : Type := mkItem {
  liveChatTextMessageRenderer : nullable Renderer;
  liveChatPaidMessageRenderer : nullable Renderer;
  liveChatMembershipGiftingEventRenderer : nullable Renderer;
  liveChatGiftMembershipReceivedEventRenderer : nullable Renderer;
  liveChatPlaceholderItemRenderer : nullable Renderer
}.

Record Action : Type := mkAction { item : option Item }.

(** *** prepareChatMessages *)

(** What a call logged, and the value it returned or the exception it
    raised; what was logged before an exception stays logged. *)
Definition logged (A : Type) : Type := list diagnostic * result A.

Definition ret {A : Type} (a : A) : logged A := ([], Ok a).
Definition lift {A : Type} (r : result A) : logged A := ([], r).
Definition tell (d : diagnostic) : logged unit := ([d], Ok tt).

Definition andThen {A B : Type} (c : logged A) (f : A -> logged B) : logged B :=
  match c with
  | (l, Ok a) => (l ++ fst (f a), snd (f a))
  | (l, Throw e) => (l, Throw e)
  end.

Notation "'let*' x ':=' c 'in' k" := (andThen c (fun x => k))
  (at level 10, x name, c at level 200, k at level 200).

(** [array.some(f)]: the elements in order, up to the first that [f] takes
    to true; an exception of [f] ends the call. *)
Fixpoint some {A : Type} (f : A -> result bool) (l : list A) : result bool :=
  match l with
  | [] => Ok false
  | x :: rest => bind (f x) (fun b => if b then Ok true else some f rest)
  end.

(** [array.forEach] with the state that the callback updates. *)
Fixpoint forEach {A S : Type} (f : S -> A -> logged S) (l : list A) (s : S) : logged S :=
  match l with
  | [] => ret s
  | x :: rest => let* s' := f s x in forEach f rest s'
  end.

Definition hasBadge (badges : option (list (option Badge))) (type : jsstring)
    : result bool :=
  match badges with
  | None => Ok false
  | Some bs =>
    some (fun badge =>
      bind (deref "badge.liveChatAuthorBadgeRenderer" badge) (fun b =>
      Ok (bool_decide (liveChatAuthorBadgeRenderer b ?> icon ?> iconType = Some type))))
      bs
  end.

Definition isMember (badges : option (list (option Badge))) : result bool :=
  match badges with
  | None => Ok false
  | Some bs =>
    some (fun badge =>
      bind (deref "badge.liveChatAuthorBadgeRenderer" badge) (fun b =>
      Ok (match liveChatAuthorBadgeRenderer b with
          | Some r => notUndefined (customThumbnail r)
          | None => false
          end)))
      bs
  end.

(** [parseInt(timestampUsec / 1000)]: the property is turned into a number
    ([undefined] into [NaN], [null] into zero, text by [Number]), divided,
    written out and read as an integer. *)
Definition millisOfUsec (p : nullable jsstring) : number :=
  match p with
  | Undefined => NaN
  | Null => num_of_Z 0
  | Defined s =>
    match finiteNumber s with
    | Some q => num_of_Z (parseIntOfNumber (roundTiny (Qred (q / 1000))))
    | None => NaN
    end
  end.

(** The string form of a number property inside a template literal. *)
Definition templateNumber (p : nullable Z) : jsstring :=
  match p with
  | Undefined => u16 "undefined"
  | Null => u16 "null"
  | Defined z => u16 (NilZero.string_of_int (Z.to_int z))
  end.

(** [uuidv5(x.id, this.namespace)]; an id that is no text is hashed in its
    string form. *)
Definition identity (this : Seed) (nativeId : nullable jsstring) : jsstring :=
  uuidv5 (stringOf nativeId) (this_namespace this).

(** [array.at(-1)]: [undefined] on an empty array, so [None] as for an
    element that is [null]. *)
Definition atLast {A : Type} (l : list (option A)) : option A := mjoin (list.last l).

(** [photo.thumbnails.at(-1).url], raising where the source would. *)
Definition lastThumbnailUrl (photo : option Photo) : result (option jsstring) :=
  bind (deref "authorPhoto.thumbnails" photo) (fun ph =>
  bind (deref "thumbnails.at" (thumbnails ph)) (fun ts =>
  bind (deref "at(-1).url" (atLast ts)) (fun t => Ok (present (url t))))).

(** The callback of [runs.forEach], on the body and the emoji list. *)
Definition addRun (acc : jsstring * list emoji_triple) (element : option Run)
    : logged (jsstring * list emoji_triple) :=
  let '(body, ems) := acc in
  let* run := lift (deref "run.text" element) in
  match text run with
  | Undefined =>
    match emoji run with
    | Undefined =>
      let* _ := tell (Log [u16 "[CHUCK::YouTube] Unknown run."]) in ret (body, ems)
    | Null => lift (Throw (TypeError (u16 "run.emoji.image")))
    | Defined e =>
      let emojiUrl :=
        default [] (or_else (image e ?> thumbnails ?> atLast ?> (fun t => present (url t)))
                            (Some [])) in
      let name := stringOf (emojiId e) in
      ret (body ++ u16 ":" ++ name ++ u16 ": ",
           ems ++ [(u16 ":" ++ name ++ u16 ":", emojiUrl, name)])
    end
  | t => ret (body ++ stringOf t, ems)
  end.

(** The test that the text and paid branch starts with: [true] when the
    renderer is skipped. *)
Definition malformed (renderer : Renderer) : bool :=
  negb (truthy_opt (present (renderer_id renderer)))
  || negb (bool_decide (is_Some (authorName renderer)))
  || negb (bool_decide (0 < length (default [] (authorPhoto renderer ?> thumbnails)))%nat).

(** The money of a paid message: read from the purchase text, or left as
    the constructor set it, with a warning. *)
Definition purchase (it : Item) (renderer : Renderer) (m : ChatMessage)
    : logged (option number * option jsstring) :=
  if notUndefined (liveChatPaidMessageRenderer it) then
    let* label :=
      lift (deref "purchaseAmountText.simpleText" (purchaseAmountText renderer)) in
    let* paymentText := lift (deref "paymentText.match" (present (simpleText label))) in
    let* pair := lift (paymentValue paymentText) in
    match pair with
    | (Some cur, Some amt) => ret (Some amt, Some cur)
    | _ =>
      let* _ :=
        tell (Warn [u16 "Could not parse SuperChat currency or amount."; paymentText]) in
      ret (amount m, currency m)
    end
  else ret (amount m, currency m).

(** The branch for a text or paid message. *)
Definition prepareTextOrPaid (this : Seed) (it : Item) (renderer : Renderer)
    : logged (option ChatMessage) :=
  if malformed renderer then ret None
  else
    let m := new_ChatMessage (identity this (renderer_id renderer))
                             (this_platform this) (this_channel this) in
    let* name := lift (deref "authorName.simpleText" (authorName renderer)) in
    let* av := lift (lastThumbnailUrl (authorPhoto renderer)) in
    let badges := authorBadges renderer in
    let* verified := lift (hasBadge badges (u16 "VERIFIED")) in
    let* member := lift (isMember badges) in
    let* moderator := lift (hasBadge badges (u16 "MODERATOR")) in
    let* owner := lift (hasBadge badges (u16 "OWNER")) in
    let* money := purchase it renderer m in
    let* filled := match renderer_message renderer ?> runs with
              | Some rs => forEach addRun rs (message m, emojis m)
              | None => ret (message m, emojis m)
              end in
    ret (Some
      {| id := id m; platform := platform m; channel := channel m;
         username := present (simpleText name); avatar := av; message := fst filled;
         sent_at := Some (millisOfUsec (timestampUsec renderer));
         amount := fst money; currency := snd money;
         is_verified := verified; is_sub := member;
         is_mod := moderator; is_owner := owner;
         is_placeholder := is_placeholder m;
         emojis := snd filled; extra := extra m |}).

(** The two gift branches differ in the text and in the amount. *)
Definition prepareGift (this : Seed) (ev : Renderer)
    (body : jsstring -> jsstring) (amt : number) : result (option ChatMessage) :=
  let m := new_ChatMessage (identity this (renderer_id ev))
                           (this_platform this) (this_channel this) in
  bind (deref "authorName.simpleText" (authorName ev)) (fun name =>
  bind (lastThumbnailUrl (authorPhoto ev)) (fun av =>
  Ok (Some
    {| id := id m; platform := platform m; channel := channel m;
       username := present (simpleText name); avatar := av;
       message := body (stringOf (simpleText name));
       sent_at := Some (millisOfUsec (timestampUsec ev));
       amount := Some amt; currency := Some (u16 "USD");
       is_verified := is_verified m; is_sub := is_sub m; is_mod := is_mod m;
       is_owner := is_owner m; is_placeholder := is_placeholder m;
       emojis := emojis m; extra := extra m |}))).

(** [numGiftedMembers * 5.00]. *)
Definition timesFive (n : nullable Z) : number :=
  match n with
  | Undefined => NaN
  | Null => num_of_Z 0
  | Defined z => num_of_Z (z * 5)
  end.

(** [text || paid] on the two renderers. *)
Definition chosen (it : Item) : option Renderer :=
  match present (liveChatTextMessageRenderer it) with
  | Some r => Some r
  | None => present (liveChatPaidMessageRenderer it)
  end.

Definition placeholderMessage (this : Seed) (ph : Renderer) : ChatMessage :=
  let m := new_ChatMessage (identity this (renderer_id ph))
                           (this_platform this) (this_channel this) in
  {| id := id m; platform := platform m; channel := channel m;
     username := username m; avatar := avatar m; message := message m;
     sent_at := Some (millisOfUsec (timestampUsec ph));
     amount := amount m; currency := currency m;
     is_verified := is_verified m; is_sub := is_sub m; is_mod := is_mod m;
     is_owner := is_owner m; is_placeholder := true;
     emojis := emojis m; extra := extra m |}.

(** The function mapped over the actions: what it logs, and the message,
    [null], or the exception it ends with. *)
Definition prepareAction (this : Seed) (action : option Action)
    : logged (option ChatMessage) :=
  match action ?> item with
  | None => ret None
  | Some it =>
    if notUndefined (liveChatTextMessageRenderer it)
       || notUndefined (liveChatPaidMessageRenderer it) then
      let* renderer := lift (deref "renderer.id" (chosen it)) in
      prepareTextOrPaid this it renderer
    else if notUndefined (liveChatMembershipGiftingEventRenderer it) then
      let* giftingEvent :=
        lift (deref "giftingEvent.id"
                (present (liveChatMembershipGiftingEventRenderer it))) in
      lift (prepareGift this giftingEvent
              (fun name => name ++ u16 " gifted "
                           ++ templateNumber (numGiftedMembers giftingEvent)
                           ++ u16 " memberships!")
              (num_of_Z 5))
    else if notUndefined (liveChatGiftMembershipReceivedEventRenderer it) then
      let* giftReceivedEvent := lift (deref "giftReceivedEvent.id"
                (present (liveChatGiftMembershipReceivedEventRenderer it))) in
      lift (prepareGift this giftReceivedEvent
              (fun name => name ++ u16 " received a gifted membership!")
              (timesFive (numGiftedMembers giftReceivedEvent)))
    else
      match liveChatPlaceholderItemRenderer it with
      | Undefined => ret None
      | Null => lift (Throw (TypeError (u16 "liveChatPlaceholderItemRenderer.id")))
      | Defined ph => ret (Some (placeholderMessage this ph))
      end
  end.

(** [Promise.all(actions.map(...)).then(filter)]: every action is worked on
    in order, whatever the others do; the promise is rejected with the first
    exception, and otherwise holds the messages that are not [null]. *)
Fixpoint collect (rs : list (result (option ChatMessage)))
    : result (list ChatMessage) :=
  match rs with
  | [] => Ok []
  | Throw e :: _ => Throw e
  | Ok o :: rest =>
    bind (collect rest) (fun ms =>
      Ok (match o with Some msg => msg :: ms | None => ms end))
  end.

Definition prepareChatMessages (this : Seed) (actions : list (option Action))
    : logged (list ChatMessage) :=
  let outs := map (prepareAction this) actions in
  (flat_map fst outs, collect (map snd outs)).

(** *** Sample traffic, in the shape of the fixtures of the tests *)

Definition sample_seed : Seed :=
  {| this_namespace := namespace; this_platform := u16 "YouTube";
     this_channel := Some (u16 "TestChannel") |}.

Definition photo_at (address : string) : option Photo :=
  Some {| thumbnails := Some [ Some {| url := Defined (u16 address) |} ] |}.

Definition sample_renderer (native : string) (purchase : option string)
    (gifted : nullable Z) : Renderer :=
  {| renderer_id := Defined (u16 native);
     authorName := Some {| simpleText := Defined (u16 "@Donor") |};
     authorPhoto := photo_at "https://example.com/a.jpg";
     timestampUsec := Defined (u16 "1234567890000000");
     authorBadges := None;
     purchaseAmountText := (fun s => {| simpleText := Defined (u16 s) |}) <$> purchase;
     renderer_message :=
       Some {| runs := Some [ Some {| text := Defined (u16 "Thanks!");
                                      emoji := Undefined |} ] |};
     numGiftedMembers := gifted |}.

Definition no_item : Item :=
  {| liveChatTextMessageRenderer := Undefined;
     liveChatPaidMessageRenderer := Undefined;
     liveChatMembershipGiftingEventRenderer := Undefined;
     liveChatGiftMembershipReceivedEventRenderer := Undefined;
     liveChatPlaceholderItemRenderer := Undefined |}.

Definition paid_action (purchase : string) : option Action :=
  Some {| item := Some
    {| liveChatTextMessageRenderer := Undefined;
       liveChatPaidMessageRenderer :=
         Defined (sample_renderer "paid-1" (Some purchase) Undefined);
       liveChatMembershipGiftingEventRenderer := Undefined;
       liveChatGiftMembershipReceivedEventRenderer := Undefined;
       liveChatPlaceholderItemRenderer := Undefined |} |}.

Definition gifting_item (n : Z) : Item :=
  {| liveChatTextMessageRenderer := Undefined;
     liveChatPaidMessageRenderer := Undefined;
     liveChatMembershipGiftingEventRenderer :=
       Defined (sample_renderer "gift-1" None (Defined n));
     liveChatGiftMembershipReceivedEventRenderer := Undefined;
     liveChatPlaceholderItemRenderer := Undefined |}.

Definition gift_received_item (n : Z) : Item :=
  {| liveChatTextMessageRenderer := Undefined;
     liveChatPaidMessageRenderer := Undefined;
     liveChatMembershipGiftingEventRenderer := Undefined;
     liveChatGiftMembershipReceivedEventRenderer :=
       Defined (sample_renderer "received-1" None (Defined n));
     liveChatPlaceholderItemRenderer := Undefined |}.

Definition gifting_action (n : Z) : option Action :=
  Some {| item := Some (gifting_item n) |}.

Definition gift_received_action (n : Z) : option Action :=
  Some {| item := Some (gift_received_item n) |}.

(** A gift event as the claim has it, with nothing but the count: the
    event carries no author. *)
Definition bare_gift : Renderer :=
  {| renderer_id := Defined (u16 "gift-2"); authorName := None;
     authorPhoto := None; timestampUsec := Undefined; authorBadges := None;
     purchaseAmountText := None; renderer_message := None;
     numGiftedMembers := Defined 1%Z |}.

Definition bare_gift_action : option Action :=
  Some {| item := Some
    {| liveChatTextMessageRenderer := Undefined;
       liveChatPaidMessageRenderer := Undefined;
       liveChatMembershipGiftingEventRenderer := Defined bare_gift;
       liveChatGiftMembershipReceivedEventRenderer := Undefined;
       liveChatPlaceholderItemRenderer := Undefined |} |}.

(** A gifting event with the name of its author and no photo. *)
Definition faceless_gift : Renderer :=
  {| renderer_id := Defined (u16 "gift-3");
     authorName := Some {| simpleText := Defined (u16 "@Donor") |};
     authorPhoto := None; timestampUsec := Undefined; authorBadges := None;
     purchaseAmountText := None; renderer_message := None;
     numGiftedMembers := Defined 1%Z |}.

Definition faceless_gift_action : option Action :=
  Some {| item := Some
    {| liveChatTextMessageRenderer := Undefined;
       liveChatPaidMessageRenderer := Undefined;
       liveChatMembershipGiftingEventRenderer := Defined faceless_gift;
       liveChatGiftMembershipReceivedEventRenderer := Undefined;
       liveChatPlaceholderItemRenderer := Undefined |} |}.

(** The money of a message: none of the two fields, or both. *)
Definition money_none_or_both (m : ChatMessage) : Prop :=
  (amount m = None /\ currency m = None)
  \/ (is_Some (amount m) /\ is_Some (currency m)).

End YouTube.

(* ===================================================================== *)
(** ** Facebook: the comment adapter *)
(* ===================================================================== *)

Module Facebook.
Import Core.

Definition namespace : jsstring := u16 "8f14e45f-ceea-467f-a184-bd5f3c4b7f2a".

Record TextBody : Type := mkTextBody { body_text : option jsstring }.
Record Picture : Type := mkPicture { uri : option jsstring }.
Record Author : Type := mkAuthor {
  name : option jsstring;
  profile_picture_depth_0 : option Picture;
  profile_picture_depth_1 : option Picture;
  author_is_verified : option bool
}.
Record IdentityBadge : Type := mkIdentityBadge {
  is_earned : option bool;
  is_enabled : option bool;
  identity_badge_type : option jsstring
}.

(** A list of badges as the two loops meet it: a value that is not truthy,
    over which nothing is looped; an array, whose elements are objects or
    [null]; or a truthy value that cannot be iterated (an object, a number,
    [true]). *)
Inductive badgeList : Type :=
  | NoBadges
  | BadgeArray (items : list (option IdentityBadge))
  | NotIterable.

Record Comment : Type := mkComment {
  comment_id : option jsstring;
  preferred_body : option TextBody;
  body : option TextBody;
  author : option Author;
  created_time : option Z;
  discoverable_identity_badges_web : badgeList;
  identity_badges_web : badgeList
}.

(** The [switch] on the badge type: the flags (mod, sub, owner) after it;
    [withOwner] is off in the second loop, which has no owner case. *)
Definition applyBadge (withOwner : bool) (flags : bool * bool * bool)
    (badge : IdentityBadge) : bool * bool * bool :=
  let '(md, sb, ow) := flags in
  let ty := identity_badge_type badge in
  if bool_decide (ty = Some (u16 "moderator")) then (true, sb, ow)
  else if bool_decide (ty = Some (u16 "top_fan"))
          || bool_decide (ty = Some (u16 "rising_fan"))
          || bool_decide (ty = Some (u16 "tipper")) then (md, true, ow)
  else if withOwner && bool_decide (ty = Some (u16 "gaming_partner")) then (md, sb, true)
  else flags.

(** The body of the first loop: a badge that is neither earned nor enabled
    is passed over. *)
Definition applyShown (flags : bool * bool * bool) (badge : IdentityBadge)
    : bool * bool * bool :=
  if negb (default false (is_earned badge)) && negb (default false (is_enabled badge))
  then flags else applyBadge true flags badge.

(** [for (const badge of items)] with the flags that the body sets; reading
    a property of an element that is [null] raises. *)
Fixpoint forOf (body : bool * bool * bool -> IdentityBadge -> bool * bool * bool)
    (items : list (option IdentityBadge)) (flags : bool * bool * bool)
    : result (bool * bool * bool) :=
  match items with
  | [] => Ok flags
  | element :: rest =>
    bind (deref "badge.identity_badge_type" element) (fun badge =>
    forOf body rest (body flags badge))
  end.

(** [if (list) { for (const badge of list) ... }]. *)
Definition loopOver (body : bool * bool * bool -> IdentityBadge -> bool * bool * bool)
    (badges : badgeList) (flags : bool * bool * bool) : result (bool * bool * bool) :=
  match badges with
  | NoBadges => Ok flags
  | BadgeArray items => forOf body items flags
  | NotIterable => Throw (TypeError (u16 "badges is not iterable"))
  end.

Definition parseComment (this : Seed) (commentData : option Comment)
    : result (option ChatMessage) :=
  match commentData with
  | None => Ok None
  | Some c =>
    if negb (truthy_opt (comment_id c)) then Ok None
    else
      let m := new_ChatMessage (uuidv5 (default [] (comment_id c)) (this_namespace this))
                               (this_platform this) (this_channel this) in
      let txt :=
        default [] (or_else (or_else (preferred_body c ?> body_text)
                                     (body c ?> body_text)) (Some [])) in
      bind (loopOver applyShown (discoverable_identity_badges_web c)
              (is_mod m, is_sub m, is_owner m)) (fun flags1 =>
      bind (loopOver (applyBadge false) (identity_badges_web c) flags1) (fun flags2 =>
      Ok (Some
        {| id := id m; platform := platform m; channel := channel m;
           username := match author c with
                       | Some a => or_else (name a) (Some (u16 "Unknown"))
                       | None => username m
                       end;
           avatar := match author c with
                     | Some a => or_else (profile_picture_depth_0 a ?> uri)
                                         (profile_picture_depth_1 a ?> uri)
                     | None => avatar m
                     end;
           message := txt;
           sent_at := match created_time c with
                      | Some t => if (t =? 0)%Z then sent_at m
                                  else Some (num_of_Z (t * 1000))
                      | None => sent_at m
                      end;
           amount := amount m; currency := currency m;
           is_verified := match author c with
                          | Some a => default false (author_is_verified a)
                          | None => is_verified m
                          end;
           is_sub := flags2.1.2; is_mod := flags2.1.1; is_owner := flags2.2;
           is_placeholder := is_placeholder m;
           emojis := emojis m; extra := extra m |})))
  end.

End Facebook.

(* ===================================================================== *)
(** ** Seed: the command dispatcher *)
(* ===================================================================== *)

Module Seed.

(** A parsed JSON text. A number is kept as its sign and its magnitude,
    which tells [-0] from [0] and the two infinities apart. *)
#[local] Unset Elimination Schemes.
Inductive json : Type :=
  | JNull
  | JBool (b : bool)
  | JNumber (negative : bool) (magnitude : number)
  | JString (s : jsstring)
  | JArray (items : list json)
  | JObject (fields : list (jsstring * json)).
#[local] Set Elimination Schemes.

(** *** JSON.parse *)

Definition isJsonSpace (c : N) : bool :=
  ((c =? 32) || (c =? 9) || (c =? 10) || (c =? 13))%N.

Fixpoint skipJsonSpace (s : jsstring) : jsstring :=
  match s with
  | c :: s' => if isJsonSpace c then skipJsonSpace s' else s
  | [] => []
  end.

(** The character that a one-letter escape stands for. *)
Definition escaped (e : N) : option N :=
  if (e =? 34)%N then Some 34%N
  else if (e =? 92)%N then Some 92%N
  else if (e =? 47)%N then Some 47%N
  else if (e =? ch "b")%N then Some 8%N
  else if (e =? ch "f")%N then Some 12%N
  else if (e =? ch "n")%N then Some 10%N
  else if (e =? ch "r")%N then Some 13%N
  else if (e =? ch "t")%N then Some 9%N
  else None.

Definition hex4 (h1 h2 h3 h4 : N) : option N :=
  match Core.hex_value h1, Core.hex_value h2, Core.hex_value h3, Core.hex_value h4 with
  | Some a, Some b, Some c, Some d => Some (4096 * a + 256 * b + 16 * c + d)%N
  | _, _, _, _ => None
  end.

Definition prepend (c : N) (parsed : option (jsstring * jsstring))
    : option (jsstring * jsstring) :=
  match parsed with
  | Some (text, rest) => Some (c :: text, rest)
  | None => None
  end.

(** The characters of a string after its opening quote, up to the closing
    one: the text they stand for and what follows the string. *)
Fixpoint parseChars (s : jsstring) : option (jsstring * jsstring) :=
  match s with
  | [] => None
  | c :: r =>
    if (c =? 34)%N then Some ([], r)
    else if (c =? 92)%N then
      match r with
      | e :: r' =>
        if (e =? ch "u")%N then
          match r' with
          | h1 :: h2 :: h3 :: h4 :: r'' =>
            match hex4 h1 h2 h3 h4 with
            | Some u => prepend u (parseChars r'')
            | None => None
            end
          | _ => None
          end
        else
          match escaped e with
          | Some x => prepend x (parseChars r')
          | None => None
          end
      | [] => None
      end
    else if (c <? 32)%N then None
    else prepend c (parseChars r)
  end.

(** A number: an optional minus, an integer without a leading zero, an
    optional fraction and an optional exponent. *)
Definition parseNumber (s : jsstring) : option (json * jsstring) :=
  let '(neg, u) :=
    match s with
    | c :: r => if (c =? ch "-")%N then (true, r) else (false, s)
    | [] => (false, s)
    end in
  let ip :=
    match u with
    | c :: _ => if (c =? ch "0")%N then [c] else takeDigits u
    | [] => []
    end in
  match ip with
  | [] => None
  | _ =>
    let r1 := drop (length ip) u in
    let fraction : option (jsstring * jsstring) :=
      match r1 with
      | c :: r =>
        if (c =? ch ".")%N then
          match takeDigits r with
          | [] => None
          | fp => Some (fp, drop (length fp) r)
          end
        else Some ([], r1)
      | [] => Some ([], r1)
      end in
    match fraction with
    | None => None
    | Some (fp, r2) =>
      let exponent : option (Z * jsstring) :=
        match r2 with
        | c :: r =>
          if ((c =? ch "e") || (c =? ch "E"))%N then
            let '(eneg, r') := takeSign r in
            match takeDigits r' with
            | [] => None
            | ed => Some (if eneg then (- digits_value ed)%Z else digits_value ed,
                          drop (length ed) r')
            end
          else Some (0%Z, r2)
        | [] => Some (0%Z, r2)
        end in
      match exponent with
      | None => None
      | Some (e, r3) =>
        let q := scale10 (digits_value (ip ++ fp)) (e - Z.of_nat (length fp)) in
        Some (JNumber neg (if overflows q then Infinity else Num (roundTiny q)), r3)
      end
    end
  end.

(** A value, the members of an object after its brace and the elements of
    an array after its bracket. Every call below the first has read at
    least one character more, so the length of the text bounds the depth. *)
Fixpoint parseValue (fuel : nat) (s : jsstring) : option (json * jsstring) :=
  match fuel with
  | O => None
  | S fuel' =>
    match skipJsonSpace s with
    | [] => None
    | c :: r =>
      if (c =? ch "{")%N then
        match skipJsonSpace r with
        | c' :: r' =>
          if (c' =? ch "}")%N then Some (JObject [], r')
          else match parseMembers fuel' r with
               | Some (fields, rest) => Some (JObject fields, rest)
               | None => None
               end
        | [] => None
        end
      else if (c =? ch "[")%N then
        match skipJsonSpace r with
        | c' :: r' =>
          if (c' =? ch "]")%N then Some (JArray [], r')
          else match parseElements fuel' r with
               | Some (items, rest) => Some (JArray items, rest)
               | None => None
               end
        | [] => None
        end
      else if (c =? 34)%N then
        match parseChars r with
        | Some (text, rest) => Some (JString text, rest)
        | None => None
        end
      else if startsWith (c :: r) (u16 "true") then Some (JBool true, drop 4 (c :: r))
      else if startsWith (c :: r) (u16 "false") then Some (JBool false, drop 5 (c :: r))
      else if startsWith (c :: r) (u16 "null") then Some (JNull, drop 4 (c :: r))
      else parseNumber (c :: r)
    end
  end
with parseMembers (fuel : nat) (s : jsstring)
    : option (list (jsstring * json) * jsstring) :=
  match fuel with
  | O => None
  | S fuel' =>
    match skipJsonSpace s with
    | quote :: r =>
      if (quote =? 34)%N then
        match parseChars r with
        | Some (key, r1) =>
          match skipJsonSpace r1 with
          | colon :: r2 =>
            if (colon =? ch ":")%N then
              match parseValue fuel' r2 with
              | Some (v, r3) =>
                match skipJsonSpace r3 with
                | c :: r4 =>
                  if (c =? ch ",")%N then
                    match parseMembers fuel' r4 with
                    | Some (fields, rest) => Some ((key, v) :: fields, rest)
                    | None => None
                    end
                  else if (c =? ch "}")%N then Some ([(key, v)], r4)
                  else None
                | [] => None
                end
              | None => None
              end
            else None
          | [] => None
          end
        | None => None
        end
      else None
    | [] => None
    end
  end
with parseElements (fuel : nat) (s : jsstring) : option (list json * jsstring) :=
  match fuel with
  | O => None
  | S fuel' =>
    match parseValue fuel' s with
    | Some (v, r1) =>
      match skipJsonSpace r1 with
      | c :: r2 =>
        if (c =? ch ",")%N then
          match parseElements fuel' r2 with
          | Some (items, rest) => Some (v :: items, rest)
          | None => None
          end
        else if (c =? ch "]")%N then Some ([v], r2)
        else None
      | [] => None
      end
    | None => None
    end
  end.

(** [JSON.parse(text)]: the value of a text that is one JSON value with
    white space around it, and a [SyntaxError] for any other text. *)
Definition JSON_parse (text : jsstring) : result json :=
  match parseValue (S (S (length text))) text with
  | Some (v, rest) =>
    match skipJsonSpace rest with
    | [] => Ok v
    | _ :: _ => Throw (SyntaxError (u16 "Unexpected token"))
    end
  | None => Throw (SyntaxError (u16 "Unexpected token"))
  end.

(** *** The dispatcher *)

(** [obj[k]] on the entries of an object: of two entries with one key the
    later one holds; [None] is [undefined]. *)
Definition lookup (fields : list (jsstring * json)) (k : jsstring) : option json :=
  snd <$> List.find (fun kv => bool_decide (fst kv = k)) (rev fields).

(** [v.k] for a key that names no built-in property, such as [type] and
    [data]: reading from [null] raises, and a value that is no object has
    no such property. *)
Definition read (v : json) (k : string) : result (option json) :=
  match v with
  | JNull => Throw (TypeError (u16 k))
  | JObject fields => Ok (lookup fields (u16 k))
  | _ => Ok None
  end.

(** What the entries of an object say about a key: no entry has it, or the
    last entry that has it holds the value. *)
Definition holds (fields : list (jsstring * json)) (k : jsstring) (v : option json)
    : Prop :=
  match v with
  | None => k ∉ map fst fields
  | Some d => exists before after,
      fields = before ++ (k, d) :: after /\ k ∉ map fst after
  end.

(** What a call of the dispatcher does: it invokes a handler, or it leaves a
    line in the debug log, which is shown in verbose mode only. The
    arguments are values, [None] for [undefined]. *)
Inductive effect : Type :=
  | InjectMessage (data : option json)
  | Debug (args : list (option json)).

Definition is_handler (e : effect) : bool :=
  match e with
  | InjectMessage _ => true
  | Debug _ => false
  end.

(** [try { body } catch (e) { handler(e) }]. *)
Definition tryCatch {A : Type} (body : result A) (handler : exn -> result A) : result A :=
  match body with
  | Ok a => Ok a
  | Throw e => handler e
  end.

(** Modelled from the spec: [handleServerCommand] of src/core/seed.js is not
    among the sources, only its tests are. A recognized discriminator routes
    to its handler with [data] passed through unchanged, [null] and
    [undefined] included; an unrecognized one is logged, with its data as
    the tests have it, and dropped. ["inject_message"] is the one
    discriminator the specification names. *)
Definition handleServerCommand (type : jsstring) (data : option json)
    : result (list effect) :=
  if bool_decide (type = u16 "inject_message") then Ok [InjectMessage data]
  else Ok [Debug [Some (JString (u16 "Unknown server command:")); Some (JString type); data]].

(** Modelled from the spec: [onChatSocketMessage] of src/core/seed.js is not
    among the sources, only its tests are. The data of the event is parsed
    as [{type, data}]; text that does not parse, a parsed value without a
    string as discriminator (be it [null], from which nothing can be read)
    and whatever is raised on the way are ignored apart from a line in the
    debug log. *)
Definition onChatSocketMessage (eventData : nullable jsstring) : result (list effect) :=
  let ignored := Ok [Debug [Some (JString (stringOf eventData))]] in
  tryCatch
    (bind (JSON_parse (stringOf eventData)) (fun parsed =>
     bind (read parsed "type") (fun discriminator =>
     match discriminator with
     | Some (JString type) =>
       bind (read parsed "data") (fun data => handleServerCommand type data)
     | _ => ignored
     end)))
    (fun _ => ignored).

(** The envelopes of the tests, as text. *)
Definition quoted (s : string) : jsstring := 34%N :: u16 s ++ [34%N].

Definition envelope (type : string) (data : jsstring) : jsstring :=
  u16 "{" ++ quoted "type" ++ u16 ":" ++ quoted type ++ u16 ","
  ++ quoted "data" ++ u16 ":" ++ data ++ u16 "}".

Definition test_user : jsstring :=
  u16 "{" ++ quoted "username" ++ u16 ":" ++ quoted "Test" ++ u16 "}".

Definition bare_envelope : jsstring :=
  u16 "{" ++ quoted "type" ++ u16 ":" ++ quoted "inject_message" ++ u16 "}".

Definition untyped_envelope : jsstring :=
  u16 "{" ++ quoted "foo" ++ u16 ":" ++ quoted "bar" ++ u16 "}".

End Seed.

(* ===================================================================== *)
(** ** Rumble: subscription records *)
(* ===================================================================== *)

Module Rumble.

(** A record of the user directory. *)
Record User : Type := mkUser {
  user_id : jsstring;
  user_username : jsstring
}.

(** What an inbound event is, as far as subscriptions go. *)
Inductive kind : Type :=
  | GiftPurchase (total_gifts : Z)
  | Subscribed
  | Chat.

Record Event : Type := mkEvent {
  event_id : jsstring;
  event_user_id : jsstring;
  event_kind : kind
}.

Record Subscription : Type := mkSubscription {
  id : jsstring;
  gifted : bool;
  buyer : jsstring;
  count : Z;
  value : Z
}.

Definition findUser (users : list User) (uid : jsstring) : option User :=
  List.find (fun u => bool_decide (user_id u = uid)) users.

Definition isSubscriptionEvent (e : Event) : bool :=
  match event_kind e with
  | Chat => false
  | _ => true
  end.

(** Modelled from the spec: [prepareSubscriptions] of src/platforms/rumble.js
    is not among the sources, only its tests are. A gift-subscription event
    whose buyer is in the directory gives one record
    [{gifted: true, buyer: name, count: n, value: n}]; a buyer that is not
    gives an [undefined] slot and a diagnostic that names the missing id.
    The tests add that a plain subscription counts one at the value 5 and
    that chat messages give no slot at all. *)
Definition prepareSubscription (users : list User) (e : Event)
    : option Subscription * list diagnostic :=
  match findUser users (event_user_id e) with
  | None => (None, [Log [u16 "User not found:"; event_user_id e]])
  | Some u =>
    match event_kind e with
    | GiftPurchase n =>
        (Some {| id := event_id e; gifted := true; buyer := user_username u;
                 count := n; value := n |}, [])
    | _ =>
        (Some {| id := event_id e; gifted := false; buyer := user_username u;
                 count := 1; value := 5 |}, [])
    end
  end.

Definition prepareSubscriptions (events : list Event) (users : list User)
    : result (list (option Subscription) * list diagnostic) :=
  let outs := map (prepareSubscription users) (List.filter isSubscriptionEvent events) in
  Ok (map fst outs, flat_map snd outs).

(** The gift purchase of the fixture, and its buyer. *)
Definition sample_gift : Event :=
  {| event_id := u16 "2403846329322621779"; event_user_id := u16 "88707682";
     event_kind := GiftPurchase 5 |}.

Definition sample_buyer : User :=
  {| user_id := u16 "88707682"; user_username := u16 "GenerousGifter" |}.

(** A directory in which the buyer is neither the first nor the only user,
    and one without the buyer. *)
Definition sample_directory : list User :=
  [ {| user_id := u16 "10101010"; user_username := u16 "FirstChatter" |};
    sample_buyer;
    {| user_id := u16 "20202020"; user_username := u16 "NewSubscriber" |} ].

Definition other_directory : list User :=
  [ {| user_id := u16 "10101010"; user_username := u16 "FirstChatter" |};
    {| user_id := u16 "20202020"; user_username := u16 "NewSubscriber" |} ].

End Rumble.

(* ===================================================================== *)
(** ** Twitch: lines off the socket *)
(* ===================================================================== *)

Module TwitchSocket.
Import Core Twitch.

(** What the recorder is told about a frame: the direction, the payload (a
    payload that is no string is [None]), the status, the category and,
    for an ignored frame, the reason. *)
Inductive status : Type := HANDLED | IGNORED | UNHANDLED.

Record capture : Type := mkCapture {
  direction : jsstring;
  payload : option jsstring;
  outcome : status;
  category : jsstring;
  why : option jsstring
}.

(** What handling a frame does, in order: lines of the log, a message handed
    to [postChatMessage], an entry of the recorder. *)
Inductive effect : Type :=
  | Said (d : diagnostic)
  | PostChatMessage (m : ChatMessage)
  | Recorded (c : capture).

Definition recordWebSocketHandled (dir line kind_ : jsstring) : effect :=
  Recorded {| direction := dir; payload := Some line; outcome := HANDLED;
              category := kind_; why := None |}.

Definition recordWebSocketIgnored (dir : jsstring) (data : option jsstring)
    (kind_ reason : jsstring) : effect :=
  Recorded {| direction := dir; payload := data; outcome := IGNORED;
              category := kind_; why := Some reason |}.

Definition recordWebSocketUnhandled (dir line kind_ : jsstring) : effect :=
  Recorded {| direction := dir; payload := Some line; outcome := UNHANDLED;
              category := kind_; why := None |}.

(** A value inside a template literal: [undefined] prints as its name. *)
Definition template (o : option jsstring) : jsstring := default (u16 "undefined") o.

(** A [case] list of the [switch], and a chain of [===]: the value is one of
    the strings. *)
Definition is_one_of (o : option jsstring) (names : list jsstring) : bool :=
  existsb (fun n => bool_decide (o = Some n)) names.

(** The [switch] of [processIrcLine] on the verb of the frame. *)
Definition dispatch (this : Seed) (now : Z) (line : jsstring)
    (parsed : ParsedTextFrame) : list effect :=
  let verb := command parsed in
  let ignored kind_ reason := [recordWebSocketIgnored (u16 "in") (Some line) kind_ reason] in
  if bool_decide (verb = Some (u16 "PRIVMSG")) then
    let '(message, logs) := prepareChatMessage this now parsed in
    map Said logs ++
    match message with
    | Some m => [PostChatMessage m; recordWebSocketHandled (u16 "in") line (u16 "PRIVMSG")]
    | None => ignored (u16 "PRIVMSG") (u16 "Failed to parse")
    end
  else if bool_decide (verb = Some (u16 "USERNOTICE")) then
    let msgId := tags parsed !! u16 "msg-id" in
    if is_one_of msgId [u16 "sub"; u16 "resub"; u16 "subgift"; u16 "submysterygift"]
    then ignored (u16 "USERNOTICE_SUB") (u16 "Subscription: " ++ template msgId)
    else if bool_decide (msgId = Some (u16 "raid"))
    then ignored (u16 "USERNOTICE_RAID") (u16 "Raid notification")
    else ignored (u16 "USERNOTICE") (u16 "msg-id: " ++ template msgId)
  else if bool_decide (verb = Some (u16 "CLEARCHAT")) then
    ignored (u16 "CLEARCHAT") (u16 "Moderation action")
  else if bool_decide (verb = Some (u16 "CLEARMSG")) then
    ignored (u16 "CLEARMSG") (u16 "Message deleted")
  else if bool_decide (verb = Some (u16 "ROOMSTATE")) then
    ignored (u16 "ROOMSTATE") (u16 "Room state update")
  else if bool_decide (verb = Some (u16 "USERSTATE"))
          || bool_decide (verb = Some (u16 "GLOBALUSERSTATE")) then
    ignored (default [] verb) (u16 "User state")
  else if bool_decide (verb = Some (u16 "NOTICE")) then
    ignored (u16 "NOTICE") (u16 "System notice")
  else if bool_decide (verb = Some (u16 "JOIN"))
          || bool_decide (verb = Some (u16 "PART")) then
    ignored (default [] verb) (u16 "Channel join/part")
  else if is_one_of verb
            [u16 "CAP"; u16 "001"; u16 "002"; u16 "003"; u16 "004"; u16 "353";
             u16 "366"; u16 "372"; u16 "375"; u16 "376"] then
    ignored (u16 "IRC_INIT") (u16 "Connection initialization")
  else if bool_decide (verb = Some (u16 "RECONNECT")) then
    ignored (u16 "RECONNECT") (u16 "Reconnect requested")
  else if truthy_opt verb then
    [recordWebSocketUnhandled (u16 "in") line (default [] verb)]
  else [recordWebSocketUnhandled (u16 "in") line (u16 "UNKNOWN")].

Definition processIrcLine (this : Seed) (now : Z) (line : jsstring) : list effect :=
  if bool_decide (line = u16 "PING :tmi.twitch.tv") then
    [recordWebSocketIgnored (u16 "in") (Some line) (u16 "PING") (u16 "Keepalive ping")]
  else dispatch this now line (parseIrcMessageToJson line).

(** [data.split('\r\n')]: the separator has two code units; the scan goes
    from the left and a separator found is skipped whole. *)
Fixpoint splitCRLF (s : jsstring) : list jsstring :=
  match s with
  | [] => [[]]
  | c :: s' =>
    match s' with
    | d :: s'' =>
      if ((c =? 13) && (d =? 10))%N then [] :: splitCRLF s''
      else match splitCRLF s' with
           | [] => [[c]]
           | w :: ws => (c :: w) :: ws
           end
    | [] => [[c]]
    end
  end.

(** [onWebSocketMessage]: [data] that is no string is [None]. The clock is
    read once for each line, [clock i] for the line at place [i]. *)
Definition onWebSocketMessage (this : Seed) (clock : nat -> Z)
    (data : option jsstring) : list effect :=
  match data with
  | None =>
    [recordWebSocketIgnored (u16 "in") None (u16 "BINARY") (u16 "Non-string data")]
  | Some text =>
    let lines := List.filter truthy (splitCRLF text) in
    concat (imap (fun i line => processIrcLine this (clock i) line) lines)
  end.

Definition onWebSocketSend (message : option jsstring) : list effect :=
  match message with
  | None => []
  | Some text =>
    let parsed := parseIrcMessageToJson text in
    let reason := default [] (or_else (command parsed) (Some (u16 "IRC_SEND"))) in
    [recordWebSocketIgnored (u16 "out") (Some text) reason (u16 "Outgoing IRC command")]
  end.

(** The messages posted and the entries recorded, in order. *)
Definition posted (es : list effect) : list ChatMessage :=
  omap (fun e => match e with PostChatMessage m => Some m | _ => None end) es.

Definition recorded (es : list effect) : list capture :=
  omap (fun e => match e with Recorded c => Some c | _ => None end) es.

(** What the [switch] leaves behind: one entry of the recorder, the last
    effect, for the line that came in; before it either the one message
    posted, and the entry says handled, or nothing but lines of the log. *)
Definition one_record (line : jsstring) (parsed : ParsedTextFrame)
    (es : list effect) : Prop :=
  exists pre c,
    es = pre ++ [Recorded c]
    /\ direction c = u16 "in" /\ payload c = Some line
    /\ ((outcome c = HANDLED
         /\ exists m, pre = [PostChatMessage m]
              /\ command parsed = Some (u16 "PRIVMSG")
              /\ tags parsed !! u16 "id" = Some (id m) /\ id m <> [])
        \/ (outcome c <> HANDLED /\ posted pre = [] /\ recorded pre = [])).

(** A full line: the tag block, the prefix block, and the rest. *)
Definition full_line (tagsStr pfx : jsstring) (cmd : jsstring) (ps : list jsstring)
    (trl : option jsstring) : jsstring :=
  u16 "@" ++ tagsStr ++ u16 " :" ++ pfx ++ u16 " " ++ serialize cmd ps trl.

(** The tag block of a list of keys and values. *)
Definition tag_block (pairs : list (jsstring * jsstring)) : jsstring :=
  join (u16 ";") (map (fun kv => fst kv ++ u16 "=" ++ snd kv) pairs).

(** A key and a value that the tag block carries as they are: no semicolon
    and no equals sign in the key, which is not ["__proto__"]; no semicolon
    and no backslash in the value. *)
Definition plain_tag (kv : jsstring * jsstring) : Prop :=
  (ch ";" ∉ fst kv) /\ (ch "=" ∉ fst kv) /\ fst kv <> u16 "__proto__"
  /\ (ch ";" ∉ snd kv) /\ (92%N ∉ snd kv).

(** The escapes of a tag value read in one pass from the left, each
    backslash with the character after it: the reading that the chain of
    replacements of [unescape] is compared with. A backslash before any
    other character, and one at the very end, stay as they are. *)
Definition unescaped (x : N) : jsstring :=
  if (x =? ch "s")%N then [32%N]
  else if (x =? ch "n")%N then [10%N]
  else if (x =? ch "r")%N then [13%N]
  else if (x =? ch ":")%N then [ch ";"]
  else if (x =? 92)%N then [92%N]
  else [92%N; x].

Fixpoint unescapeOnce (s : jsstring) : jsstring :=
  match s with
  | [] => []
  | c :: s' =>
    if (c =? 92)%N then
      match s' with
      | [] => [c]
      | x :: s'' => unescaped x ++ unescapeOnce s''
      end
    else c :: unescapeOnce s'
  end.

(** *** The tag [emotes], as it is written

    A group is an emote id, a colon and positions between commas; the
    groups stand between slashes. A position names a first and a last
    place in decimal digits, with a hyphen between; any other text in its
    stead, here one without a digit, names none. *)
Inductive position : Type :=
  | Range (first last : jsstring)
  | Other (text : jsstring).

Definition digits (ds : jsstring) : Prop :=
  ds <> [] /\ Forall (fun d => isDigit d = true) ds.

Definition positionWritten (p : position) : jsstring :=
  match p with
  | Range first last => first ++ ch "-" :: last
  | Other text => text
  end.

Definition positionSound (p : position) : Prop :=
  match p with
  | Range first last => digits first /\ digits last
  | Other text =>
      Forall (fun c => isDigit c = false /\ c <> ch "," /\ c <> ch "/") text
  end.

Definition groupWritten (g : jsstring * list position) : jsstring :=
  g.1 ++ ch ":" :: join [ch ","] (map positionWritten g.2).

Definition groupSound (g : jsstring * list position) : Prop :=
  (ch ":" ∉ g.1) /\ (ch "/" ∉ g.1) /\ Forall positionSound g.2.

Definition emotesWritten (gs : list (jsstring * list position)) : jsstring :=
  join [ch "/"] (map groupWritten gs).

(** The emotes that a group names in a message: for each position that
    lies in the message, first place not after the last, the text from the
    first place to the last, with the address of the emote id. *)
Definition pieces (msg : jsstring) (g : jsstring * list position) : list emoji_triple :=
  flat_map
    (fun p =>
       match p with
       | Range first last =>
         let start := digits_value first in
         let end_ := digits_value last in
         if ((start <=? end_) && (end_ <? Z.of_nat (length msg)))%Z
         then let emoteName := slice msg (Z.to_nat start) (Z.to_nat (end_ + 1)) in
              [(emoteName, emoteUrl g.1, emoteName)]
         else []
       | Other _ => []
       end)
    g.2.

End TwitchSocket.

(* ===================================================================== *)
(** ** YouTube: batches of actions *)
(* ===================================================================== *)

Module YouTubeBatch.
Import Core Regex YouTube.

(** The text [p] occurs in the text [s]. *)
Definition occurs (p s : jsstring) : Prop := exists a b, s = a ++ p ++ b.

(** An entry of the emoji list of a message with the body [body]: the
    placeholder is the name between colons, and the body holds it. *)
Definition placed (body : jsstring) (e : emoji_triple) : Prop :=
  e.1.1 = u16 ":" ++ e.2 ++ u16 ":" /\ occurs e.1.1 body.

(** The line that the loop over the runs logs for a run it does not know. *)
Definition unknownRun : diagnostic := Log [u16 "[CHUCK::YouTube] Unknown run."].

(** The item holds a text or a paid renderer, be it [null]. *)
Definition textOrPaid (it : Item) : Prop :=
  liveChatTextMessageRenderer it <> Undefined
  \/ liveChatPaidMessageRenderer it <> Undefined.

(** The test that the text and paid branch starts with: an id that is not
    empty, an author name, and a list of thumbnails that is not empty. *)
Definition wellFormed (r : Renderer) : Prop :=
  truthy_opt (present (renderer_id r)) = true
  /\ is_Some (authorName r)
  /\ (0 < length (default [] (authorPhoto r ?> thumbnails)))%nat.













(** The actions that give no message and no exception: no item; a text or
    paid renderer that fails the test; an item with none of the five
    renderers. *)
Definition skipped (action : option Action) : Prop :=
  action ?> item = None
  \/ exists it, action ?> item = Some it
       /\ ((exists r, chosen it = Some r /\ ~ wellFormed r)
           \/ (liveChatTextMessageRenderer it = Undefined
               /\ liveChatPaidMessageRenderer it = Undefined
               /\ liveChatMembershipGiftingEventRenderer it = Undefined
               /\ liveChatGiftMembershipReceivedEventRenderer it = Undefined
               /\ liveChatPlaceholderItemRenderer it = Undefined)).

(** A text message with the given runs, for the examples. *)
Definition text_renderer (native : string) (rs : list (option Run)) : Renderer :=
  {| renderer_id := Defined (u16 native);
     authorName := Some {| simpleText := Defined (u16 "@Viewer") |};
     authorPhoto := photo_at "https://example.com/v.jpg";
     timestampUsec := Defined (u16 "1234567890000000");
     authorBadges := None;
     purchaseAmountText := None;
     renderer_message := Some {| runs := Some rs |};
     numGiftedMembers := Undefined |}.

Definition text_item (native : string) (rs : list (option Run)) : Item :=
  {| liveChatTextMessageRenderer := Defined (text_renderer native rs);
     liveChatPaidMessageRenderer := Undefined;
     liveChatMembershipGiftingEventRenderer := Undefined;
     liveChatGiftMembershipReceivedEventRenderer := Undefined;
     liveChatPlaceholderItemRenderer := Undefined |}.

Definition text_action (native : string) (rs : list (option Run)) : option Action :=
  Some {| item := Some (text_item native rs) |}.


Definition wave_runs : list (option Run) :=
  [ Some {| text := Defined (u16 "Hello "); emoji := Undefined |};
    Some {| text := Undefined;
            emoji := Defined {| emojiId := Defined (u16 "wave");
                                image := photo_at "https://example.com/wave.png" |} |};
    Some {| text := Defined (u16 "everyone"); emoji := Undefined |} ].

(** A text message without an id. *)
Definition nameless_action : option Action :=
  Some {| item := Some
    {| liveChatTextMessageRenderer :=
         Defined {| renderer_id := Undefined;
                    authorName := Some {| simpleText := Defined (u16 "@Viewer") |};
                    authorPhoto := None; timestampUsec := Undefined;
                    authorBadges := None;
                    purchaseAmountText := None; renderer_message := None;
                    numGiftedMembers := Undefined |};
       liveChatPaidMessageRenderer := Undefined;
       liveChatMembershipGiftingEventRenderer := Undefined;
       liveChatGiftMembershipReceivedEventRenderer := Undefined;
       liveChatPlaceholderItemRenderer := Undefined |} |}.


End YouTubeBatch.

(* ===================================================================== *)
(** ** Regular expressions: what a match consumed *)
(* ===================================================================== *)

Module RegexClasses.
Import Regex.

(** The reading of [m] that keeps the classes: the text that a quantified
    class consumed lies in the class, and its length within the bounds. *)
Fixpoint accepts (ic : bool) (input : jsstring) (r : re)
    (s : jsstring) (caps : captures) (s' : jsstring) (caps' : captures) : Prop :=
  match r with
  | Never => False
  | Bol => s' = s /\ caps' = caps
  | Eol => s = [] /\ s' = [] /\ caps' = caps
  | Lit p => strip_lit ic p s = Some s' /\ caps' = caps
  | Star cls =>
      (exists w, s = w ++ s' /\ Forall (fun c => cls c = true) w) /\ caps' = caps
  | Plus cls =>
      (exists w, s = w ++ s' /\ w <> [] /\ Forall (fun c => cls c = true) w)
      /\ caps' = caps
  | Between cls lo hi =>
      (exists w, s = w ++ s' /\ Forall (fun c => cls c = true) w
                 /\ (lo <= length w <= hi)%nat)
      /\ caps' = caps
  | Seq r1 r2 =>
      exists s1 c1, accepts ic input r1 s caps s1 c1 /\ accepts ic input r2 s1 c1 s' caps'
  | Alt r1 r2 =>
      accepts ic input r1 s caps s' caps' \/ accepts ic input r2 s caps s' caps'
  | Opt r1 => accepts ic input r1 s caps s' caps' \/ (s' = s /\ caps' = caps)
  | Group i r1 =>
      exists c1, accepts ic input r1 s caps s' c1
                 /\ caps' = <[i := Some (take (length s - length s') s)]> c1
  end.

(** The text of an amount: digits and commas, at least one, and then
    perhaps a point and one or two digits. *)
Definition amount_text (w : jsstring) : Prop :=
  exists whole frac,
    w = whole ++ frac
    /\ whole <> [] /\ Forall (fun c => YouTube.isDigitOrComma c = true) whole
    /\ (frac = []
        \/ exists ds, frac = ch "." :: ds /\ Forall (fun c => isDigit c = true) ds
                      /\ (1 <= length ds <= 2)%nat).

(** A run of white space. *)
Definition blank (w : jsstring) : Prop := Forall (fun c => isWhiteSpace c = true) w.










(** A number that is not negative: [NaN], [Infinity], or a finite value
    from zero up. *)
Definition unsigned (a : number) : Prop :=
  match a with
  | NaN | Infinity => True
  | Num q => (0 <= q)%Q
  end.

(** A currency code: three capital letters. *)
Definition isCode (c : jsstring) : bool :=
  (length c =? 3)%nat && forallb (fun x => (65 <=? x) && (x <=? 90))%N c.

End RegexClasses.

(* ===================================================================== *)
(** ** YouTube: the responses of the live chat and the view count *)
(* ===================================================================== *)

Module YouTubeFeed.
Import Core Regex YouTube.

(** *** onFetchResponse *)

Record Removal : Type := mkRemoval { targetItemId : nullable jsstring }.

(** An action of a response: each property is an object or is absent. *)
Record RawAction : Type := mkRawAction {
  addChatItemAction : option Action;
  addLiveChatMembershipItemAction : option Action;
  removeChatItemAction : option Removal;
  addLiveChatTickerItemAction : option unit;
  updateLiveChatPollAction : option unit
}.

(** The body of a response; an element of [actions] that is [null] or
    [undefined] is [None]. *)
Record LiveChat : Type := mkLiveChat { actions : option (list (option RawAction)) }.
Record Contents : Type := mkContents { liveChatContinuation : option LiveChat }.
Record Json : Type := mkJson { continuationContents : option Contents }.

(** A response: [json] is what [response.json()] resolves to, or the
    exception it is rejected with. *)
Record Response : Type := mkResponse {
  response_url : jsstring;
  status : Z;
  json : result (option Json)
}.

Record Counts : Type := mkCounts {
  actionCount : nat;
  messagesAdded : nat;
  unhandledCount : nat;
  unhandledActions : list RawAction
}.

(** What the handler does, in order. *)
Inductive effect : Type :=
  | RecordFetchIgnored (address method : jsstring) (code : Z) (reason : jsstring)
  | SendRemoveMessages (ids : list jsstring)
  | Said (d : diagnostic)
  | RecordFetchHandled (address method : jsstring) (code : Z) (counts : Counts)
  | SendChatMessages (msgs : list ChatMessage)
  | RecordError (address method : jsstring) (code : Z) (e : exn).

(** [s.includes(p)]. *)
Definition includes (s p : jsstring) : bool := bool_decide (is_Some (indexOf s p)).

(** The state of the function mapped over the actions: what was done so
    far, the actions put aside as unhandled, and the values returned. *)
Record Mapped : Type := mkMapped {
  done : list effect;
  aside : list RawAction;
  returned : list (option Action)
}.

(** One call of the function mapped over the actions. *)
Definition classify (this : Seed) (st : Mapped) (action : option RawAction)
    : result Mapped :=
  bind (deref "action.addChatItemAction" action) (fun a =>
  let give (o : option Action) :=
    {| done := done st; aside := aside st; returned := returned st ++ [o] |} in
  match addChatItemAction a with
  | Some added => Ok (give (Some added))
  | None =>
  match addLiveChatMembershipItemAction a with
  | Some added => Ok (give (Some added))
  | None =>
  match removeChatItemAction a with
  | Some removal =>
      Ok {| done := done st
                    ++ [SendRemoveMessages [identity this (targetItemId removal)]];
            aside := aside st; returned := returned st ++ [None] |}
  | None =>
  match addLiveChatTickerItemAction a with
  | Some _ => Ok (give None)
  | None =>
  match updateLiveChatPollAction a with
  | Some _ => Ok (give None)
  | None =>
      Ok {| done := done st ++ [Said (Log [u16 "Unknown get_live_chat action."])];
            aside := aside st ++ [a]; returned := returned st ++ [None] |}
  end end end end end).

(** [actions.map(...)]: the calls in order; an exception ends the map, and
    what was done before it stays done. *)
Fixpoint mapActions (this : Seed) (st : Mapped) (acts : list (option RawAction))
    : list effect * result Mapped :=
  match acts with
  | [] => (done st, Ok st)
  | action :: rest =>
    match classify this st action with
    | Ok st' => mapActions this st' rest
    | Throw e => (done st, Throw e)
    end
  end.

(** What [receiveChatMessages] leaves behind when it is called
    ([received] is what [prepareChatMessages] gave, [None] when it was not
    called): the log, written during the call, and the messages, sent when
    the promise is fulfilled; a rejected promise sends nothing. *)
Definition written (received : option (list diagnostic * result (list ChatMessage)))
    : list effect :=
  match received with
  | Some (logs, _) => map Said logs
  | None => []
  end.

Definition settled (received : option (list diagnostic * result (list ChatMessage)))
    : list effect :=
  match received with
  | Some (_, Ok msgs) => [SendChatMessages msgs]
  | _ => []
  end.

Definition messageOf (e : exn) : jsstring :=
  match e with TypeError what | SyntaxError what => what end.

(** [onFetchResponse]. The promise of [receiveChatMessages] is settled after
    the response was recorded. *)
Definition onFetchResponse (this : Seed) (response : Response) : list effect :=
  let address := response_url response in
  let get := u16 "GET" in
  if negb (includes address (u16 "/get_live_chat")) then
    [RecordFetchIgnored address get (status response) (u16 "Not live chat endpoint")]
  else
    let failed (e : exn) :=
      [Said (Warn [u16 "Failed to process live chat response:"; messageOf e]);
       RecordError address get (status response) e] in
    match json response with
    | Throw e => failed e
    | Ok body =>
      match body ?> continuationContents ?> liveChatContinuation ?> actions with
      | None =>
        [RecordFetchIgnored address get (status response) (u16 "No actions in response")]
      | Some acts =>
        match mapActions this {| done := []; aside := []; returned := [] |} acts with
        | (before, Throw e) => before ++ failed e
        | (before, Ok st) =>
          let messagesToAdd := omap (fun o => o) (returned st) in
          let received :=
            if (0 <? length messagesToAdd)%nat
            then Some (prepareChatMessages this (map Some messagesToAdd))
            else None in
          before
          ++ written received
          ++ [RecordFetchHandled address get (status response)
                {| actionCount := length acts;
                   messagesAdded := length messagesToAdd;
                   unhandledCount := length (aside st);
                   unhandledActions := aside st |}]
          ++ settled received
        end
      end
    end.

(** The native id of an item: that of the renderer its branch reads. *)
Definition nativeId (it : Item) : nullable jsstring :=
  match chosen it with
  | Some r => renderer_id r
  | None =>
    match liveChatMembershipGiftingEventRenderer it with
    | Defined ev => renderer_id ev
    | _ =>
      match liveChatGiftMembershipReceivedEventRenderer it with
      | Defined ev => renderer_id ev
      | _ =>
        match liveChatPlaceholderItemRenderer it with
        | Defined ph => renderer_id ph
        | _ => Undefined
        end
      end
    end
  end.

(** The id that a removal names. *)
Definition targetOf (a : RawAction) : nullable jsstring :=
  match removeChatItemAction a with
  | Some removal => targetItemId removal
  | None => Undefined
  end.

(** The kinds of action by what the handler does with them. *)
Definition forwarded (a : RawAction) : bool :=
  bool_decide (is_Some (addChatItemAction a))
  || bool_decide (is_Some (addLiveChatMembershipItemAction a)).

Definition removing (a : RawAction) : bool :=
  negb (forwarded a) && bool_decide (is_Some (removeChatItemAction a)).

Definition dropped (a : RawAction) : bool :=
  negb (forwarded a) && negb (removing a)
  && (bool_decide (is_Some (addLiveChatTickerItemAction a))
      || bool_decide (is_Some (updateLiveChatPollAction a))).

Definition unknown (a : RawAction) : bool :=
  negb (forwarded a) && negb (removing a) && negb (dropped a).

Definition removals (es : list effect) : list (list jsstring) :=
  omap (fun e => match e with SendRemoveMessages ids => Some ids | _ => None end) es.

Definition fetchRecords (es : list effect) : list effect :=
  List.filter (fun e => match e with
                        | RecordFetchIgnored _ _ _ _ | RecordFetchHandled _ _ _ _
                        | RecordError _ _ _ _ => true
                        | _ => false
                        end) es.

(** A response of the live chat with the given actions. *)
Definition liveChatBody (acts : list RawAction) : option Json :=
  Some {| continuationContents :=
    Some {| liveChatContinuation := Some {| actions := Some (map Some acts) |} |} |}.

Definition liveChatResponse (acts : list RawAction) : Response :=
  {| response_url := u16 "https://www.youtube.com/youtubei/v1/live_chat/get_live_chat";
     status := 200;
     json := Ok (liveChatBody acts) |}.

Definition removeAction (target : nullable jsstring) : RawAction :=
  {| addChatItemAction := None; addLiveChatMembershipItemAction := None;
     removeChatItemAction := Some {| targetItemId := target |};
     addLiveChatTickerItemAction := None; updateLiveChatPollAction := None |}.

Definition addAction (a : Action) : RawAction :=
  {| addChatItemAction := Some a; addLiveChatMembershipItemAction := None;
     removeChatItemAction := None;
     addLiveChatTickerItemAction := None; updateLiveChatPollAction := None |}.

(** *** onViewCountChange *)

(** The element [#view-count], as far as the handler reads it: the attribute
    [aria-label] ([None] when [getAttribute] gives [null]) and the text. *)
Record ViewCount : Type := mkViewCount {
  ariaLabel : option jsstring;
  textContent : option jsstring
}.

(** [/([\d,]+)\s+views/] *)
Definition viewsPattern : re :=
  Seq (Group 1 (Plus isDigitOrComma)) (Seq (Plus isWhiteSpace) (Lit (u16 "views"))).

(** The number read from the text of the element, when there is one. *)
Definition viewersOfText (elem : ViewCount) : option Z :=
  let text := default [] (or_else (textContent elem) (Some [])) in
  match exec false viewsPattern 1 (List.filter (fun c => negb (c =? ch ",")%N) text) with
  | Some match_ =>
      if truthy_opt (group match_ 1) then parseInt10 (group match_ 1) else None
  | None => None
  end.

(** The argument of [sendViewerCount] for one mutation, when it is called.
    [parseInt] is exact for a number below 2^53, so for up to fifteen
    digits. *)
Definition viewersOf (elem : ViewCount) : option Z :=
  if truthy_opt (ariaLabel elem) then
    let numericOnly := List.filter isDigit (default [] (ariaLabel elem)) in
    if truthy numericOnly then
      match parseInt10 (Some numericOnly) with
      | Some viewers => Some viewers
      | None => viewersOfText elem
      end
    else viewersOfText elem
  else viewersOfText elem.

Definition observed (type : jsstring) : bool :=
  bool_decide (type = u16 "childList") || bool_decide (type = u16 "characterData")
  || bool_decide (type = u16 "attributes").

(** [onViewCountChange]: the counts sent, one mutation after the other.
    [elem] is what [document.querySelector('#view-count')] gives. *)
Definition onViewCountChange (elem : option ViewCount) (mutationTypes : list jsstring)
    : list Z :=
  flat_map
    (fun type =>
       if observed type then
         match elem with
         | Some viewCountElem => option_list (viewersOf viewCountElem)
         | None => []
         end
       else [])
    mutationTypes.

End YouTubeFeed.

(* ===================================================================== *)
(** ** Facebook: the channel, the responses and the binary frames *)
(* ===================================================================== *)

Module FacebookTraffic.
Import Core Facebook.

(** *** The channel of the constructor *)

(** [Array.prototype.indexOf] on an array of strings. *)
Fixpoint arrayIndexOf (parts : list jsstring) (x : jsstring) : option nat :=
  match parts with
  | [] => None
  | p :: rest => if bool_decide (p = x) then Some 0%nat else S <$> arrayIndexOf rest x
  end.

(** The channel that the constructor passes on, from the path of the
    location and from the query parameter [v] ([None] when it is absent). *)
Definition channelOf (pathname : jsstring) (v : option jsstring) : jsstring :=
  let urlParts := List.filter truthy (split (ch "/") pathname) in
  let channel := default [] (or_else (head urlParts) (Some (u16 "facebook"))) in
  let channel :=
    match arrayIndexOf urlParts (u16 "videos") with
    | Some videoIndex =>
        if truthy_opt (urlParts !! (videoIndex + 1)%nat)
        then default [] (urlParts !! (videoIndex + 1)%nat)
        else channel
    | None => channel
    end in
  if truthy_opt v then default [] v else channel.

(** A segment of a path: not empty, and without a slash. *)
Definition segment (p : jsstring) : Prop := p <> [] /\ (ch "/" ∉ p).

(** *** The badges of a comment *)

(** A badge of the first list counts when it is earned or enabled. *)
Definition counts (b : IdentityBadge) : bool :=
  negb (negb (default false (is_earned b)) && negb (default false (is_enabled b))).

Definition typed (names : list jsstring) (b : IdentityBadge) : bool :=
  existsb (fun n => bool_decide (identity_badge_type b = Some n)) names.

(** The badges of a list over which a loop runs to its end. *)
Definition badgesOf (badges : badgeList) : list IdentityBadge :=
  match badges with
  | BadgeArray items => omap (fun element => element) items
  | _ => []
  end.

Definition shownBadges (c : Comment) : list IdentityBadge :=
  List.filter counts (badgesOf (discoverable_identity_badges_web c)).

Definition earnedBadges (c : Comment) : list IdentityBadge :=
  badgesOf (identity_badges_web c).

(** A list over which the loop raises: it cannot be iterated, or it holds
    an element that is [null]. *)
Definition unloopable (badges : badgeList) : Prop :=
  badges = NotIterable \/ exists items, badges = BadgeArray items /\ None ∈ items.

(** A comment with three badges, for the examples: a moderator badge that
    is neither earned nor enabled, an earned partner badge, and a fan badge
    in the second list. *)
Definition facebook_seed : Seed :=
  {| this_namespace := namespace; this_platform := u16 "Facebook";
     this_channel := Some (u16 "1234567890") |}.

Definition badged_comment : Comment :=
  {| comment_id := Some (u16 "Y29tbWVudDox");
     preferred_body := None;
     body := Some {| body_text := Some (u16 "hello") |};
     author := None; created_time := None;
     discoverable_identity_badges_web :=
       BadgeArray
         [ Some {| is_earned := Some false; is_enabled := None;
                   identity_badge_type := Some (u16 "moderator") |};
           Some {| is_earned := Some true; is_enabled := None;
                   identity_badge_type := Some (u16 "gaming_partner") |} ];
     identity_badges_web :=
       BadgeArray
         [ Some {| is_earned := None; is_enabled := None;
                   identity_badge_type := Some (u16 "top_fan") |} ] |}.

(** The same comment with a second list that ends in a [null]. *)
Definition torn_comment : Comment :=
  {| comment_id := comment_id badged_comment;
     preferred_body := preferred_body badged_comment;
     body := body badged_comment;
     author := author badged_comment; created_time := created_time badged_comment;
     discoverable_identity_badges_web :=
       discoverable_identity_badges_web badged_comment;
     identity_badges_web :=
       BadgeArray
         [ Some {| is_earned := None; is_enabled := None;
                   identity_badge_type := Some (u16 "top_fan") |}; None ] |}.

(** *** handleGraphQLResponse *)

Record CommentCreate : Type := mkCommentCreate { comment : option Comment }.
Record Data : Type := mkData { comment_create : option CommentCreate }.
Record Response : Type := mkResponse { data : option Data }.

(** The comment that a response reports as created, and the text of a
    comment: the preferred body, or else the body. *)
Definition createdComment (json : option Response) : option Comment :=
  json ?> data ?> comment_create ?> comment.

Definition textOf (c : Comment) : option jsstring :=
  or_else (preferred_body c ?> body_text) (body c ?> body_text).

(** What the handler returns, and the batches it hands to
    [sendChatMessages]; an exception of [parseComment] is not caught. *)
Definition handleGraphQLResponse (this : Seed) (json : option Response)
    : result (bool * list (list ChatMessage)) :=
  match json ?> data with
  | None => Ok (false, [])
  | Some d =>
    match comment_create d ?> comment with
    | Some c =>
      bind (parseComment this (Some c)) (fun parsed =>
      match parsed with
      | Some m => if truthy (message m) then Ok (true, [[m]]) else Ok (false, [])
      | None => Ok (false, [])
      end)
    | None => Ok (false, [])
    end
  end.

(** *** The dump of a binary frame *)

Definition digit16 (d : N) : N := if (d <? 10)%N then (48 + d)%N else (87 + d)%N.

(** [b.toString(16)] for an integer that is not negative. *)
Fixpoint toString16_from (fuel : nat) (n : N) (acc : jsstring) : jsstring :=
  match fuel with
  | O => acc
  | S fuel' =>
    let acc' := digit16 (n mod 16) :: acc in
    if (n / 16 =? 0)%N then acc' else toString16_from fuel' (n / 16) acc'
  end.

Definition toString16 (n : N) : jsstring :=
  toString16_from (S (N.to_nat (N.log2 n))) n [].

(** [s.padStart(len, '0')]. *)
Definition padStart (len : nat) (s : jsstring) : jsstring :=
  repeat (ch "0") (len - length s) ++ s.

Definition hexOf (bytes : list N) : jsstring :=
  concat (map (fun b => padStart 2 (toString16 b)) bytes).

(** The readable text: a printable byte as its character, a point for any
    other. *)
Definition readable (bytes : list N) : jsstring :=
  fold_left (fun text byte =>
               if ((32 <=? byte) && (byte <? 127))%N then text ++ [byte]
               else text ++ [ch "."])
            bytes [].

(** The object that is recorded for a frame of bytes (it is written out by
    [JSON.stringify], which is not modelled). *)
Record Dump : Type := mkDump { hex : jsstring; text : jsstring; size : nat }.

Definition dumpOf (bytes : list N) : Dump :=
  {| hex := slice (hexOf bytes) 0 2000;
     text := slice (readable bytes) 0 1000;
     size := length bytes |}.

(** Reading hexadecimal back: two digits to a byte. *)
Definition value16 (c : N) : option N :=
  if ((48 <=? c) && (c <=? 57))%N then Some (c - 48)%N
  else if ((97 <=? c) && (c <=? 102))%N then Some (c - 87)%N
  else None.

Fixpoint fromHex (s : jsstring) : option (list N) :=
  match s with
  | [] => Some []
  | [_] => None
  | hi :: lo :: rest =>
      match value16 hi, value16 lo, fromHex rest with
      | Some h, Some l, Some bs => Some ((16 * h + l)%N :: bs)
      | _, _, _ => None
      end
  end.

Definition isByte (b : N) : Prop := (b < 256)%N.

End FacebookTraffic.

(* ===================================================================== *)
(** * Properties *)
(* ===================================================================== *)

Module JSFacts.

Lemma startsWith_app (s p : jsstring) :
  startsWith s p = true <-> exists r, s = p ++ r.
Proof.
  revert s. induction p as [|c p IH]; intros s; simpl.
  - split; [intros _; exists s; reflexivity | reflexivity].
  - destruct s as [|d s].
    + split; [discriminate | intros [r Hr]; discriminate].
    + rewrite andb_true_iff, N.eqb_eq, IH. split.
      * intros [-> [r ->]]. exists r. reflexivity.
      * intros [r Hr]. injection Hr as -> ->. split; [reflexivity | exists r; reflexivity].
Qed.

Lemma startsWith_cons (c d : N) (s p : jsstring) :
  startsWith (d :: s) (c :: p) = (c =? d)%N && startsWith s p.
Proof. reflexivity. Qed.

Lemma indexOf_cons (c : N) (s p : jsstring) :
  indexOf (c :: s) p
  = if startsWith (c :: s) p then Some 0%nat else S <$> indexOf s p.
Proof. reflexivity. Qed.

Lemma startsWith_nil (s : jsstring) : startsWith s [] = true.
Proof. destruct s; reflexivity. Qed.

(** No match of a pattern that begins with [c] starts inside text free of [c]. *)
Lemma indexOf_skip (c : N) (p t s : jsstring) :
  c ∉ t ->
  indexOf (t ++ s) (c :: p) = (fun n => length t + n)%nat <$> indexOf s (c :: p).
Proof.
  induction t as [|d t IH]; intros Hc.
  - simpl app. destruct (indexOf s (c :: p)); reflexivity.
  - apply not_elem_of_cons in Hc as [Hne Hc].
    change ((d :: t) ++ s) with (d :: (t ++ s)).
    cbn [indexOf startsWith].
    destruct (N.eqb_spec c d) as [->|_]; [congruence|].
    cbn [andb]. rewrite (IH Hc).
    destruct (indexOf s (c :: p)); reflexivity.
Qed.

Lemma indexOf_here (p s : jsstring) : indexOf (p ++ s) p = Some 0%nat.
Proof.
  assert (H : startsWith (p ++ s) p = true) by (apply startsWith_app; eauto).
  destruct (p ++ s); simpl; rewrite H; reflexivity.
Qed.

Lemma indexOf_absent (c : N) (p t : jsstring) :
  c ∉ t -> indexOf t (c :: p) = None.
Proof.
  induction t as [|d t IH]; intros Hc; [reflexivity|].
  apply not_elem_of_cons in Hc as [Hne Hc].
  cbn [indexOf startsWith].
  destruct (N.eqb_spec c d) as [->|_]; [congruence|].
  cbn [andb]. rewrite (IH Hc). reflexivity.
Qed.

Lemma split_free (c : N) (t : jsstring) : c ∉ t -> split c t = [t].
Proof.
  induction t as [|d t IH]; intros Hc; [reflexivity|].
  apply not_elem_of_cons in Hc as [Hne Hc].
  cbn [split]. destruct (N.eqb_spec d c) as [->|_]; [congruence|].
  rewrite (IH Hc). reflexivity.
Qed.

Lemma split_app (c : N) (t s : jsstring) :
  c ∉ t -> split c (t ++ c :: s) = t :: split c s.
Proof.
  induction t as [|d t IH]; intros Hc.
  - cbn [app split]. rewrite N.eqb_refl. reflexivity.
  - apply not_elem_of_cons in Hc as [Hne Hc].
    change ((d :: t) ++ c :: s) with (d :: (t ++ c :: s)).
    cbn [split]. destruct (N.eqb_spec d c) as [->|_]; [congruence|].
    rewrite (IH Hc). reflexivity.
Qed.

Lemma split_not_nil (c : N) (s : jsstring) : split c s <> [].
Proof.
  destruct s as [|d s]; [discriminate|].
  cbn [split]. destruct (d =? c)%N; [discriminate|].
  destruct (split c s); discriminate.
Qed.

Lemma indexOf_single (c : N) (s : jsstring) (i : nat) :
  indexOf s [c] = Some i <->
  exists a b, s = a ++ c :: b /\ (c ∉ a) /\ i = length a.
Proof.
  split.
  - revert i. induction s as [|d s IH]; intros i; [discriminate|].
    rewrite indexOf_cons, startsWith_cons, startsWith_nil, andb_true_r.
    destruct (N.eqb_spec c d) as [<-|Hne].
    + intros [= <-]. exists [], s. repeat split. apply not_elem_of_nil.
    + destruct (indexOf s [c]) as [j|]; [|discriminate].
      intros [= <-]. destruct (IH j eq_refl) as (a & b & -> & Ha & ->).
      exists (d :: a), b. repeat split.
      apply not_elem_of_cons. split; [exact Hne | exact Ha].
  - intros (a & b & -> & Ha & ->).
    rewrite indexOf_skip by exact Ha.
    change (c :: b) with ([c] ++ b).
    rewrite (indexOf_here [c] b). simpl. f_equal. lia.
Qed.

Lemma indexOf_none_drop (s p : jsstring) (n : nat) :
  indexOf s p = None -> indexOf (drop n s) p = None.
Proof.
  revert n. induction s as [|d s IH]; intros n H.
  - rewrite drop_nil. exact H.
  - destruct n as [|n]; [exact H|].
    rewrite indexOf_cons in H. simpl drop. apply IH.
    destruct (startsWith (d :: s) p); [discriminate|].
    destruct (indexOf s p); [discriminate | reflexivity].
Qed.

(** The first separator of a text is where it is: two ways of cutting a text
    at a separator agree, unless the part after the first cut holds one more
    separator. *)
Lemma first_cut_unique (c : N) (a b a' b' : jsstring) :
  c ∉ a -> a ++ c :: b = a' ++ c :: b' -> a' = a \/ c ∈ b.
Proof.
  revert a'. induction a as [|x a IH]; intros a' Ha Heq.
  - destruct a' as [|y a']; [left; reflexivity|].
    right. simpl in Heq. injection Heq as _ ->.
    apply elem_of_app. right. apply elem_of_cons. left. reflexivity.
  - apply not_elem_of_cons in Ha as [Hne Ha].
    destruct a' as [|y a'].
    + simpl in Heq. injection Heq as <- _. congruence.
    + simpl in Heq. injection Heq as <- Heq.
      destruct (IH a' Ha Heq) as [->|Hin]; [left; reflexivity | right; exact Hin].
Qed.

(** The pieces of a split hold no separator, and a split never contains it. *)
Lemma split_pieces (c : N) (s : jsstring) : Forall (fun w => c ∉ w) (split c s).
Proof.
  induction s as [|d s IH]; simpl.
  - constructor; [apply not_elem_of_nil | constructor].
  - destruct (N.eqb_spec d c) as [->|Hne].
    + constructor; [apply not_elem_of_nil | exact IH].
    + destruct (split c s) as [|w ws]; inversion IH; subst.
      * constructor; [|constructor].
        apply not_elem_of_cons. split; [congruence | apply not_elem_of_nil].
      * constructor; [|assumption].
        apply not_elem_of_cons. split; [congruence | assumption].
Qed.

End JSFacts.

Module TwitchFacts.
Import Twitch JSFacts.

(** The literals of the tokenizer, as code units. *)
Lemma lit_space : u16 " " = [32%N]. Proof. reflexivity. Qed.
Lemma lit_marker : u16 " :" = [32%N; 58%N]. Proof. reflexivity. Qed.
Lemma lit_at : u16 "@" = [64%N]. Proof. reflexivity. Qed.
Lemma lit_colon : u16 ":" = [58%N]. Proof. reflexivity. Qed.
Lemma ch_space : ch " " = 32%N. Proof. reflexivity. Qed.
Lemma ch_colon : ch ":" = 58%N. Proof. reflexivity. Qed.
Lemma ch_at : ch "@" = 64%N. Proof. reflexivity. Qed.
Lemma lit_slash : u16 "/" = [47%N]. Proof. reflexivity. Qed.
Lemma ch_slash : ch "/" = 47%N. Proof. reflexivity. Qed.
Lemma ch_comma : ch "," = 44%N. Proof. reflexivity. Qed.

Lemma join_spaced (w : jsstring) (ws : list jsstring) :
  join [32%N] (w :: ws) = w ++ spaced ws.
Proof.
  revert w. induction ws as [|v ws IH]; intros w.
  - simpl. rewrite app_nil_r. reflexivity.
  - change (join [32%N] (w :: v :: ws)) with (w ++ [32%N] ++ join [32%N] (v :: ws)).
    rewrite IH. reflexivity.
Qed.

Lemma marker_after_words (ws : list jsstring) (rest : jsstring) :
  Forall word ws ->
  indexOf (spaced ws ++ rest) [32%N; 58%N]
  = (fun n => length (spaced ws) + n)%nat <$> indexOf rest [32%N; 58%N].
Proof.
  induction 1 as [|w ws [Hne [Hsp Hcol]] _ IH].
  - simpl. destruct (indexOf rest _); reflexivity.
  - change (spaced (w :: ws)) with (32%N :: w ++ spaced ws).
    rewrite ch_space in Hsp. rewrite ch_colon in Hcol.
    destruct w as [|c w]; [congruence|].
    assert (Hc : c <> 58%N) by (intros ->; apply Hcol; reflexivity).
    rewrite <- !app_comm_cons, <- app_assoc.
    rewrite indexOf_cons, !startsWith_cons, N.eqb_refl.
    destruct (N.eqb_spec 58 c) as [<-|_]; [congruence|]. cbn [andb].
    change (c :: w ++ spaced ws ++ rest) with ((c :: w) ++ (spaced ws ++ rest)).
    rewrite indexOf_skip by exact Hsp.
    rewrite IH. destruct (indexOf rest _); simpl; [|reflexivity].
    f_equal. rewrite !length_app. simpl. lia.
Qed.

Lemma split_words (w : jsstring) (ws : list jsstring) :
  32%N ∉ w -> Forall word ws ->
  split 32%N (w ++ spaced ws) = w :: ws.
Proof.
  intros Hw Hws. revert w Hw.
  induction Hws as [|v ws [Hne [Hsp Hcol]] _ IH]; intros w Hw.
  - simpl. rewrite app_nil_r. apply split_free, Hw.
  - change (spaced (v :: ws)) with (32%N :: (v ++ spaced ws)).
    rewrite split_app by exact Hw. f_equal. apply IH. exact Hsp.
Qed.

Lemma filter_words (ws : list jsstring) :
  Forall word ws -> List.filter truthy ws = ws.
Proof.
  induction 1 as [|w ws [Hne _] _ IH]; [reflexivity|].
  simpl. destruct w; [congruence|]. simpl. rewrite IH. reflexivity.
Qed.

(** What [parseCommand] gives for any rest of a line. *)
Lemma parseCommand_frame (message : jsstring) (tgs : Tags) (pfx : option jsstring)
    (remaining : jsstring) :
  let frame := parseCommand message tgs pfx remaining in
  raw frame = message /\ tags frame = tgs /\ meta frame = Some tgs
  /\ prefix frame = pfx
  /\ Forall (fun p => p <> [] /\ (ch " " ∉ p)) (params frame)
  /\ (forall c, command frame = Some c -> c <> [] /\ (ch " " ∉ c))
  /\ (command frame = None -> params frame = [])
  /\ (indexOf remaining (u16 " :") = None -> trailing frame = None).
Proof.
  unfold parseCommand.
  set (cut := match indexOf remaining (u16 " :") with Some _ => _ | None => _ end).
  assert (Htr : indexOf remaining (u16 " :") = None -> fst cut = None).
  { intros H. subst cut. rewrite H. reflexivity. }
  destruct cut as [trl commandAndParams]. simpl in Htr.
  assert (Hparts : Forall (fun p => p <> [] /\ (ch " " ∉ p))
                          (List.filter truthy (split (ch " ") commandAndParams))).
  { apply Forall_forall. intros p Hp. apply filter_In in Hp as [Hin Hp].
    split; [destruct p; [discriminate | discriminate]|].
    pose proof (split_pieces (ch " ") commandAndParams) as Hall.
    rewrite Forall_forall in Hall. apply Hall, Hin. }
  destruct (List.filter truthy (split (ch " ") commandAndParams)) as [|p0 ps];
    cbn [raw tags meta prefix params command trailing].
  - repeat split; try assumption; try discriminate.
  - inversion Hparts as [|? ? Hp0 Hps]; subst.
    repeat split; try assumption; try discriminate.
    all: match goal with H : Some _ = Some _ |- _ => injection H as <- end.
    all: apply Hp0.
Qed.

End TwitchFacts.

Module TwitchSpec.
Import Core Twitch JSFacts TwitchFacts.

(** C5. For a well-formed frame, serialising the verb, the parameters and the
    trailing text and tokenizing the line again gives back the same verb, the
    same parameters in the same order, and the same trailing text. *)
Theorem tokenize_serialize_roundtrip
    (cmd : jsstring) (ps : list jsstring) (trl : option jsstring) :
  well_formed cmd ps ->
  let frame := parseIrcMessageToJson (serialize cmd ps trl) in
  command frame = Some cmd /\ params frame = ps /\ trailing frame = trl.
Proof.
  intros [[Hne [Hsp Hcol]] [Hat Hps]].
  rewrite ch_space in Hsp. rewrite ch_colon in Hcol. rewrite ch_at in Hat.
  unfold serialize. rewrite lit_space, lit_marker, join_spaced.
  destruct cmd as [|c cmd]; [congruence|].
  assert (Hc1 : c <> 58%N) by (intros ->; apply Hcol; reflexivity).
  assert (Hc2 : c <> 64%N) by (intros ->; apply Hat; reflexivity).
  set (line := ((c :: cmd) ++ spaced ps) ++ _).
  assert (Hhead : exists r, line = c :: r).
  { subst line. rewrite <- !app_comm_cons. eauto. }
  destruct Hhead as [r Hr].
  cbv zeta. unfold parseIrcMessageToJson, parsePrefix.
  rewrite lit_at, lit_colon, Hr. cbn [startsWith].
  destruct (N.eqb_spec 64 c) as [<-|_]; [congruence|].
  destruct (N.eqb_spec 58 c) as [<-|_]; [congruence|].
  cbn [andb]. rewrite <- Hr. clear r Hr.
  unfold parseCommand. rewrite lit_marker, ch_space.
  assert (Hparts : List.filter truthy (split 32%N ((c :: cmd) ++ spaced ps)) = (c :: cmd) :: ps).
  { rewrite split_words by assumption.
    simpl. rewrite filter_words by assumption. reflexivity. }
  destruct trl as [t|]; subst line.
  - rewrite <- app_assoc.
    rewrite indexOf_skip by exact Hsp.
    rewrite marker_after_words by exact Hps.
    rewrite (indexOf_here [32%N; 58%N] t). cbn [fmap option_fmap option_map].
    unfold slice, sliceFrom. rewrite Nat.sub_0_r, drop_0.
    replace (length (c :: cmd) + (length (spaced ps) + 0))%nat
      with (length ((c :: cmd) ++ spaced ps)) by (rewrite length_app; lia).
    rewrite app_assoc, take_app_length, Hparts. cbn [command params trailing].
    repeat split.
    rewrite <- app_assoc.
    replace (length ((c :: cmd) ++ spaced ps) + 2)%nat
      with (length (((c :: cmd) ++ spaced ps) ++ [32%N; 58%N]))
      by (rewrite (length_app _ [32%N; 58%N]); reflexivity).
    replace ((c :: cmd) ++ spaced ps ++ [32%N; 58%N] ++ t)
      with ((((c :: cmd) ++ spaced ps) ++ [32%N; 58%N]) ++ t)
      by (rewrite <- !app_assoc; reflexivity).
    rewrite drop_app_length. reflexivity.
  - rewrite app_nil_r.
    rewrite indexOf_skip by exact Hsp.
    assert (Hnone : indexOf (spaced ps) [32%N; 58%N] = None).
    { rewrite <- (app_nil_r (spaced ps)), marker_after_words by exact Hps.
      reflexivity. }
    rewrite Hnone. cbn [fmap option_fmap option_map].
    rewrite Hparts. cbn [command params trailing]. repeat split.
Qed.

Lemma tokenize_serialize_roundtrip_witness :
  let frame := parseIrcMessageToJson
                 (serialize (u16 "PRIVMSG") [u16 "#streamerchannel"]
                            (Some (u16 "Hello chat!"))) in
  command frame = Some (u16 "PRIVMSG")
  /\ params frame = [u16 "#streamerchannel"]
  /\ trailing frame = Some (u16 "Hello chat!").
Proof.
  apply (tokenize_serialize_roundtrip (u16 "PRIVMSG") [u16 "#streamerchannel"]
           (Some (u16 "Hello chat!"))).
  unfold well_formed, word.
  repeat split; try (vm_compute; discriminate).
  - vm_compute. intros H. repeat (apply elem_of_cons in H as [H|H]; [discriminate|]).
    apply elem_of_nil in H. exact H.
  - constructor; [|constructor]. repeat split; try (vm_compute; discriminate).
    vm_compute. intros H. repeat (apply elem_of_cons in H as [H|H]; [discriminate|]).
    apply elem_of_nil in H. exact H.
Defined.

(** C1, as the code has it. A chat-post frame with the tags of the scenario
    and the trailing text "Hello chat!" gives a message and no warning; the
    message carries the native id "abc123" itself as its id, the user name
    "TestUser", the body "Hello chat!", and both the moderator and the
    subscriber flag. *)
Theorem chat_post_scenario (this : Seed) (now : Z) (frame : ParsedTextFrame) :
  tags frame = parseIrcTags scenario_tags ->
  trailing frame = Some (u16 "Hello chat!") ->
  exists m,
    prepareChatMessage this now frame = (Some m, [])
    /\ id m = u16 "abc123"
    /\ username m = Some (u16 "TestUser")
    /\ message m = u16 "Hello chat!"
    /\ is_mod m = true /\ is_sub m = true.
Proof.
  intros Htags Htrail.
  unfold prepareChatMessage. rewrite Htags, Htrail.
  assert (Hid : parseIrcTags scenario_tags !! u16 "id" = Some (u16 "abc123"))
    by (vm_compute; reflexivity).
  assert (Hname : parseIrcTags scenario_tags !! u16 "display-name"
                  = Some (u16 "TestUser")) by (vm_compute; reflexivity).
  assert (Hmod : parseIrcTags scenario_tags !! u16 "mod" = Some (u16 "1"))
    by (vm_compute; reflexivity).
  assert (Hsub : parseIrcTags scenario_tags !! u16 "subscriber" = Some (u16 "1"))
    by (vm_compute; reflexivity).
  rewrite Hid, Hname, Hmod, Hsub.
  eexists. split; [reflexivity|].
  cbn [id username message is_mod is_sub new_ChatMessage].
  repeat split.
Qed.

Lemma chat_post_scenario_witness :
  exists m,
    prepareChatMessage scenario_seed 0 (parseIrcMessageToJson scenario_line)
    = (Some m, [])
    /\ id m = u16 "abc123"
    /\ username m = Some (u16 "TestUser")
    /\ message m = u16 "Hello chat!"
    /\ is_mod m = true /\ is_sub m = true.
Proof.
  apply (chat_post_scenario scenario_seed 0 (parseIrcMessageToJson scenario_line)).
  - vm_compute. reflexivity.
  - vm_compute. reflexivity.
Defined.

(** C1, as the claim has it, fails: on the line of the scenario the id of the
    message is "abc123", and the name-based identity of "abc123" in the
    namespace of the adapter is another string. *)
Lemma chat_post_id_is_not_the_identity :
  exists m,
    fst (prepareChatMessage scenario_seed 0 (parseIrcMessageToJson scenario_line))
    = Some m
    /\ id m = u16 "abc123"
    /\ uuidv5 (u16 "abc123") namespace = u16 "8d4bb66d-afa4-546c-80f9-ddda0601a214"
    /\ id m <> uuidv5 (u16 "abc123") namespace.
Proof.
  eexists. split; [vm_compute; reflexivity|].
  split; [reflexivity|].
  assert (H : uuidv5 (u16 "abc123") namespace
              = u16 "8d4bb66d-afa4-546c-80f9-ddda0601a214") by (vm_compute; reflexivity).
  split; [exact H|]. rewrite H. vm_compute. discriminate.
Qed.

(** C2, on the code: a tag value that is an escaped backslash followed by
    the letter s comes out as a backslash followed by a space, in the chain
    of replacements and in the frame that the tokenizer returns. *)
Theorem unescape_escaped_backslash_s :
  unescape [92%N; 92%N; ch "s"] = [92%N; 32%N]
  /\ tags (parseIrcMessageToJson ([ch "@"; ch "k"; ch "="; 92%N; 92%N; ch "s"]
                                  ++ u16 " PRIVMSG #c :x"))
      !! u16 "k" = Some [92%N; 32%N].
Proof.
  split.
  - unfold unescape. vm_compute. reflexivity.
  - vm_compute. reflexivity.
Qed.

(** C4. The tokenizer returns a frame for every string, empty, unterminated,
    of any length and of any code units: the frame keeps the raw line; its
    verb and parameters are non-empty and free of spaces; a line without a
    tag block has no tags, one without a prefix block has no prefix, one
    without the marker has no trailing text; the empty line and a line that
    is one unterminated tag or prefix block give the frame with nothing but
    the raw line. *)
Theorem tokenizer_total (message : jsstring) :
  exists frame, parseIrcMessageToJson message = frame
  /\ raw frame = message
  /\ Forall (fun p => p <> [] /\ (ch " " ∉ p)) (params frame)
  /\ (forall c, command frame = Some c -> c <> [] /\ (ch " " ∉ c))
  /\ (command frame = None -> params frame = [])
  /\ (message = [] -> frame = blank [] ∅ (Some ∅))
  /\ (startsWith message (u16 "@") = true -> indexOf message (u16 " ") = None ->
      frame = blank message ∅ None)
  /\ (startsWith message (u16 "@") = false ->
      startsWith message (u16 ":") = true -> indexOf message (u16 " ") = None ->
      frame = blank message ∅ (Some ∅))
  /\ (startsWith message (u16 "@") = false -> tags frame = ∅)
  /\ (startsWith message (u16 "@") = false ->
      startsWith message (u16 ":") = false -> prefix frame = None)
  /\ (indexOf message (u16 " :") = None -> trailing frame = None).
Proof.
  eexists. split; [reflexivity|].
  unfold parseIrcMessageToJson.
  assert (Hprefix : forall tgs remaining,
    let frame := parsePrefix message tgs remaining in
    raw frame = message /\ tags frame = tgs
    /\ Forall (fun p => p <> [] /\ (ch " " ∉ p)) (params frame)
    /\ (forall c, command frame = Some c -> c <> [] /\ (ch " " ∉ c))
    /\ (command frame = None -> params frame = [])
    /\ (startsWith remaining (u16 ":") = true -> indexOf remaining (u16 " ") = None ->
        frame = blank message tgs (Some tgs))
    /\ (startsWith remaining (u16 ":") = false -> prefix frame = None)
    /\ (indexOf remaining (u16 " :") = None -> trailing frame = None)).
  { intros tgs remaining. unfold parsePrefix.
    destruct (startsWith remaining (u16 ":")) eqn:Hcolon.
    - destruct (indexOf remaining (u16 " ")) as [spaceIdx|] eqn:Hsp.
      + pose proof (parseCommand_frame message tgs
                      (Some (slice remaining 1 spaceIdx))
                      (sliceFrom remaining (spaceIdx + 1))) as Hc.
        cbv zeta in *. destruct Hc as (H1 & H2 & H3 & H4 & H5 & H6 & H7 & H8).
        repeat split; try assumption; try discriminate;
          try (eapply H6; eassumption).
        intros Hno. apply H8. unfold sliceFrom. apply indexOf_none_drop, Hno.
      + cbv zeta. cbn [raw tags params command trailing prefix].
        repeat split; try discriminate; try constructor.
    - pose proof (parseCommand_frame message tgs None remaining) as Hc.
      cbv zeta in *. destruct Hc as (H1 & H2 & H3 & H4 & H5 & H6 & H7 & H8).
      repeat split; try assumption; try discriminate;
        try (eapply H6; eassumption).
      intros _. exact H4. }
  destruct (startsWith message (u16 "@")) eqn:Hat.
  - destruct (indexOf message (u16 " ")) as [spaceIdx|] eqn:Hsp.
    + specialize (Hprefix (parseIrcTags (slice message 1 spaceIdx))
                          (sliceFrom message (spaceIdx + 1))).
      cbv zeta in Hprefix.
      destruct Hprefix as (H1 & H2 & H3 & H4 & H5 & H6 & H7 & H8).
      repeat split; try assumption; try discriminate;
        try (eapply H4; eassumption).
      * intros ->. discriminate.
      * intros Hno. apply H8. unfold sliceFrom. apply indexOf_none_drop, Hno.
    + cbn [raw tags params command trailing prefix].
      repeat split; try discriminate; try constructor.
      intros ->. discriminate.
  - specialize (Hprefix ∅ message). cbv zeta in Hprefix.
    destruct Hprefix as (H1 & H2 & H3 & H4 & H5 & H6 & H7 & H8).
    repeat split; try assumption; try discriminate;
      try (eapply H4; eassumption).
    + intros ->. reflexivity.
    + intros _. exact H6.
    + intros _. exact H2.
    + intros _. exact H7.
Qed.

(** C6. [hasBadge] is false on a null and on an empty badge list whatever the
    token; it finds the moderator badge in "moderator/1,subscriber/24" and not
    in "subscriber/12"; and on a list of token/version entries, or for a token
    that holds no slash, it is true exactly when the token of some entry, the
    text before its slash, is the queried token. *)
Theorem hasBadge_exact_token :
  (forall k, hasBadge None k = false)
  /\ (forall k, hasBadge (Some (u16 "")) k = false)
  /\ hasBadge (Some (u16 "moderator/1,subscriber/24")) (u16 "moderator") = true
  /\ hasBadge (Some (u16 "subscriber/12")) (u16 "moderator") = false
  /\ (forall badges type,
        Forall entry_form (split (ch ",") badges) \/ (ch "/" ∉ type) ->
        (hasBadge (Some badges) type = true
         <-> exists e, e ∈ split (ch ",") badges /\ tokenOf e = Some type)).
Proof.
  split; [reflexivity|]. split; [reflexivity|].
  split; [vm_compute; reflexivity|]. split; [vm_compute; reflexivity|].
  intros badges type Hform.
  unfold hasBadge, tokenOf. rewrite lit_slash, ch_comma.
  rewrite ch_slash, ch_comma in Hform.
  split.
  - destruct badges as [|b0 bs]; [discriminate|]. cbn [truthy negb].
    rewrite existsb_exists. intros (e & Hin & Hst).
    apply startsWith_app in Hst as [ver He].
    rewrite <- app_assoc in He. simpl in He.
    exists e. split; [apply list_elem_of_In; exact Hin|].
    assert (Hfree : 47%N ∉ type).
    { destruct Hform as [Hall|Hfree]; [|exact Hfree].
      rewrite Forall_forall in Hall.
      destruct (Hall e Hin) as (tok & v & He' & Htok & Hv).
      rewrite ch_slash in He', Htok, Hv.
      rewrite He' in He.
      destruct (first_cut_unique _ _ _ _ _ Htok He) as [->|Hbad];
        [exact Htok | contradiction]. }
    assert (Hidx : indexOf e [47%N] = Some (length type)).
    { apply indexOf_single. exists type, ver. auto. }
    rewrite Hidx. simpl. unfold slice. rewrite Nat.sub_0_r, drop_0, He.
    rewrite take_app_length. reflexivity.
  - intros (e & Hin & Htok).
    destruct (indexOf e [47%N]) as [i|] eqn:Hidx; [|discriminate].
    apply indexOf_single in Hidx as (a & b & -> & Ha & ->).
    simpl in Htok. unfold slice in Htok.
    rewrite Nat.sub_0_r, drop_0, take_app_length in Htok.
    injection Htok as <-.
    destruct badges as [|b0 bs].
    + simpl in Hin. apply list_elem_of_singleton in Hin.
      destruct a; discriminate.
    + cbn [truthy negb]. apply existsb_exists.
      exists (a ++ 47%N :: b). split; [apply list_elem_of_In; exact Hin|].
      apply startsWith_app. exists b. rewrite <- app_assoc. reflexivity.
Qed.

Lemma hasBadge_exact_token_witness :
  hasBadge (Some (u16 "moderator/1,subscriber/24")) (u16 "subscriber") = true
  <-> exists e, e ∈ split (ch ",") (u16 "moderator/1,subscriber/24")
                /\ tokenOf e = Some (u16 "subscriber").
Proof.
  apply (proj2 (proj2 (proj2 (proj2 hasBadge_exact_token)))).
  right. vm_compute.
  intros H. repeat (apply elem_of_cons in H as [H|H]; [discriminate|]).
  apply elem_of_nil in H. exact H.
Defined.

End TwitchSpec.

Module RegexFacts.
Import Regex.




Lemma strip_lit_suffix (ic : bool) (p s s' : jsstring) :
  strip_lit ic p s = Some s' -> exists w, s = w ++ s' /\ length w = length p.
Proof.
  revert s. induction p as [|c p IH]; intros s; simpl.
  - intros [= ->]. exists []. auto.
  - destruct s as [|d s]; [discriminate|].
    destruct (char_eq ic c d); [|discriminate].
    intros H. apply IH in H as (w & -> & Hl). exists (d :: w). simpl. auto.
Qed.

(** A pattern only ever consumes from the front. *)
Lemma matches_suffix (ic : bool) (input : jsstring) (r : re) :
  forall s caps s' caps',
    matches ic input r s caps s' caps' -> exists w, s = w ++ s'.
Proof.
  induction r as [| | |p|cls|cls|cls lo hi|r1 IH1 r2 IH2|r1 IH1 r2 IH2|r1 IH1|i r1 IH1];
    intros s caps s' caps'; simpl.
  - intros [].
  - intros [-> _]. exists []. reflexivity.
  - intros (-> & -> & _). exists []. reflexivity.
  - intros [H _]. apply strip_lit_suffix in H as (w & -> & _). eauto.
  - intros [H _]. exact H.
  - intros [(c & w & ->) _]. exists (c :: w). reflexivity.
  - intros [H _]. exact H.
  - intros (s1 & c1 & H1 & H2).
    apply IH1 in H1 as (w1 & ->). apply IH2 in H2 as (w2 & ->).
    exists (w1 ++ w2). rewrite app_assoc. reflexivity.
  - intros [H|H]; [eapply IH1 | eapply IH2]; exact H.
  - intros [H|[-> _]]; [eapply IH1; exact H | exists []; reflexivity].
  - intros (c1 & H & _). eapply IH1; exact H.
Qed.

(** The greedy repetition stops where the class stops, when what follows
    lets it. *)
Lemma star_greedy {A : Type} (cls : N -> bool) (w rest : jsstring)
    (k : jsstring -> option A) (r : A) :
  Forall (fun c => cls c = true) w ->
  match rest with c :: _ => cls c = false | [] => True end ->
  k rest = Some r ->
  star cls (w ++ rest) k = Some r.
Proof.
  intros Hw Hrest Hk. induction Hw as [|c w Hc _ IH]; cbn [app].
  - destruct rest as [|c rest]; cbn [star]; [exact Hk|]. rewrite Hrest. exact Hk.
  - cbn [star]. rewrite Hc, IH. reflexivity.
Qed.

Lemma exec_first (ic : bool) (r : re) (n : nat) (s : jsstring) (caps : captures) :
  m ic s r s (replicate (S n) None)
    (fun s' caps => Some (<[0%nat := Some (take (length s - length s') s)]> caps))
  = Some caps ->
  exec ic r n s = Some caps.
Proof.
  unfold exec. intros H. destruct s; cbn [exec_from]; rewrite H; reflexivity.
Qed.

Lemma take_consumed (w s' : jsstring) :
  take (length (w ++ s') - length s') (w ++ s') = w.
Proof.
  rewrite length_app. replace (length w + length s' - length s')%nat with (length w) by lia.
  apply take_app_length.
Qed.

End RegexFacts.

Module PaymentFacts.
Import Core Regex RegexFacts YouTube.





End PaymentFacts.

Module ReadingFacts.
Import Core Regex RegexFacts RegexClasses YouTube PaymentFacts.

(** *** Separators and symbols *)









(** *** The alternation of the symbols *)






(** *** The amount *)
















(** *** The two orders *)




End ReadingFacts.

Module YouTubeSpec.
Import Core Regex RegexFacts RegexClasses YouTube PaymentFacts ReadingFacts.






Lemma money_invariant (m : ChatMessage) :
  money_none_or_both m -> amount_has_currency m.
Proof.
  unfold amount_has_currency.
  intros [[Ha _]|[_ Hc]] H; [rewrite Ha in H; destruct H; discriminate | exact Hc].
Qed.

(** *** Calls that log *)

Lemma andThen_lift {A B : Type} (r : result A) (f : A -> logged B) :
  andThen (lift r) f = match r with Ok a => f a | Throw e => ([], Throw e) end.
Proof. destruct r as [a|e]; [|reflexivity]. cbn. destruct (f a). reflexivity. Qed.

Lemma andThen_ret {A B : Type} (a : A) (f : A -> logged B) : andThen (ret a) f = f a.
Proof. apply (andThen_lift (Ok a)). Qed.

Lemma andThen_Ok {A B : Type} (c : logged A) (f : A -> logged B)
    (logs : list diagnostic) (b : B) :
  andThen c f = (logs, Ok b) ->
  exists l1 a l2, c = (l1, Ok a) /\ f a = (l2, Ok b) /\ logs = l1 ++ l2.
Proof.
  destruct c as [l1 [a|e]]; cbn; [|discriminate].
  destruct (f a) as [l2 r] eqn:Hf. cbn. intros [= <- ->].
  exists l1, a, l2. auto.
Qed.


(** Steps through the calls that only lift a result, in a hypothesis that
    says the whole returned. *)
Ltac lifted H :=
  repeat (rewrite andThen_lift in H;
          match type of H with
          | match ?r with Ok _ => _ | Throw _ => _ end = _ =>
              let E := fresh "Hread" in
              destruct r eqn:E; [|discriminate H]
          end).

(** *** The text and paid branch *)

Lemma purchase_money (it : Item) (r : Renderer) (m0 : ChatMessage)
    (logs : list diagnostic) (money : option number * option jsstring) :
  amount m0 = None -> currency m0 = None ->
  purchase it r m0 = (logs, Ok money) ->
  (money = (None, None)
   /\ (logs = []
       \/ exists label paymentText pair,
            purchaseAmountText r = Some label
            /\ simpleText label = Defined paymentText
            /\ paymentValue paymentText = Ok pair
            /\ (pair.1 = None \/ pair.2 = None)
            /\ logs = [Warn [u16 "Could not parse SuperChat currency or amount.";
                             paymentText]]))
  \/ (exists label paymentText cur amt,
        purchaseAmountText r = Some label
        /\ simpleText label = Defined paymentText
        /\ paymentValue paymentText = Ok (Some cur, Some amt)
        /\ money = (Some amt, Some cur) /\ logs = []).
Proof.
  intros Ha Hc. unfold purchase.
  destruct (notUndefined (liveChatPaidMessageRenderer it)).
  2: { rewrite Ha, Hc. intros [= <- <-]. left. auto. }
  intros H. rewrite andThen_lift in H.
  destruct (purchaseAmountText r) as [label|]; [|discriminate].
  cbn [deref] in H. rewrite andThen_lift in H.
  destruct (simpleText label) as [| |paymentText] eqn:Htext; try discriminate.
  cbn [present deref] in H. rewrite andThen_lift in H.
  destruct (paymentValue paymentText) as [[cur amt]|e] eqn:Hpv; [|discriminate].
  destruct cur as [cur|]; [destruct amt as [amt|]|].
  - injection H as <- <-. right. exists label, paymentText, cur, amt. auto.
  - unfold tell, andThen, ret in H. cbn [fst snd app] in H.
    rewrite Ha, Hc in H. injection H as <- <-. left. split; [reflexivity|].
    right. exists label, paymentText, (Some cur, None). auto 10.
  - unfold tell, andThen, ret in H. cbn [fst snd app] in H.
    rewrite Ha, Hc in H. injection H as <- <-. left. split; [reflexivity|].
    right. exists label, paymentText, (None, amt). auto 10.
Qed.

Lemma prepareTextOrPaid_skips (this : Seed) (it : Item) (r : Renderer) :
  malformed r = true -> prepareTextOrPaid this it r = ([], Ok None).
Proof. unfold prepareTextOrPaid. intros ->. reflexivity. Qed.

(** What the branch returned when it went past its test and raised
    nothing. *)
Lemma prepareTextOrPaid_returns (this : Seed) (it : Item) (r : Renderer)
    (logs : list diagnostic) (o : option ChatMessage) :
  malformed r = false ->
  prepareTextOrPaid this it r = (logs, Ok o) ->
  let m0 := new_ChatMessage (identity this (renderer_id r))
                            (this_platform this) (this_channel this) in
  exists name av verified member moderator owner l1 money l2 filled,
      authorName r = Some name
      /\ lastThumbnailUrl (authorPhoto r) = Ok av
      /\ hasBadge (authorBadges r) (u16 "VERIFIED") = Ok verified
      /\ isMember (authorBadges r) = Ok member
      /\ hasBadge (authorBadges r) (u16 "MODERATOR") = Ok moderator
      /\ hasBadge (authorBadges r) (u16 "OWNER") = Ok owner
      /\ purchase it r m0 = (l1, Ok money)
      /\ match renderer_message r ?> runs with
         | Some rs => forEach addRun rs ([], [])
         | None => ret ([], [])
         end = (l2, Ok filled)
      /\ logs = l1 ++ l2
      /\ o = Some
             {| id := identity this (renderer_id r);
                platform := this_platform this; channel := this_channel this;
                username := present (simpleText name); avatar := av;
                message := fst filled;
                sent_at := Some (millisOfUsec (timestampUsec r));
                amount := fst money; currency := snd money;
                is_verified := verified; is_sub := member;
                is_mod := moderator; is_owner := owner;
                is_placeholder := false;
                emojis := snd filled; extra := [] |}.
Proof.
  intros Hpass H m0. unfold prepareTextOrPaid in H. rewrite Hpass in H.
  rewrite andThen_lift in H.
  destruct (authorName r) as [name|]; [|discriminate]. cbn [deref] in H.
  lifted H.
  apply andThen_Ok in H as (l1 & money & l' & Hmoney & H & ->).
  apply andThen_Ok in H as (l2 & filled & l'' & Hruns & H & ->).
  injection H as <- <-.
  exists name, a, a0, a1, a2, a3, l1, money, l2, filled.
  rewrite app_nil_r. repeat split; auto.
Qed.

Lemma prepareTextOrPaid_passed (this : Seed) (it : Item) (r : Renderer)
    (logs : list diagnostic) (m : ChatMessage) :
  prepareTextOrPaid this it r = (logs, Ok (Some m)) -> malformed r = false.
Proof.
  destruct (malformed r) eqn:Hbad; [|reflexivity].
  rewrite (prepareTextOrPaid_skips this it r Hbad). discriminate.
Qed.

Lemma prepareTextOrPaid_Ok (this : Seed) (it : Item) (r : Renderer)
    (logs : list diagnostic) (m : ChatMessage) :
  prepareTextOrPaid this it r = (logs, Ok (Some m)) ->
  let m0 := new_ChatMessage (identity this (renderer_id r))
                            (this_platform this) (this_channel this) in
  malformed r = false
  /\ exists name av verified member moderator owner l1 money l2 filled,
      authorName r = Some name
      /\ lastThumbnailUrl (authorPhoto r) = Ok av
      /\ hasBadge (authorBadges r) (u16 "VERIFIED") = Ok verified
      /\ isMember (authorBadges r) = Ok member
      /\ hasBadge (authorBadges r) (u16 "MODERATOR") = Ok moderator
      /\ hasBadge (authorBadges r) (u16 "OWNER") = Ok owner
      /\ purchase it r m0 = (l1, Ok money)
      /\ match renderer_message r ?> runs with
         | Some rs => forEach addRun rs ([], [])
         | None => ret ([], [])
         end = (l2, Ok filled)
      /\ logs = l1 ++ l2
      /\ m = {| id := identity this (renderer_id r);
                platform := this_platform this; channel := this_channel this;
                username := present (simpleText name); avatar := av;
                message := fst filled;
                sent_at := Some (millisOfUsec (timestampUsec r));
                amount := fst money; currency := snd money;
                is_verified := verified; is_sub := member;
                is_mod := moderator; is_owner := owner;
                is_placeholder := false;
                emojis := snd filled; extra := [] |}.
Proof.
  intros H m0. pose proof (prepareTextOrPaid_passed _ _ _ _ _ H) as Hpass.
  split; [exact Hpass|].
  destruct (prepareTextOrPaid_returns _ _ _ _ _ Hpass H)
    as (name & av & v & mb & md & ow & l1 & money & l2 & filled
        & H1 & H2 & H3 & H4 & H5 & H6 & H7 & H8 & H9 & [= H10]).
  exists name, av, v, mb, md, ow, l1, money, l2, filled. auto 12.
Qed.

Lemma prepareTextOrPaid_money (this : Seed) (it : Item) (renderer : Renderer)
    (logs : list diagnostic) (m : ChatMessage) :
  prepareTextOrPaid this it renderer = (logs, Ok (Some m)) ->
  money_none_or_both m.
Proof.
  intros H. apply prepareTextOrPaid_Ok in H as [_ H].
  destruct H as (name & av & v & mb & md & ow & l1 & money & l2 & filled
                 & _ & _ & _ & _ & _ & _ & Hmoney & _ & _ & ->).
  apply purchase_money in Hmoney; [|reflexivity..].
  unfold money_none_or_both. cbn [amount currency].
  destruct Hmoney as [[-> _]|(label & txt & cur & amt & _ & _ & _ & -> & _)].
  - left. split; reflexivity.
  - right. split; eexists; reflexivity.
Qed.

Lemma prepareTextOrPaid_null_pair (this : Seed) (it : Item) (renderer : Renderer)
    (txt : SimpleText) (paymentText : jsstring)
    (logs : list diagnostic) (m : ChatMessage) :
  purchaseAmountText renderer = Some txt ->
  simpleText txt = Defined paymentText ->
  paymentValue paymentText = Ok (None, None) ->
  prepareTextOrPaid this it renderer = (logs, Ok (Some m)) ->
  amount m = None /\ currency m = None.
Proof.
  intros Htxt Htext Hpv H. apply prepareTextOrPaid_Ok in H as [_ H].
  destruct H as (name & av & v & mb & md & ow & l1 & money & l2 & filled
                 & _ & _ & _ & _ & _ & _ & Hmoney & _ & _ & ->).
  apply purchase_money in Hmoney; [|reflexivity..].
  cbn [amount currency].
  destruct Hmoney as [[-> _]|(label & txt' & cur & amt & Hl & Ht & Hp & _)].
  - split; reflexivity.
  - rewrite Htxt in Hl. injection Hl as <-. rewrite Htext in Ht. injection Ht as <-.
    rewrite Hpv in Hp. discriminate.
Qed.

Lemma prepareGift_money (this : Seed) (ev : Renderer) (body : jsstring -> jsstring)
    (amt : number) (m : ChatMessage) :
  prepareGift this ev body amt = Ok (Some m) ->
  amount m = Some amt /\ currency m = Some (u16 "USD").
Proof.
  unfold prepareGift.
  destruct (deref _ (authorName ev)) as [name|]; [|discriminate]. cbn [bind].
  destruct (lastThumbnailUrl (authorPhoto ev)) as [av|]; [|discriminate]. cbn [bind].
  intros [= <-]. split; reflexivity.
Qed.

(** The branches of the mapped function, one after the other. *)
Lemma prepareAction_cases (this : Seed) (it : Item) (logs : list diagnostic)
    (m : ChatMessage) :
  prepareAction this (Some {| item := Some it |}) = (logs, Ok (Some m)) ->
  (exists r, chosen it = Some r /\ prepareTextOrPaid this it r = (logs, Ok (Some m)))
  \/ (chosen it = None /\ logs = []
      /\ ((exists ev body,
            liveChatMembershipGiftingEventRenderer it = Defined ev
            /\ prepareGift this ev body (num_of_Z 5) = Ok (Some m))
          \/ (exists ev body,
                liveChatMembershipGiftingEventRenderer it = Undefined
                /\ liveChatGiftMembershipReceivedEventRenderer it = Defined ev
                /\ prepareGift this ev body (timesFive (numGiftedMembers ev))
                   = Ok (Some m))
          \/ (exists ph,
                liveChatMembershipGiftingEventRenderer it = Undefined
                /\ liveChatGiftMembershipReceivedEventRenderer it = Undefined
                /\ liveChatPlaceholderItemRenderer it = Defined ph
                /\ m = placeholderMessage this ph))).
Proof.
  unfold prepareAction, chosen. cbn [chain item].
  destruct (liveChatTextMessageRenderer it) as [| |r1] eqn:Htext;
    destruct (liveChatPaidMessageRenderer it) as [| |r2] eqn:Hpaid;
    cbn [notUndefined orb present];
    [ | intros H; rewrite andThen_lift in H; cbn [deref] in H;
        first [ discriminate H | left; eexists; split; [reflexivity | exact H] ] .. ].
  intros H. right. split; [reflexivity|].
  destruct (liveChatMembershipGiftingEventRenderer it) as [| |ev] eqn:Hgift;
    cbn [notUndefined present] in H.
  - destruct (liveChatGiftMembershipReceivedEventRenderer it) as [| |ev] eqn:Hrecv;
      cbn [notUndefined present] in H.
    + destruct (liveChatPlaceholderItemRenderer it) as [| |ph]; try discriminate.
      injection H as <- <-. split; [reflexivity|]. right. right. exists ph. auto.
    + discriminate.
    + rewrite andThen_lift in H. cbn [deref] in H. injection H as <- H.
      split; [reflexivity|]. right. left. eexists ev, _.
      split; [reflexivity|]. split; [reflexivity | exact H].
  - discriminate.
  - rewrite andThen_lift in H. cbn [deref] in H. injection H as <- H.
    split; [reflexivity|]. left. eexists ev, _. split; [reflexivity | exact H].
Qed.

Lemma prepareAction_money (this : Seed) (action : option Action)
    (logs : list diagnostic) (m : ChatMessage) :
  prepareAction this action = (logs, Ok (Some m)) -> money_none_or_both m.
Proof.
  destruct action as [[[it|]]|]; try discriminate.
  intros H. apply prepareAction_cases in H.
  destruct H as [(r & _ & H)|(_ & _ & [(ev & body & _ & H)|[(ev & body & _ & _ & H)|H]])].
  - eapply prepareTextOrPaid_money, H.
  - apply prepareGift_money in H as [Ha Hc]. right. rewrite Ha, Hc. split; eexists; reflexivity.
  - apply prepareGift_money in H as [Ha Hc]. right. rewrite Ha, Hc. split; eexists; reflexivity.
  - destruct H as (ph & _ & _ & _ & ->). left. split; reflexivity.
Qed.

Lemma collect_Forall (P : ChatMessage -> Prop)
    (rs : list (result (option ChatMessage))) (ms : list ChatMessage) :
  Forall (fun r => forall m, r = Ok (Some m) -> P m) rs ->
  collect rs = Ok ms -> Forall P ms.
Proof.
  intros Hall. revert ms. induction Hall as [|r rs Hr _ IH]; intros ms; simpl.
  - intros [= <-]. constructor.
  - destruct r as [o|e]; [|discriminate].
    destruct (collect rs) as [ms'|e]; [|discriminate]. cbn [bind].
    intros [= <-]. destruct o as [msg|]; [constructor|]; auto.
Qed.

Lemma prepareChatMessages_money (this : Seed) (actions : list (option Action))
    (logs : list diagnostic) (msgs : list ChatMessage) :
  prepareChatMessages this actions = (logs, Ok msgs) ->
  Forall money_none_or_both msgs.
Proof.
  unfold prepareChatMessages. intros [= _ Hc].
  eapply collect_Forall; [|exact Hc].
  apply Forall_forall. intros r Hr m ->.
  apply in_map_iff in Hr as ([l r'] & Hsnd & Hin). simpl in Hsnd. subst r'.
  apply in_map_iff in Hin as (a & Ha & _).
  eapply prepareAction_money. exact Ha.
Qed.

(** C9. A message that an adapter produces has a currency whenever it has
    an amount: the YouTube adapter sets both or neither, the Twitch and the
    Facebook adapter set neither; and a paid message whose purchase text
    gives the null pair has neither. *)
Theorem amount_implies_currency :
  (forall this actions logs msgs,
      prepareChatMessages this actions = (logs, Ok msgs) ->
      Forall amount_has_currency msgs)
  /\ (forall this now frame logs m,
      Twitch.prepareChatMessage this now frame = (Some m, logs) ->
      amount m = None /\ currency m = None)
  /\ (forall this comment m,
      Facebook.parseComment this comment = Ok (Some m) ->
      amount m = None /\ currency m = None)
  /\ (forall this it paid txt paymentText logs m,
      liveChatTextMessageRenderer it = Undefined ->
      liveChatPaidMessageRenderer it = Defined paid ->
      purchaseAmountText paid = Some txt ->
      simpleText txt = Defined paymentText ->
      paymentValue paymentText = Ok (None, None) ->
      prepareAction this (Some {| item := Some it |}) = (logs, Ok (Some m)) ->
      amount m = None /\ currency m = None).
Proof.
  split; [|split; [|split]].
  - intros this actions logs msgs H.
    apply prepareChatMessages_money in H.
    eapply Forall_impl; [|exact H]. intros m. apply money_invariant.
  - intros this now frame logs m. unfold Twitch.prepareChatMessage.
    destruct (negb _); [discriminate|]. intros [= <- _]. split; reflexivity.
  - intros this comment m. unfold Facebook.parseComment.
    destruct comment as [c|]; [|discriminate].
    destruct (negb _); [discriminate|].
    destruct (Facebook.loopOver _ _ _) as [flags1|]; [|discriminate]. cbn [bind].
    destruct (Facebook.loopOver _ _ _) as [flags2|]; [|discriminate]. cbn [bind].
    intros [= <-]. split; reflexivity.
  - intros this it paid txt paymentText logs m Htext Hpaid Htxt Hsimple Hpv H.
    apply prepareAction_cases in H. unfold chosen in H. rewrite Htext, Hpaid in H.
    cbn [present] in H. destruct H as [(r & [= <-] & H)|([=] & _)].
    eapply prepareTextOrPaid_null_pair; eassumption.
Qed.

Lemma amount_implies_currency_witness :
  exists msgs,
    snd (prepareChatMessages sample_seed
           [paid_action "$5.00"; paid_action "five dollars"; gifting_action 3])
    = Ok msgs
    /\ map amount msgs = [Some (Num 5); None; Some (Num 5)]
    /\ Forall amount_has_currency msgs.
Proof.
  eexists. split; [vm_compute; reflexivity|]. split; [reflexivity|].
  eapply (proj1 amount_implies_currency sample_seed
            [paid_action "$5.00"; paid_action "five dollars"; gifting_action 3]).
  vm_compute. reflexivity.
Defined.

(** A gift event that carries its author is read without harm. *)
Lemma prepareGift_reads (this : Seed) (ev : Renderer) (body : jsstring -> jsstring)
    (amt : number) (name : SimpleText) (th : Thumbnail) :
  authorName ev = Some name ->
  authorPhoto ev ?> thumbnails ?> atLast = Some th ->
  exists m, prepareGift this ev body amt = Ok (Some m)
            /\ currency m = Some (u16 "USD") /\ amount m = Some amt
            /\ username m = present (simpleText name)
            /\ avatar m = present (url th).
Proof.
  intros Hname Hlast. unfold prepareGift, lastThumbnailUrl.
  rewrite Hname. cbn [deref bind].
  destruct (authorPhoto ev) as [ph|]; [|discriminate].
  cbn [chain] in Hlast. cbn [deref bind].
  destruct (thumbnails ph) as [ts|]; [|discriminate].
  cbn [chain] in Hlast. cbn [deref bind].
  rewrite Hlast. cbn [deref bind]. eexists. repeat split.
Qed.

(** C10, as the code has it. A membership-gifting event that carries an
    author name and a last thumbnail is mapped to a message with the
    currency "USD" and the amount 5, and such a gift-received event to a
    message with the currency "USD" and the amount 5 times its
    [numGiftedMembers], whatever else the event holds; and every message
    that comes out of either branch has these fields. *)
Theorem gift_events_synthesize_money (this : Seed) (it : Item) (ev : Renderer) :
  liveChatTextMessageRenderer it = Undefined ->
  liveChatPaidMessageRenderer it = Undefined ->
  let action := Some {| item := Some it |} in
  (liveChatMembershipGiftingEventRenderer it = Defined ev ->
     (forall logs m, prepareAction this action = (logs, Ok (Some m)) ->
        currency m = Some (u16 "USD") /\ amount m = Some (Num 5))
     /\ (forall name th,
           authorName ev = Some name ->
           authorPhoto ev ?> thumbnails ?> atLast = Some th ->
           exists m, prepareChatMessages this [action] = ([], Ok [m])
                     /\ currency m = Some (u16 "USD") /\ amount m = Some (Num 5)))
  /\ (liveChatMembershipGiftingEventRenderer it = Undefined ->
      liveChatGiftMembershipReceivedEventRenderer it = Defined ev ->
     (forall logs m, prepareAction this action = (logs, Ok (Some m)) ->
        currency m = Some (u16 "USD")
        /\ amount m = Some (timesFive (numGiftedMembers ev)))
     /\ (forall name th,
           authorName ev = Some name ->
           authorPhoto ev ?> thumbnails ?> atLast = Some th ->
           exists m, prepareChatMessages this [action] = ([], Ok [m])
                     /\ currency m = Some (u16 "USD")
                     /\ amount m = Some (timesFive (numGiftedMembers ev)))
     /\ (forall n, numGiftedMembers ev = Defined n ->
           timesFive (numGiftedMembers ev) = Num (inject_Z (n * 5)))).
Proof.
  intros Htext Hpaid action.
  assert (Hnone : chosen it = None)
    by (unfold chosen; rewrite Htext, Hpaid; reflexivity).
  split.
  - intros Hev. split.
    + intros logs m H. apply prepareAction_cases in H.
      rewrite Hnone, Hev in H.
      destruct H as [(r & [=] & _)
                    |(_ & _ & [(ev' & body & [= <-] & H)
                              |[(? & ? & [=] & _)|(? & [=] & _)]])].
      apply prepareGift_money in H as [Ha Hc]. auto.
    + intros name th Hname Hlast.
      edestruct (prepareGift_reads this ev) as (m & Hm & Hc & Ha & _);
        [exact Hname | exact Hlast |].
      exists m. split; [|split; [exact Hc | exact Ha]].
      subst action. unfold prepareChatMessages, prepareAction.
      cbn [map chain item]. rewrite Htext, Hpaid, Hev.
      cbn [notUndefined orb present]. rewrite andThen_lift. cbn [deref lift].
      rewrite Hm. reflexivity.
  - intros Hgift Hev. split; [|split].
    + intros logs m H. apply prepareAction_cases in H.
      rewrite Hnone, Hgift, Hev in H.
      destruct H as [(r & [=] & _)
                    |(_ & _ & [(? & ? & [=] & _)
                              |[(ev' & body & _ & [= <-] & H)|(? & _ & [=] & _)]])].
      apply prepareGift_money in H as [Ha Hc]. auto.
    + intros name th Hname Hlast.
      edestruct (prepareGift_reads this ev) as (m & Hm & Hc & Ha & _);
        [exact Hname | exact Hlast |].
      exists m. split; [|split; [exact Hc | exact Ha]].
      subst action. unfold prepareChatMessages, prepareAction.
      cbn [map chain item]. rewrite Htext, Hpaid, Hgift, Hev.
      cbn [notUndefined orb present]. rewrite andThen_lift. cbn [deref lift].
      rewrite Hm. reflexivity.
    + intros n ->. reflexivity.
Qed.

Lemma gift_events_synthesize_money_witness :
  (exists m, prepareChatMessages sample_seed [gifting_action 3] = ([], Ok [m])
             /\ currency m = Some (u16 "USD") /\ amount m = Some (Num 5))
  /\ (exists m, prepareChatMessages sample_seed [gift_received_action 3] = ([], Ok [m])
                /\ currency m = Some (u16 "USD") /\ amount m = Some (Num 15)).
Proof.
  split.
  - exact (proj2 (proj1 (gift_events_synthesize_money sample_seed (gifting_item 3)
                           (sample_renderer "gift-1" None (Defined 3%Z)) eq_refl eq_refl)
                    eq_refl) _ _ eq_refl eq_refl).
  - exact (proj1 (proj2 (proj2 (gift_events_synthesize_money sample_seed
                                  (gift_received_item 3)
                                  (sample_renderer "received-1" None (Defined 3%Z))
                                  eq_refl eq_refl) eq_refl eq_refl))
             _ _ eq_refl eq_refl).
Defined.

(** C10, as the claim has it, fails: a gifting event that the adapter
    recognizes and that carries nothing but its id and its count gives no
    message; reading the name of its author raises, and the batch is
    rejected. So does an event that has the name and no photo: reading its
    thumbnails raises. *)
Lemma bare_gift_rejects_batch :
  liveChatMembershipGiftingEventRenderer
    {| liveChatTextMessageRenderer := Undefined;
       liveChatPaidMessageRenderer := Undefined;
       liveChatMembershipGiftingEventRenderer := Defined bare_gift;
       liveChatGiftMembershipReceivedEventRenderer := Undefined;
       liveChatPlaceholderItemRenderer := Undefined |} = Defined bare_gift
  /\ numGiftedMembers bare_gift = Defined 1%Z
  /\ prepareChatMessages sample_seed [bare_gift_action]
     = ([], Throw (TypeError (u16 "authorName.simpleText")))
  /\ authorName faceless_gift = Some {| simpleText := Defined (u16 "@Donor") |}
  /\ prepareChatMessages sample_seed [faceless_gift_action]
     = ([], Throw (TypeError (u16 "authorPhoto.thumbnails"))).
Proof. repeat split. Qed.

End YouTubeSpec.

Module SeedFacts.
Import Seed.

(** A search that passes over entries without the key. *)
Lemma find_skips (k : jsstring) (front rest : list (jsstring * json)) :
  k ∉ map fst front ->
  List.find (fun kv => bool_decide (fst kv = k)) (front ++ rest)
  = List.find (fun kv => bool_decide (fst kv = k)) rest.
Proof.
  induction front as [|[k' v'] front IH]; intros Hfree; [reflexivity|].
  cbn [app List.find fst]. rewrite bool_decide_eq_false_2.
  - apply IH. intros Hin. apply Hfree. cbn [map fst]. right. exact Hin.
  - intros ->. apply Hfree. cbn [map fst]. left.
Qed.

Lemma map_fst_rev (l : list (jsstring * json)) : map fst (rev l) = rev (map fst l).
Proof. apply map_rev. Qed.

(** [lookup] finds what the entries hold. *)
Lemma holds_lookup (fields : list (jsstring * json)) (k : jsstring) (v : option json) :
  holds fields k v -> lookup fields k = v.
Proof.
  unfold holds, lookup. destruct v as [d|].
  - intros (before & after & -> & Hfree).
    rewrite rev_app_distr. cbn [rev]. rewrite <- app_assoc.
    rewrite find_skips.
    + cbn [app List.find fst]. rewrite bool_decide_eq_true_2 by reflexivity. reflexivity.
    + rewrite map_fst_rev. intros Hin. apply Hfree.
      apply list_elem_of_In, in_rev, list_elem_of_In. exact Hin.
  - intros Hfree.
    rewrite <- (app_nil_r (rev fields)), find_skips; [reflexivity|].
    rewrite map_fst_rev. intros Hin. apply Hfree.
    apply list_elem_of_In, in_rev, list_elem_of_In. exact Hin.
Qed.

(** The entries hold something for every key. *)
Lemma holds_total (fields : list (jsstring * json)) (k : jsstring) :
  exists v, holds fields k v.
Proof.
  induction fields as [|[k' d'] fields [v IH]].
  - exists None. cbn. apply not_elem_of_nil.
  - destruct v as [d|].
    + destruct IH as (before & after & -> & Hfree).
      exists (Some d), ((k', d') :: before), after. auto.
    + destruct (decide (k' = k)) as [->|Hne].
      * exists (Some d'), [], fields. auto.
      * exists None. cbn [holds map fst] in *. intros Hin.
        apply elem_of_cons in Hin as [Heq|Hin]; [congruence | exact (IH Hin)].
Qed.

Lemma holds_unique (fields : list (jsstring * json)) (k : jsstring) (v w : option json) :
  holds fields k v -> holds fields k w -> v = w.
Proof.
  intros Hv Hw. apply holds_lookup in Hv, Hw. congruence.
Qed.

(** The dispatcher on a text that parsed. *)
Lemma onChatSocketMessage_parsed (eventData : nullable jsstring) (parsed : json) :
  JSON_parse (stringOf eventData) = Ok parsed ->
  onChatSocketMessage eventData
  = match parsed with
    | JObject fields =>
      match lookup fields (u16 "type") with
      | Some (JString type) => handleServerCommand type (lookup fields (u16 "data"))
      | _ => Ok [Debug [Some (JString (stringOf eventData))]]
      end
    | _ => Ok [Debug [Some (JString (stringOf eventData))]]
    end.
Proof.
  intros Hparse. unfold onChatSocketMessage. rewrite Hparse. cbn [bind].
  destruct parsed as [|b|neg n|s|items|fields]; try reflexivity.
  unfold read. cbn [bind].
  change (u16 "type") with (u16 "type").
  destruct (lookup fields (u16 "type")) as [[|b|neg n|s|items|fs]|]; try reflexivity.
  unfold handleServerCommand. cbn [tryCatch].
  destruct (bool_decide _); reflexivity.
Qed.

End SeedFacts.

Module SeedSpec.
Import Seed SeedFacts.

(** C7. The dispatcher, on whatever the event holds as data. It never
    raises, and neither does [handleServerCommand]. When the text parses to
    an object whose [type] is the string "inject_message", the injection
    handler is invoked, once, with what the object holds as [data]: the
    value itself, [null] included, or [undefined] when the object has no
    such entry. When the text does not parse, when it parses to a value
    that is no object, or to an object whose [type] is missing or is no
    string, no handler is invoked. A [type] that is a string and names no
    command leaves one line in the debug log, with the type and the data,
    and invokes no handler. The envelopes of the tests go the same way. *)
Theorem dispatcher_routes (eventData : nullable jsstring) :
  (exists effects, onChatSocketMessage eventData = Ok effects)
  /\ (forall type data, exists effects, handleServerCommand type data = Ok effects)
  /\ (forall data, handleServerCommand (u16 "inject_message") data = Ok [InjectMessage data])
  /\ (forall fields data,
        JSON_parse (stringOf eventData) = Ok (JObject fields) ->
        holds fields (u16 "type") (Some (JString (u16 "inject_message"))) ->
        holds fields (u16 "data") data ->
        onChatSocketMessage eventData = Ok [InjectMessage data])
  /\ (forall e,
        JSON_parse (stringOf eventData) = Throw e ->
        exists effects, onChatSocketMessage eventData = Ok effects
                        /\ existsb is_handler effects = false)
  /\ (forall parsed,
        JSON_parse (stringOf eventData) = Ok parsed ->
        (forall fields, parsed <> JObject fields) ->
        exists effects, onChatSocketMessage eventData = Ok effects
                        /\ existsb is_handler effects = false)
  /\ (forall fields discriminator,
        JSON_parse (stringOf eventData) = Ok (JObject fields) ->
        holds fields (u16 "type") discriminator ->
        (forall type, discriminator <> Some (JString type)) ->
        exists effects, onChatSocketMessage eventData = Ok effects
                        /\ existsb is_handler effects = false)
  /\ (forall fields type data,
        JSON_parse (stringOf eventData) = Ok (JObject fields) ->
        holds fields (u16 "type") (Some (JString type)) ->
        type <> u16 "inject_message" ->
        holds fields (u16 "data") data ->
        onChatSocketMessage eventData
        = Ok [Debug [Some (JString (u16 "Unknown server command:"));
                     Some (JString type); data]])
  /\ onChatSocketMessage (Defined (envelope "inject_message" test_user))
     = Ok [InjectMessage (Some (JObject [(u16 "username", JString (u16 "Test"))]))]
  /\ onChatSocketMessage (Defined (envelope "inject_message" (u16 "null")))
     = Ok [InjectMessage (Some JNull)]
  /\ onChatSocketMessage (Defined bare_envelope) = Ok [InjectMessage None]
  /\ onChatSocketMessage (Defined untyped_envelope)
     = Ok [Debug [Some (JString untyped_envelope)]]
  /\ onChatSocketMessage (Defined (u16 "not valid json {"))
     = Ok [Debug [Some (JString (u16 "not valid json {"))]]
  /\ onChatSocketMessage Null = Ok [Debug [Some (JString (u16 "null"))]]
  /\ handleServerCommand (u16 "unknown_command")
       (Some (JObject [(u16 "foo", JString (u16 "bar"))]))
     = Ok [Debug [Some (JString (u16 "Unknown server command:"));
                  Some (JString (u16 "unknown_command"));
                  Some (JObject [(u16 "foo", JString (u16 "bar"))])]].
Proof.
  split; [|split; [|split; [|split; [|split; [|split; [|split; [|split]]]]]]].
  - destruct (JSON_parse (stringOf eventData)) as [parsed|e] eqn:Hparse.
    + rewrite (onChatSocketMessage_parsed _ _ Hparse).
      destruct parsed as [|b|neg n|s|items|fields]; try (eexists; reflexivity).
      destruct (lookup fields (u16 "type")) as [[|b|neg n|s|items|fs]|];
        try (eexists; reflexivity).
      unfold handleServerCommand. destruct (bool_decide _); eexists; reflexivity.
    + unfold onChatSocketMessage. rewrite Hparse. eexists. reflexivity.
  - intros type data. unfold handleServerCommand.
    destruct (bool_decide _); eexists; reflexivity.
  - intros data. reflexivity.
  - intros fields data Hparse Htype Hdata.
    rewrite (onChatSocketMessage_parsed _ _ Hparse).
    rewrite (holds_lookup _ _ _ Htype), (holds_lookup _ _ _ Hdata).
    unfold handleServerCommand. rewrite bool_decide_eq_true_2 by reflexivity.
    reflexivity.
  - intros e Hparse. unfold onChatSocketMessage. rewrite Hparse.
    eexists. split; reflexivity.
  - intros parsed Hparse Hshape.
    rewrite (onChatSocketMessage_parsed _ _ Hparse).
    destruct parsed as [|b|neg n|s|items|fields];
      try (eexists; split; reflexivity).
    exfalso. exact (Hshape fields eq_refl).
  - intros fields discriminator Hparse Htype Hno.
    rewrite (onChatSocketMessage_parsed _ _ Hparse).
    rewrite (holds_lookup _ _ _ Htype).
    destruct discriminator as [[|b|neg n|s|items|fs]|];
      try (eexists; split; reflexivity).
    exfalso. exact (Hno s eq_refl).
  - intros fields type data Hparse Htype Hother Hdata.
    rewrite (onChatSocketMessage_parsed _ _ Hparse).
    rewrite (holds_lookup _ _ _ Htype), (holds_lookup _ _ _ Hdata).
    unfold handleServerCommand. rewrite bool_decide_eq_false_2 by exact Hother.
    reflexivity.
  - repeat split; vm_compute; reflexivity.
Qed.

Lemma dispatcher_routes_witness :
  JSON_parse (envelope "inject_message" test_user)
  = Ok (JObject [(u16 "type", JString (u16 "inject_message"));
                 (u16 "data", JObject [(u16 "username", JString (u16 "Test"))])])
  /\ onChatSocketMessage (Defined (envelope "inject_message" test_user))
     = Ok [InjectMessage (Some (JObject [(u16 "username", JString (u16 "Test"))]))].
Proof.
  set (user := JObject [(u16 "username", JString (u16 "Test"))]).
  set (fields := [(u16 "type", JString (u16 "inject_message")); (u16 "data", user)]).
  assert (Hparse : JSON_parse (envelope "inject_message" test_user) = Ok (JObject fields))
    by (vm_compute; reflexivity).
  split; [exact Hparse|].
  apply (proj1 (proj2 (proj2 (proj2 (dispatcher_routes
           (Defined (envelope "inject_message" test_user)))))) fields (Some user) Hparse).
  - exists [], [(u16 "data", user)]. split; [reflexivity|].
    cbn [map fst]. intros Hin. apply list_elem_of_singleton in Hin. discriminate Hin.
  - exists [(u16 "type", JString (u16 "inject_message"))], []. split; [reflexivity|].
    apply not_elem_of_nil.
Defined.

End SeedSpec.

Module RumbleFacts.
Import Rumble.

(** The user that the directory has for an id. *)
Lemma findUser_listed (users : list User) (uid : jsstring) (u : User) :
  NoDup (map user_id users) -> u ∈ users -> user_id u = uid ->
  findUser users uid = Some u.
Proof.
  unfold findUser. induction users as [|v users IH]; intros Hnodup Hin Hid.
  - inversion Hin.
  - cbn [List.find]. cbn [map] in Hnodup.
    inversion Hnodup as [|x l Hfresh Hnodup']; subst x l.
    apply elem_of_cons in Hin as [<-|Hin].
    + rewrite bool_decide_eq_true_2 by exact Hid. reflexivity.
    + rewrite bool_decide_eq_false_2; [apply IH; assumption|].
      intros Hv. apply Hfresh. rewrite Hv, <- Hid.
      apply list_elem_of_fmap. exists u. auto.
Qed.

Lemma findUser_absent (users : list User) (uid : jsstring) :
  uid ∉ map user_id users -> findUser users uid = None.
Proof.
  unfold findUser. induction users as [|v users IH]; intros Hfree; [reflexivity|].
  cbn [List.find]. rewrite bool_decide_eq_false_2.
  - apply IH. intros Hin. apply Hfree. cbn [map]. right. exact Hin.
  - intros Hv. apply Hfree. cbn [map]. rewrite Hv. left.
Qed.

End RumbleFacts.

Module RumbleSpec.
Import Rumble RumbleFacts.

(** C8. A gift-subscription event against a directory that lists each id
    once. When the directory has a user with the id of the buyer, wherever
    it stands, the result is exactly one record, gifted, with the name of
    that user as buyer and the number of gifts as count and as value, and
    nothing is logged. When no user of the directory has the id, the
    result is exactly one undefined slot, and the log holds one line, which
    names the id. Any batch of events against any directory returns, with
    one slot for each event that is a subscription. *)
Theorem gift_subscription_record (e : Event) (users : list User) (n : Z) :
  event_kind e = GiftPurchase n ->
  (forall u,
      NoDup (map user_id users) -> u ∈ users -> user_id u = event_user_id e ->
      prepareSubscriptions [e] users
      = Ok ([Some {| id := event_id e; gifted := true; buyer := user_username u;
                     count := n; value := n |}], []))
  /\ (event_user_id e ∉ map user_id users ->
      prepareSubscriptions [e] users
      = Ok ([None], [Log [u16 "User not found:"; event_user_id e]]))
  /\ (forall events, exists slots logs,
        prepareSubscriptions events users = Ok (slots, logs)
        /\ length slots = length (List.filter isSubscriptionEvent events)).
Proof.
  intros Hkind. split; [|split].
  - intros u Hnodup Hin Hid.
    unfold prepareSubscriptions, isSubscriptionEvent. cbn [List.filter].
    rewrite Hkind. cbn [map flat_map]. unfold prepareSubscription.
    rewrite (findUser_listed users (event_user_id e) u Hnodup Hin Hid), Hkind.
    reflexivity.
  - intros Habsent.
    unfold prepareSubscriptions, isSubscriptionEvent. cbn [List.filter].
    rewrite Hkind. cbn [map flat_map]. unfold prepareSubscription.
    rewrite (findUser_absent users (event_user_id e) Habsent). reflexivity.
  - intros events. unfold prepareSubscriptions. eexists _, _.
    split; [reflexivity|]. rewrite !length_map. reflexivity.
Qed.

Lemma gift_subscription_record_witness :
  prepareSubscriptions [sample_gift] sample_directory
  = Ok ([Some {| id := u16 "2403846329322621779"; gifted := true;
                 buyer := u16 "GenerousGifter"; count := 5; value := 5 |}], [])
  /\ prepareSubscriptions [sample_gift] other_directory
     = Ok ([None], [Log [u16 "User not found:"; u16 "88707682"]]).
Proof.
  pose proof (gift_subscription_record sample_gift sample_directory 5 eq_refl)
    as (Hfound & _ & _).
  pose proof (gift_subscription_record sample_gift other_directory 5 eq_refl)
    as (_ & Hmissing & _).
  split.
  - apply (Hfound sample_buyer); [|right; left|reflexivity].
    refine (bool_decide_unpack _ _). vm_compute. exact I.
  - apply Hmissing. refine (bool_decide_unpack _ _). vm_compute. exact I.
Defined.

End RumbleSpec.

Module SocketFacts.
Import Core Twitch TwitchSocket JSFacts TwitchFacts.

(** The rest of a serialised line, read by [parseCommand]. *)
Lemma parseCommand_serialize (message : jsstring) (tgs : Tags)
    (pfx : option jsstring) (cmd : jsstring) (ps : list jsstring)
    (trl : option jsstring) :
  word cmd -> Forall word ps ->
  parseCommand message tgs pfx (serialize cmd ps trl)
  = {| raw := message; tags := tgs; meta := Some tgs; prefix := pfx;
       command := Some cmd; params := ps; trailing := trl |}.
Proof.
  intros [Hne [Hsp Hcol]] Hps.
  rewrite ch_space in Hsp.
  unfold serialize. rewrite lit_space, lit_marker, join_spaced.
  unfold parseCommand. rewrite lit_marker, ch_space.
  assert (Hparts : List.filter truthy (split 32%N (cmd ++ spaced ps)) = cmd :: ps).
  { rewrite split_words by assumption.
    simpl. destruct cmd; [congruence|]. simpl.
    rewrite filter_words by assumption. reflexivity. }
  destruct trl as [t|].
  - rewrite <- app_assoc.
    rewrite indexOf_skip by exact Hsp.
    rewrite marker_after_words by exact Hps.
    rewrite (indexOf_here [32%N; 58%N] t). cbn [fmap option_fmap option_map].
    unfold slice, sliceFrom. rewrite Nat.sub_0_r, drop_0.
    replace (length cmd + (length (spaced ps) + 0))%nat
      with (length (cmd ++ spaced ps)) by (rewrite length_app; lia).
    rewrite app_assoc, take_app_length, Hparts.
    replace (length (cmd ++ spaced ps) + 2)%nat
      with (length ((cmd ++ spaced ps) ++ [32%N; 58%N]))
      by (rewrite (length_app _ [32%N; 58%N]); reflexivity).
    replace ((cmd ++ spaced ps) ++ [32%N; 58%N] ++ t)
      with (((cmd ++ spaced ps) ++ [32%N; 58%N]) ++ t)
      by (rewrite <- !app_assoc; reflexivity).
    rewrite drop_app_length. reflexivity.
  - rewrite app_nil_r.
    rewrite indexOf_skip by exact Hsp.
    assert (Hnone : indexOf (spaced ps) [32%N; 58%N] = None).
    { rewrite <- (app_nil_r (spaced ps)), marker_after_words by exact Hps.
      reflexivity. }
    rewrite Hnone. cbn [fmap option_fmap option_map].
    rewrite Hparts. reflexivity.
Qed.

(** The first space of a block that holds none, followed by a space. *)
Lemma block_then_space (c : N) (block rest : jsstring) :
  c <> 32%N -> 32%N ∉ block ->
  indexOf (c :: block ++ 32%N :: rest) [32%N] = Some (S (length block)).
Proof.
  intros Hc Hb.
  apply indexOf_single. exists (c :: block), rest.
  split; [reflexivity|]. split; [|reflexivity].
  apply not_elem_of_cons. split; [congruence | exact Hb].
Qed.

(** A line that opens with a tag block. *)
Lemma parse_tag_block (message tagsStr rest : jsstring) :
  32%N ∉ tagsStr ->
  message = 64%N :: tagsStr ++ 32%N :: rest ->
  parseIrcMessageToJson message = parsePrefix message (parseIrcTags tagsStr) rest.
Proof.
  intros Ht Hm. unfold parseIrcMessageToJson. rewrite lit_at, lit_space.
  replace (startsWith message [64%N]) with true by (subst message; reflexivity).
  replace (indexOf message [32%N]) with (Some (S (length tagsStr)))
    by (subst message; symmetry; apply block_then_space; [discriminate | exact Ht]).
  replace (slice message 1 (S (length tagsStr))) with tagsStr.
  2:{ subst message. unfold slice.
      replace (S (length tagsStr) - 1)%nat with (length tagsStr) by lia.
      cbn [drop]. rewrite drop_0, take_app_length. reflexivity. }
  replace (sliceFrom message (S (length tagsStr) + 1)) with rest.
  2:{ subst message. unfold sliceFrom.
      replace (S (length tagsStr) + 1)%nat with (S (S (length tagsStr))) by lia.
      cbn [drop].
      change (tagsStr ++ 32%N :: rest) with (tagsStr ++ [32%N] ++ rest).
      rewrite app_assoc.
      replace (S (length tagsStr)) with (length (tagsStr ++ [32%N]))
        by (rewrite length_app; simpl; lia).
      rewrite drop_app_length. reflexivity. }
  reflexivity.
Qed.

(** A rest of a line that opens with a prefix block. *)
Lemma parse_prefix_block (message : jsstring) (tgs : Tags) (pfx rest : jsstring) :
  32%N ∉ pfx ->
  parsePrefix message tgs (58%N :: pfx ++ 32%N :: rest)
  = parseCommand message tgs (Some pfx) rest.
Proof.
  intros Hp. unfold parsePrefix. rewrite lit_colon, lit_space.
  cbn [startsWith]. rewrite N.eqb_refl. cbn [andb].
  rewrite block_then_space by (try discriminate; assumption).
  unfold slice, sliceFrom.
  replace (S (length pfx) - 1)%nat with (length pfx) by lia.
  cbn [drop]. rewrite drop_0, take_app_length.
  replace (S (length pfx) + 1)%nat with (S (S (length pfx))) by lia.
  cbn [drop].
  change (pfx ++ 32%N :: rest) with (pfx ++ [32%N] ++ rest).
  rewrite app_assoc.
  replace (S (length pfx)) with (length (pfx ++ [32%N]))
    by (rewrite length_app; simpl; lia).
  rewrite drop_app_length. reflexivity.
Qed.

(** Replacing pairs that open with [a] leaves text free of [a] alone. *)
Lemma replaceAll2_free (a b : N) (r s : jsstring) :
  a ∉ s -> replaceAll2 a b r s = s.
Proof.
  induction s as [|c s IH]; intros Ha; [reflexivity|].
  apply not_elem_of_cons in Ha as [Hne Ha].
  cbn [replaceAll2]. destruct s as [|d s]; [reflexivity|].
  destruct (N.eqb_spec c a) as [->|_]; [congruence|]. cbn [andb].
  rewrite (IH Ha). reflexivity.
Qed.

Lemma replaceAll2_other (a b c : N) (r s : jsstring) :
  c <> a -> replaceAll2 a b r (c :: s) = c :: replaceAll2 a b r s.
Proof.
  intros Hc. cbn [replaceAll2]. destruct s as [|d s]; [reflexivity|].
  destruct (N.eqb_spec c a) as [->|_]; [congruence|]. reflexivity.
Qed.

Lemma replaceAll2_hit (a b : N) (r s : jsstring) :
  replaceAll2 a b r (a :: b :: s) = r ++ replaceAll2 a b r s.
Proof. cbn [replaceAll2]. rewrite !N.eqb_refl. reflexivity. Qed.

Lemma replaceAll2_miss (a b x : N) (r s : jsstring) :
  x <> b -> replaceAll2 a b r (a :: x :: s) = a :: replaceAll2 a b r (x :: s).
Proof.
  intros Hx. cbn [replaceAll2]. rewrite N.eqb_refl.
  destruct (N.eqb_spec x b) as [->|_]; [congruence|]. reflexivity.
Qed.

Lemma unescape_free (v : jsstring) : 92%N ∉ v -> unescape v = v.
Proof.
  intros Hv. unfold unescape.
  change (ch "\") with 92%N.
  do 5 (rewrite (replaceAll2_free 92 _ _ v) by exact Hv). reflexivity.
Qed.

(** A joined list of pieces that hold no separator splits into the pieces. *)
Lemma split_join (c : N) (p : jsstring) (ps : list jsstring) :
  Forall (fun w => c ∉ w) (p :: ps) -> split c (join [c] (p :: ps)) = p :: ps.
Proof.
  revert p. induction ps as [|q ps IH]; intros p Hall.
  - inversion Hall; subst. simpl. apply split_free. assumption.
  - inversion Hall as [|? ? Hp Hrest]; subst.
    change (join [c] (p :: q :: ps)) with (p ++ c :: join [c] (q :: ps)).
    rewrite split_app by exact Hp. f_equal. apply IH. exact Hrest.
Qed.

(** Inserting pairs one after the other: the later pair of a key holds. *)
Lemma fold_insert_pairs (pairs : list (jsstring * jsstring)) (m0 : Tags) :
  fold_left (fun (m : Tags) kv => <[fst kv := snd kv]> m) pairs m0
  = list_to_map (rev pairs) ∪ m0.
Proof.
  revert m0. induction pairs as [|[k v] pairs IH]; intros m0.
  - simpl. rewrite (left_id_L ∅ (∪)). reflexivity.
  - cbn [fold_left rev fst snd]. rewrite IH.
    rewrite list_to_map_app.
    change (list_to_map [(k, v)] : Tags) with (<[k := v]> (∅ : Tags)).
    rewrite insert_empty, <- (assoc_L (∪)), <- insert_union_singleton_l.
    reflexivity.
Qed.

Lemma skipWhiteSpace_keeps (c : N) (s : jsstring) :
  c ∉ s -> c ∉ skipWhiteSpace s.
Proof.
  induction s as [|d s IH]; intros Hc; [exact Hc|].
  cbn [skipWhiteSpace]. destruct (isWhiteSpace d); [|exact Hc].
  apply IH. apply not_elem_of_cons in Hc as [_ Hc]. exact Hc.
Qed.

Lemma digits_value_from (ds : jsstring) (acc : Z) :
  (0 <= acc)%Z -> Forall (fun d => isDigit d = true) ds ->
  (0 <= fold_left (fun a d => 10 * a + (Z.of_N d - 48)) ds acc)%Z.
Proof.
  intros Hacc Hds. revert acc Hacc.
  induction Hds as [|d ds Hd _ IH]; intros acc Hacc; [exact Hacc|].
  cbn [fold_left]. apply IH.
  unfold isDigit in Hd. apply andb_true_iff in Hd as [Hlo _].
  apply N.leb_le in Hlo. lia.
Qed.

Lemma takeDigits_digits (s : jsstring) :
  Forall (fun d => isDigit d = true) (takeDigits s).
Proof.
  induction s as [|c s IH]; [constructor|].
  cbn [takeDigits]. destruct (isDigit c) eqn:Hc; constructor; assumption.
Qed.

(** [parseInt] of text without a minus sign is never negative. *)
Lemma parseInt10_nonneg (s : jsstring) (z : Z) :
  ch "-" ∉ s -> parseInt10 (Some s) = Some z -> (0 <= z)%Z.
Proof.
  intros Hs. unfold parseInt10.
  apply (skipWhiteSpace_keeps _ _) in Hs.
  destruct (skipWhiteSpace s) as [|c t] eqn:Ht.
  - cbn. discriminate.
  - apply not_elem_of_cons in Hs as [Hc _].
    destruct (N.eqb_spec c (ch "-")) as [->|_]; [congruence|].
    assert (Hnn : forall u, match takeDigits u with
                            | [] => None
                            | d :: ds => Some (digits_value (d :: ds))
                            end = Some z -> (0 <= z)%Z).
    { intros u. pose proof (takeDigits_digits u) as Hd.
      destruct (takeDigits u) as [|d ds]; [discriminate|].
      intros [= <-]. apply digits_value_from; [lia | exact Hd]. }
    destruct (c =? ch "+")%N; apply Hnn.
Qed.

Lemma or_else_truthy (a b : option jsstring) :
  truthy_opt b = true -> truthy_opt (or_else a b) = true.
Proof. unfold or_else. destruct (truthy_opt a) eqn:Ha; auto. Qed.

Lemma truthy_opt_some (o : option jsstring) :
  truthy_opt o = true -> exists u, o = Some u /\ u <> [].
Proof.
  destruct o as [[|c u]|]; try discriminate. intros _. eexists. split; [reflexivity|].
  discriminate.
Qed.

(** A message comes out of [prepareChatMessage] only with an empty log,
    and carries the non-empty id tag of the frame. *)
Lemma prepareChatMessage_posted (this : Seed) (now : Z) (parsed : ParsedTextFrame)
    (m : ChatMessage) (logs : list diagnostic) :
  prepareChatMessage this now parsed = (Some m, logs) ->
  logs = [] /\ tags parsed !! u16 "id" = Some (id m) /\ id m <> [].
Proof.
  unfold prepareChatMessage.
  destruct (tags parsed !! u16 "id") as [[|c i]|]; cbn [truthy_opt truthy negb];
    try discriminate.
  intros [= <- <-]. cbn [id new_ChatMessage default]. repeat split. discriminate.
Qed.

Lemma prepareChatMessage_refused (this : Seed) (now : Z) (parsed : ParsedTextFrame)
    (logs : list diagnostic) :
  prepareChatMessage this now parsed = (None, logs) ->
  logs = [Warn [u16 "PRIVMSG missing id:"; raw parsed]].
Proof.
  unfold prepareChatMessage.
  destruct (negb (truthy_opt (tags parsed !! u16 "id"))); [|discriminate].
  intros [= <-]. reflexivity.
Qed.

Lemma one_record_ignored (line : jsstring) (parsed : ParsedTextFrame)
    (data : option jsstring) (kind_ reason : jsstring) :
  data = Some line ->
  one_record line parsed [recordWebSocketIgnored (u16 "in") data kind_ reason].
Proof.
  intros ->. exists [], {| direction := u16 "in"; payload := Some line;
    outcome := IGNORED; category := kind_; why := Some reason |}.
  split; [reflexivity|]. split; [reflexivity|]. split; [reflexivity|].
  right. split; [discriminate|]. split; reflexivity.
Qed.

Lemma one_record_unhandled (line : jsstring) (parsed : ParsedTextFrame)
    (kind_ : jsstring) :
  one_record line parsed [recordWebSocketUnhandled (u16 "in") line kind_].
Proof.
  exists [], {| direction := u16 "in"; payload := Some line;
    outcome := UNHANDLED; category := kind_; why := None |}.
  split; [reflexivity|]. split; [reflexivity|]. split; [reflexivity|].
  right. split; [discriminate|]. split; reflexivity.
Qed.

Lemma posted_said (logs : list diagnostic) : posted (map Said logs) = [].
Proof. induction logs as [|d logs IH]; [reflexivity | exact IH]. Qed.

Lemma recorded_said (logs : list diagnostic) : recorded (map Said logs) = [].
Proof. induction logs as [|d logs IH]; [reflexivity | exact IH]. Qed.

Lemma dispatch_one_record (this : Seed) (now : Z) (line : jsstring)
    (parsed : ParsedTextFrame) :
  one_record line parsed (dispatch this now line parsed).
Proof.
  unfold dispatch.
  destruct (bool_decide (command parsed = Some (u16 "PRIVMSG"))) eqn:Hverb.
  - apply bool_decide_eq_true in Hverb.
    destruct (prepareChatMessage this now parsed) as [[m|] logs] eqn:Hm.
    + apply prepareChatMessage_posted in Hm as (-> & Hid & Hne).
      exists [PostChatMessage m], {| direction := u16 "in"; payload := Some line;
        outcome := HANDLED; category := u16 "PRIVMSG"; why := None |}.
      split; [reflexivity|]. split; [reflexivity|]. split; [reflexivity|].
      left. split; [reflexivity|]. exists m. auto.
    + exists (map Said logs), {| direction := u16 "in"; payload := Some line;
        outcome := IGNORED; category := u16 "PRIVMSG";
        why := Some (u16 "Failed to parse") |}.
      split; [reflexivity|]. split; [reflexivity|]. split; [reflexivity|].
      right. split; [discriminate|]. split; [apply posted_said | apply recorded_said].
  - repeat match goal with
           | |- one_record _ _ (if ?b then _ else _) => destruct b
           end;
      first [ apply one_record_ignored; reflexivity | apply one_record_unhandled ].
Qed.

Lemma posted_app (a b : list effect) : posted (a ++ b) = posted a ++ posted b.
Proof. apply omap_app. Qed.

Lemma recorded_app (a b : list effect) : recorded (a ++ b) = recorded a ++ recorded b.
Proof. apply omap_app. Qed.

Lemma one_record_counts (line : jsstring) (parsed : ParsedTextFrame)
    (es : list effect) :
  one_record line parsed es ->
  map payload (recorded es) = [Some line] /\ (length (posted es) <= 1)%nat.
Proof.
  intros (pre & c & -> & _ & Hp & [(_ & m & -> & _)|(_ & Hpost & Hrec)]).
  - cbn. rewrite Hp. auto.
  - rewrite recorded_app, posted_app, Hpost, Hrec. cbn. rewrite Hp. auto.
Qed.

(** [split('\r\n')] cuts at the first separator. *)
Lemma splitCRLF_piece (l rest : jsstring) :
  indexOf l [13%N; 10%N] = None ->
  splitCRLF (l ++ 13%N :: 10%N :: rest) = l :: splitCRLF rest.
Proof.
  induction l as [|c l IH]; intros Hnone; [reflexivity|].
  rewrite indexOf_cons in Hnone.
  destruct (startsWith (c :: l) [13%N; 10%N]) eqn:Hsw; [discriminate|].
  destruct (indexOf l [13%N; 10%N]) eqn:Hl; [discriminate|].
  specialize (IH eq_refl).
  destruct l as [|d l].
  - cbn [app splitCRLF]. cbn [app splitCRLF] in IH.
    replace ((c =? 13)%N && (13 =? 10)%N) with false by (rewrite andb_false_r; reflexivity).
    reflexivity.
  - change ((c :: d :: l) ++ 13%N :: 10%N :: rest)
      with (c :: d :: (l ++ 13%N :: 10%N :: rest)).
    change ((d :: l) ++ 13%N :: 10%N :: rest)
      with (d :: (l ++ 13%N :: 10%N :: rest)) in IH.
    cbn [splitCRLF]. cbn [splitCRLF] in IH. 
    rewrite !startsWith_cons, startsWith_nil, andb_true_r in Hsw.
    rewrite (N.eqb_sym c 13), (N.eqb_sym d 10), Hsw.
    rewrite IH. reflexivity.
Qed.

Lemma splitCRLF_whole (l : jsstring) :
  indexOf l [13%N; 10%N] = None -> splitCRLF l = [l].
Proof.
  induction l as [|c l IH]; intros Hnone; [reflexivity|].
  rewrite indexOf_cons in Hnone.
  destruct (startsWith (c :: l) [13%N; 10%N]) eqn:Hsw; [discriminate|].
  destruct (indexOf l [13%N; 10%N]) eqn:Hl; [discriminate|].
  specialize (IH eq_refl).
  destruct l as [|d l]; [reflexivity|].
  cbn [splitCRLF]. cbn [splitCRLF] in IH.
  rewrite !startsWith_cons, startsWith_nil, andb_true_r in Hsw.
  rewrite (N.eqb_sym c 13), (N.eqb_sym d 10), Hsw.
  rewrite IH. reflexivity.
Qed.

Lemma splitCRLF_join (l : jsstring) (ls : list jsstring) :
  Forall (fun w => indexOf w [13%N; 10%N] = None) (l :: ls) ->
  splitCRLF (join [13%N; 10%N] (l :: ls)) = l :: ls.
Proof.
  revert l. induction ls as [|l' ls IH]; intros l Hall.
  - apply splitCRLF_whole. inversion Hall; assumption.
  - inversion Hall as [|? ? Hl Hrest]; subst.
    change (join [13%N; 10%N] (l :: l' :: ls))
      with (l ++ 13%N :: 10%N :: join [13%N; 10%N] (l' :: ls)).
    rewrite splitCRLF_piece by exact Hl. rewrite IH by exact Hrest. reflexivity.
Qed.

(** The effects of the lines of a batch, one line after the other. *)
Lemma batch_records (f : nat -> jsstring -> list effect) (lines : list jsstring) :
  (forall i line, map payload (recorded (f i line)) = [Some line]
                  /\ (length (posted (f i line)) <= 1)%nat) ->
  map payload (recorded (concat (imap f lines))) = map Some lines
  /\ (length (posted (concat (imap f lines))) <= length lines)%nat.
Proof.
  revert f. induction lines as [|l lines IH]; intros f Hf; [split; reflexivity|].
  cbn [imap concat]. rewrite recorded_app, posted_app, map_app, length_app.
  destruct (Hf 0%nat l) as [-> Hle].
  destruct (IH (f ∘ S)) as [-> Hle']; [intros i line; apply Hf|].
  split; [reflexivity|]. cbn [length]. lia.
Qed.

Lemma indexOf_found (c : N) (a b : jsstring) : is_Some (indexOf (a ++ c :: b) [c]).
Proof.
  induction a as [|y a IH]; cbn [app]; rewrite indexOf_cons.
  - rewrite startsWith_cons, N.eqb_refl, startsWith_nil. eexists. reflexivity.
  - destruct (startsWith _ _); [eexists; reflexivity|].
    destruct IH as [n ->]. eexists. reflexivity.
Qed.

(** The nick of a prefix: nothing, or the text before the first exclamation
    mark, or the whole prefix when it holds none. *)
Lemma extractUsername_cases (pfx : option jsstring) :
  ((extractUsername pfx = None \/ extractUsername pfx = Some [])
   /\ (pfx = None \/ pfx = Some [] \/ exists rest, pfx = Some (ch "!" :: rest)))
  \/ (exists u,
        extractUsername pfx = Some u /\ u <> [] /\ (ch "!" ∉ u)
        /\ (pfx = Some u \/ exists rest, pfx = Some (u ++ ch "!" :: rest))).
Proof.
  destruct pfx as [[|c p]|]; [left; auto | | left; auto].
  cbn [extractUsername truthy negb].
  destruct (indexOf (c :: p) (u16 "!")) as [bangIdx|] eqn:Hbang.
  - apply indexOf_single in Hbang as (a & b & Hab & Hfree & ->).
    unfold slice. rewrite Nat.sub_0_r, drop_0, Hab, take_app_length.
    destruct a as [|x a].
    + left. split; [auto|]. right. right. exists b. reflexivity.
    + right. exists (x :: a). split; [reflexivity|]. split; [discriminate|].
      split; [exact Hfree|]. right. exists b. reflexivity.
  - right. exists (c :: p). split; [reflexivity|]. split; [discriminate|].
    split; [|left; reflexivity].
    intros Hin. apply list_elem_of_split in Hin as (a & b & Hab).
    pose proof (indexOf_found (ch "!") a b) as Hsome.
    rewrite <- Hab in Hsome. change [ch "!"] with (u16 "!") in Hsome.
    rewrite Hbang in Hsome. destruct Hsome; discriminate.
Qed.

(** The chain [shown || extractUsername(prefix) || 'Unknown']. *)
Lemma username_choice (shown pfx : option jsstring) :
  exists u,
    or_else (or_else shown (extractUsername pfx)) (Some (u16 "Unknown")) = Some u
    /\ u <> []
    /\ (shown = Some u
        \/ (truthy_opt shown = false
            /\ (ch "!" ∉ u)
            /\ (pfx = Some u \/ exists rest, pfx = Some (u ++ ch "!" :: rest)))
        \/ (truthy_opt shown = false
            /\ u = u16 "Unknown"
            /\ (pfx = None \/ pfx = Some []
                \/ exists rest, pfx = Some (ch "!" :: rest)))).
Proof.
  destruct (truthy_opt shown) eqn:Hs.
  - unfold or_else at 2. rewrite Hs.
    apply truthy_opt_some in Hs as (u & -> & Hne). exists u.
    split; [destruct u; [congruence | reflexivity]|]. split; [exact Hne|]. left. reflexivity.
  - unfold or_else at 2. rewrite Hs.
    destruct (extractUsername_cases pfx) as [[He Hp]|(u & He & Hne & Hfree & Hp)].
    + exists (u16 "Unknown").
      split; [destruct He as [-> | ->]; reflexivity|].
      split; [discriminate|]. right. right. auto.
    + exists u. rewrite He.
      split; [destruct u; [congruence | reflexivity]|].
      split; [exact Hne|]. right. left. auto.
Qed.

(** Where the tags of a block come from: each one was written by a pair. *)
Lemma set_property_lookup (tgs : Tags) (k v k' v' : jsstring) :
  set_property tgs k v !! k' = Some v' ->
  (k' = k /\ v' = v /\ k <> u16 "__proto__") \/ tgs !! k' = Some v'.
Proof.
  unfold set_property. destruct (decide (k = u16 "__proto__")) as [Hp|Hp]; [auto|].
  destruct (decide (k' = k)) as [->|Hk].
  - rewrite lookup_insert_eq. intros [= <-]. auto.
  - rewrite lookup_insert_ne by congruence. auto.
Qed.

Lemma fold_tags_sound (pairs : list jsstring) :
  forall (tgs : Tags) (k v : jsstring),
    fold_left
      (fun (tags : Tags) (pair : jsstring) =>
         match indexOf pair (u16 "=") with
         | None => set_property tags pair []
         | Some eqIdx =>
             set_property tags (slice pair 0 eqIdx)
               (unescape (sliceFrom pair (eqIdx + 1)))
         end)
      pairs tgs !! k = Some v ->
    tgs !! k = Some v
    \/ (k <> u16 "__proto__"
        /\ (ch "=" ∉ k)
        /\ exists pair,
             pair ∈ pairs
             /\ ((pair = k /\ v = [])
                 \/ exists value, pair = k ++ ch "=" :: value /\ v = unescape value)).
Proof.
  induction pairs as [|pair pairs IH]; intros tgs k v; cbn [fold_left]; [auto|].
  intros H. apply IH in H as [H|(Hp & Hk & pair' & Hin & H)].
  2: { right. split; [exact Hp|]. split; [exact Hk|]. exists pair'.
       split; [right; exact Hin | exact H]. }
  destruct (indexOf pair (u16 "=")) as [eqIdx|] eqn:Heq.
  - apply set_property_lookup in H as [(-> & -> & Hp)|H]; [|auto].
    apply indexOf_single in Heq as (a & b & -> & Hfree & ->).
    assert (Hkey : forall c, slice (a ++ c :: b) 0 (length a) = a).
    { intros c. unfold slice. rewrite Nat.sub_0_r, drop_0, take_app_length.
      reflexivity. }
    assert (Hvalue : forall c, sliceFrom (a ++ c :: b) (length a + 1) = b).
    { intros c. unfold sliceFrom. rewrite drop_app_ge by lia.
      replace (length a + 1 - length a)%nat with 1%nat by lia. reflexivity. }
    rewrite Hkey in Hp |- *. rewrite Hvalue.
    right. split; [exact Hp|]. split; [exact Hfree|].
    exists (a ++ ch "=" :: b). split; [left|]. right. exists b. auto.
  - apply set_property_lookup in H as [(-> & -> & Hp)|H]; [|auto].
    right. split; [exact Hp|]. split.
    + intros Hin. apply list_elem_of_split in Hin as (a & b & Hab).
      pose proof (indexOf_found (ch "=") a b) as Hsome.
      rewrite <- Hab in Hsome. change [ch "="] with (u16 "=") in Hsome.
      rewrite Heq in Hsome. destruct Hsome; discriminate.
    + exists pair. split; [left|]. left. auto.
Qed.

(** A digit or a point is neither white space nor a sign. *)
Lemma digit_plain (c : N) :
  isDigit c = true \/ c = ch "." ->
  isWhiteSpace c = false /\ c <> ch "-" /\ c <> ch "+".
Proof.
  intros [Hc | ->]; [|repeat split; discriminate].
  unfold isDigit in Hc. apply andb_true_iff in Hc as [Hlo Hhi].
  apply N.leb_le in Hlo, Hhi. change (ch "-") with 45%N. change (ch "+") with 43%N.
  split; [|lia].
  unfold isWhiteSpace.
  repeat match goal with
         | |- context [(?a <=? ?b)%N] =>
             destruct (N.leb_spec a b); try lia
         | |- context [(?a =? ?b)%N] =>
             destruct (N.eqb_spec a b); try lia
         end; reflexivity.
Qed.

Lemma takeDigits_whole (ds : jsstring) :
  Forall (fun d => isDigit d = true) ds -> takeDigits ds = ds.
Proof.
  induction 1 as [|d ds Hd _ IH]; [reflexivity|].
  cbn [takeDigits]. rewrite Hd, IH. reflexivity.
Qed.

Lemma parseInt10_digits (ds : jsstring) :
  Forall (fun d => isDigit d = true) ds -> ds <> [] ->
  parseInt10 (Some ds) = Some (digits_value ds).
Proof.
  intros Hall Hne. destruct ds as [|d ds]; [congruence|].
  inversion Hall as [|? ? Hd Hrest]; subst.
  destruct (digit_plain d (or_introl Hd)) as (Hws & Hm & Hp).
  unfold parseInt10. cbn [skipWhiteSpace]. rewrite Hws.
  apply N.eqb_neq in Hm, Hp. rewrite Hm, Hp.
  rewrite takeDigits_whole by exact Hall. reflexivity.
Qed.

(** *** The tag [emotes] *)

(** The pieces of a text hold only characters of the text. *)
Lemma split_keeps (P : N -> Prop) (c : N) (s : jsstring) :
  Forall P s -> Forall (Forall P) (split c s).
Proof.
  induction 1 as [|d s Hd _ IH]; cbn [split]; [repeat constructor|].
  destruct (d =? c)%N.
  - constructor; [constructor | exact IH].
  - destruct (split c s) as [|w ws]; [repeat constructor; exact Hd|].
    inversion IH; subst. constructor; [constructor; assumption | assumption].
Qed.

Lemma skipWhiteSpace_suffix (P : N -> Prop) (s : jsstring) :
  Forall P s -> Forall P (skipWhiteSpace s).
Proof.
  induction 1 as [|c s Hc Hs IH]; cbn [skipWhiteSpace]; [constructor|].
  destruct (isWhiteSpace c); [exact IH | constructor; assumption].
Qed.

(** A text without a digit is no number. *)
Lemma parseInt10_no_digit (s : jsstring) :
  Forall (fun c => isDigit c = false) s -> parseInt10 (Some s) = None.
Proof.
  intros Hs. apply (skipWhiteSpace_suffix _ s) in Hs. unfold parseInt10.
  destruct (skipWhiteSpace s) as [|c t]; [reflexivity|].
  inversion Hs as [|? ? Hc Ht]; subst.
  assert (Hnone : forall u, Forall (fun c => isDigit c = false) u -> takeDigits u = []).
  { intros u Hu. destruct Hu as [|d u Hd _]; [reflexivity|].
    cbn [takeDigits]. rewrite Hd. reflexivity. }
  destruct (c =? ch "-")%N; [rewrite (Hnone t Ht); reflexivity|].
  destruct (c =? ch "+")%N; [rewrite (Hnone t Ht); reflexivity|].
  rewrite (Hnone (c :: t) Hs). reflexivity.
Qed.

Lemma digit_not (c x : N) : isDigit c = true -> isDigit x = false -> c <> x.
Proof. intros Hc Hx ->. congruence. Qed.

Lemma digits_free (ds : jsstring) (x : N) :
  Forall (fun d => isDigit d = true) ds -> isDigit x = false -> x ∉ ds.
Proof.
  intros Hds Hx Hin. rewrite Forall_forall in Hds.
  pose proof (Hds x (proj1 (list_elem_of_In _ _) Hin)). congruence.
Qed.

(** What one position gives. *)
Lemma position_read (msg emoteId : jsstring) (p : position) :
  positionSound p ->
  (let fields := split (ch "-") (positionWritten p) in
   match parseInt10 (head fields), parseInt10 (head (tail fields)) with
   | Some start, Some end_ =>
       if ((start <=? end_) && (end_ <? Z.of_nat (length msg)))%Z
       then let emoteName := slice msg (Z.to_nat start) (Z.to_nat (end_ + 1)) in
            [(emoteName, emoteUrl emoteId, emoteName)]
       else []
   | _, _ => []
   end)
  = pieces msg (emoteId, [p]).
Proof.
  unfold pieces. cbn [flat_map snd fst]. rewrite app_nil_r.
  destruct p as [first last|text]; cbn [positionSound positionWritten].
  - intros [[Hne1 Hd1] [Hne2 Hd2]]. cbv zeta.
    rewrite split_app by (apply digits_free; [exact Hd1 | reflexivity]).
    rewrite split_free by (apply digits_free; [exact Hd2 | reflexivity]).
    cbn [head tail hd_error].
    change (list.head [last]) with (Some last).
    rewrite (parseInt10_digits first Hd1 Hne1), (parseInt10_digits last Hd2 Hne2).
    reflexivity.
  - intros Htext. cbv zeta.
    assert (Hplain : Forall (fun c => isDigit c = false) text)
      by (eapply Forall_impl; [|exact Htext]; intros c Hc; apply Hc).
    pose proof (split_keeps _ (ch "-") text Hplain) as Hfields.
    pose proof (split_not_nil (ch "-") text) as Hsome.
    destruct (split (ch "-") text) as [|f0 fs]; [congruence|].
    inversion Hfields as [|? ? Hf0 _]; subst.
    change (head (f0 :: fs)) with (Some f0).
    rewrite (parseInt10_no_digit f0 Hf0). reflexivity.
Qed.

Lemma positionWritten_free (p : position) (x : N) :
  positionSound p -> isDigit x = false -> x <> ch "-" ->
  (forall text, p = Other text -> x ∉ text) ->
  x ∉ positionWritten p.
Proof.
  destruct p as [first last|text]; cbn [positionSound positionWritten].
  - intros [[_ Hd1] [_ Hd2]] Hx Hminus _ Hin.
    apply elem_of_app in Hin as [Hin|Hin]; [exact (digits_free _ _ Hd1 Hx Hin)|].
    apply elem_of_cons in Hin as [Hin|Hin]; [congruence|].
    exact (digits_free _ _ Hd2 Hx Hin).
  - intros _ _ _ Hother. exact (Hother text eq_refl).
Qed.

Lemma other_free_comma (p : position) (text : jsstring) :
  positionSound p -> p = Other text -> (ch "," ∉ text) /\ (ch "/" ∉ text).
Proof.
  intros Hp ->. cbn [positionSound] in Hp. rewrite Forall_forall in Hp.
  split; intros Hin; apply (proj1 (list_elem_of_In _ _)) in Hin;
    destruct (Hp _ Hin) as (_ & Hc & Hs); congruence.
Qed.

Lemma join_free (c : N) (sep : N) (ws : list jsstring) :
  c <> sep -> Forall (fun w => c ∉ w) ws -> c ∉ join [sep] ws.
Proof.
  intros Hne Hws. induction Hws as [|w ws Hw Hrest IH]; [apply not_elem_of_nil|].
  destruct ws as [|w' ws]; [exact Hw|].
  change (join [sep] (w :: w' :: ws)) with (w ++ [sep] ++ join [sep] (w' :: ws)).
  intros Hin. apply elem_of_app in Hin as [Hin|Hin]; [exact (Hw Hin)|].
  apply elem_of_app in Hin as [Hin|Hin]; [|exact (IH Hin)].
  apply list_elem_of_singleton in Hin. congruence.
Qed.

(** The positions of a group, read one after the other. *)
Lemma positions_read (msg emoteId : jsstring) (ps : list position) :
  Forall positionSound ps ->
  flat_map
    (fun pos =>
       let fields := split (ch "-") pos in
       match parseInt10 (head fields), parseInt10 (head (tail fields)) with
       | Some start, Some end_ =>
           if ((start <=? end_) && (end_ <? Z.of_nat (length msg)))%Z
           then let emoteName := slice msg (Z.to_nat start) (Z.to_nat (end_ + 1)) in
                [(emoteName, emoteUrl emoteId, emoteName)]
           else []
       | _, _ => []
       end)
    (split (ch ",") (join [ch ","] (map positionWritten ps)))
  = pieces msg (emoteId, ps).
Proof.
  intros Hps. destruct ps as [|p ps]; [reflexivity|].
  change (map positionWritten (p :: ps))
    with (positionWritten p :: map positionWritten ps).
  rewrite split_join.
  2: { change (positionWritten p :: map positionWritten ps)
         with (map positionWritten (p :: ps)).
       apply Forall_map. eapply Forall_impl; [|exact Hps]. intros q Hq.
       apply positionWritten_free; [exact Hq | reflexivity | discriminate|].
       intros text Heq. apply (other_free_comma q text Hq Heq). }
  change (positionWritten p :: map positionWritten ps)
    with (map positionWritten (p :: ps)).
  unfold pieces. cbn [fst snd].
  induction Hps as [|q qs Hq _ IH]; [reflexivity|].
  cbn [map flat_map]. rewrite IH. f_equal.
  etransitivity; [exact (position_read msg emoteId q Hq)|].
  unfold pieces. cbn [flat_map fst snd]. apply app_nil_r.
Qed.

Lemma groupWritten_free (g : jsstring * list position) :
  groupSound g -> ch "/" ∉ groupWritten g.
Proof.
  intros (_ & Hslash & Hps). unfold groupWritten. intros Hin.
  apply elem_of_app in Hin as [Hin|Hin]; [exact (Hslash Hin)|].
  apply elem_of_cons in Hin as [Hin|Hin]; [discriminate|].
  revert Hin. apply join_free; [discriminate|].
  apply Forall_map. eapply Forall_impl; [|exact Hps]. intros q Hq.
  apply positionWritten_free; [exact Hq | reflexivity | discriminate|].
  intros text Heq. apply (other_free_comma q text Hq Heq).
Qed.

(** One group, read. *)
Lemma group_read (msg : jsstring) (g : jsstring * list position) :
  groupSound g ->
  (let group := groupWritten g in
   if negb (truthy group) then []
   else match indexOf group (u16 ":") with
        | None => []
        | Some colonIdx =>
          let emoteId := slice group 0 colonIdx in
          let positions := split (ch ",") (sliceFrom group (colonIdx + 1)) in
          flat_map
            (fun pos =>
               let fields := split (ch "-") pos in
               match parseInt10 (head fields), parseInt10 (head (tail fields)) with
               | Some start, Some end_ =>
                   if ((start <=? end_) && (end_ <? Z.of_nat (length msg)))%Z
                   then let emoteName :=
                          slice msg (Z.to_nat start) (Z.to_nat (end_ + 1)) in
                        [(emoteName, emoteUrl emoteId, emoteName)]
                   else []
               | _, _ => []
               end)
            positions
        end)
  = pieces msg g.
Proof.
  intros (Hcolon & Hslash & Hps). destruct g as [emoteId ps]. cbn [fst snd] in *.
  unfold groupWritten. cbn [fst snd]. cbv zeta.
  assert (Htruthy : truthy (emoteId ++ ch ":" :: join [ch ","] (map positionWritten ps))
                    = true) by (destruct emoteId; reflexivity).
  rewrite Htruthy. cbn [negb].
  assert (Hidx : indexOf (emoteId ++ ch ":" :: join [ch ","] (map positionWritten ps))
                         (u16 ":") = Some (length emoteId)).
  { change (u16 ":") with [ch ":"]. apply indexOf_single. eauto. }
  rewrite Hidx.
  assert (Hid : slice (emoteId ++ ch ":" :: join [ch ","] (map positionWritten ps))
                      0 (length emoteId) = emoteId).
  { unfold slice. rewrite Nat.sub_0_r. change (drop 0 ?l) with l.
    apply take_app_length. }
  assert (Hrest : sliceFrom (emoteId ++ ch ":" :: join [ch ","] (map positionWritten ps))
                            (length emoteId + 1)
                  = join [ch ","] (map positionWritten ps)).
  { unfold sliceFrom.
    replace (length emoteId + 1)%nat with (length (emoteId ++ [ch ":"]))
      by (rewrite length_app; reflexivity).
    change (emoteId ++ ch ":" :: join [ch ","] (map positionWritten ps))
      with (emoteId ++ [ch ":"] ++ join [ch ","] (map positionWritten ps)).
    rewrite app_assoc. apply drop_app_length. }
  rewrite Hid, Hrest.
  apply positions_read, Hps.
Qed.

End SocketFacts.

Module TwitchExtra.
Import Core Twitch TwitchSocket JSFacts TwitchFacts SocketFacts.

(** X1. A full line, with its tag block and its prefix block, tokenizes to the
    parts it was written from: the tags of the block, the prefix, the verb,
    the parameters and the trailing text; the blocks hold no space and the
    verb and the parameters are words. *)
Theorem full_line_roundtrip (tagsStr pfx cmd : jsstring) (ps : list jsstring)
    (trl : option jsstring) :
  ch " " ∉ tagsStr -> ch " " ∉ pfx -> word cmd -> Forall word ps ->
  parseIrcMessageToJson (full_line tagsStr pfx cmd ps trl)
  = {| raw := full_line tagsStr pfx cmd ps trl;
       tags := parseIrcTags tagsStr; meta := Some (parseIrcTags tagsStr);
       prefix := Some pfx; command := Some cmd; params := ps; trailing := trl |}.
Proof.
  intros Ht Hp Hcmd Hps. rewrite ch_space in Ht, Hp.
  set (line := full_line tagsStr pfx cmd ps trl).
  assert (Hline : line = 64%N :: tagsStr ++ 32%N :: (58%N :: pfx ++ 32%N :: serialize cmd ps trl)).
  { subst line. unfold full_line. rewrite lit_at, lit_marker, lit_space.
    cbn [app]. rewrite <- ?app_assoc. cbn [app]. reflexivity. }
  rewrite (parse_tag_block line tagsStr _ Ht Hline).
  rewrite parse_prefix_block by exact Hp.
  apply parseCommand_serialize; assumption.
Qed.

Lemma full_line_roundtrip_witness :
  parseIrcMessageToJson scenario_line
  = {| raw := scenario_line;
       tags := parseIrcTags scenario_tags; meta := Some (parseIrcTags scenario_tags);
       prefix := Some (u16 "testuser!testuser@testuser.tmi.twitch.tv");
       command := Some (u16 "PRIVMSG"); params := [u16 "#streamerchannel"];
       trailing := Some (u16 "Hello chat!") |}.
Proof.
  assert (Hfree : forall s : jsstring,
            forallb (fun c => negb (c =? 32)%N) s = true -> 32%N ∉ s).
  { intros s Hs Hin. rewrite forallb_forall in Hs.
    apply list_elem_of_In in Hin. specialize (Hs _ Hin). discriminate. }
  refine (full_line_roundtrip scenario_tags
            (u16 "testuser!testuser@testuser.tmi.twitch.tv")
            (u16 "PRIVMSG") [u16 "#streamerchannel"] (Some (u16 "Hello chat!"))
            _ _ _ _).
  - apply Hfree. vm_compute. reflexivity.
  - apply Hfree. vm_compute. reflexivity.
  - split; [discriminate|]. split; [apply Hfree; vm_compute; reflexivity | discriminate].
  - constructor; [|constructor].
    split; [discriminate|]. split; [apply Hfree; vm_compute; reflexivity | discriminate].
Defined.

(** X2. A tag block written from keys and values that need no escaping parses
    to the map of these keys and values, the later value of a key that
    stands twice; so every key of a block with distinct keys reads back its
    value. *)
Theorem tag_block_roundtrip (pairs : list (jsstring * jsstring)) :
  Forall plain_tag pairs ->
  parseIrcTags (tag_block pairs) = list_to_map (rev pairs)
  /\ (NoDup (map fst pairs) ->
      forall k v, (k, v) ∈ pairs -> parseIrcTags (tag_block pairs) !! k = Some v).
Proof.
  intros Hall.
  assert (Hmap : parseIrcTags (tag_block pairs) = list_to_map (rev pairs)).
  { unfold parseIrcTags, tag_block.
    destruct pairs as [|kv0 pairs]; [reflexivity|].
    pose (enc := fun kv : jsstring * jsstring => fst kv ++ u16 "=" ++ snd kv).
    change (map _ (kv0 :: pairs)) with (map enc (kv0 :: pairs)).
    assert (Hfree : Forall (fun w => ch ";" ∉ w) (map enc (kv0 :: pairs))).
    { apply Forall_map. eapply Forall_impl; [|exact Hall].
      intros [k v] (Hk & _ & _ & Hv & _). subst enc. cbn [fst snd] in *.
      rewrite !not_elem_of_app. repeat split; try assumption.
      vm_compute. intros H. apply elem_of_cons in H as [H|H]; [discriminate|].
      apply elem_of_nil in H. exact H. }
    assert (Htruthy : truthy (join (u16 ";") (map enc (kv0 :: pairs))) = true).
    { cbn [map]. destruct kv0 as [k v]. subst enc. cbn [fst snd].
      destruct (map _ pairs); cbn [join]; destruct k; reflexivity. }
    rewrite Htruthy. cbn [negb].
    change (u16 ";") with [ch ";"]. cbn [map] in Hfree |- *.
    rewrite split_join by exact Hfree.
    change (enc kv0 :: map enc pairs) with (map enc (kv0 :: pairs)).
    rewrite <- (right_id_L ∅ (∪) (list_to_map (rev (kv0 :: pairs)))).
    rewrite <- fold_insert_pairs.
    generalize (∅ : Tags). clear Hfree Htruthy.
    induction Hall as [|[k v] rest (Hk & Heq & Hproto & Hv & Hbs) _ IH]; intros m0;
      [reflexivity|].
    cbn [map fold_left fst snd] in *. rewrite <- IH. f_equal.
    subst enc. cbn [fst snd].
    assert (Hidx : indexOf (k ++ u16 "=" ++ v) (u16 "=") = Some (length k)).
    { change (u16 "=") with [ch "="]. apply indexOf_single.
      exists k, v. auto. }
    rewrite Hidx. unfold slice, sliceFrom.
    rewrite Nat.sub_0_r, drop_0, take_app_length.
    replace (length k + 1)%nat with (length (k ++ u16 "="))
      by (rewrite length_app; reflexivity).
    rewrite app_assoc, drop_app_length, unescape_free by exact Hbs.
    unfold set_property. rewrite decide_False by exact Hproto. reflexivity. }
  split; [exact Hmap|].
  intros Hnd k v Hin. rewrite Hmap.
  apply elem_of_list_to_map_1.
  - rewrite <- (Permutation_rev pairs). exact Hnd.
  - apply list_elem_of_In, in_rev. rewrite rev_involutive.
    apply list_elem_of_In. exact Hin.
Qed.

Lemma tag_block_roundtrip_witness :
  parseIrcTags (tag_block [(u16 "id", u16 "abc123"); (u16 "mod", u16 "0");
                           (u16 "mod", u16 "1")])
  = list_to_map (rev [(u16 "id", u16 "abc123"); (u16 "mod", u16 "0");
                      (u16 "mod", u16 "1")]).
Proof.
  assert (Hfree : forall (c : N) (s : jsstring),
            forallb (fun d => negb (d =? c)%N) s = true -> c ∉ s).
  { intros c s Hs Hin. rewrite forallb_forall in Hs.
    apply list_elem_of_In in Hin. specialize (Hs _ Hin).
    rewrite N.eqb_refl in Hs. discriminate. }
  refine (proj1 (tag_block_roundtrip _ _)).
  repeat constructor; cbn [fst snd];
    try (apply Hfree; vm_compute; reflexivity); discriminate.
Defined.

(** X3. On a tag value in which no backslash follows a backslash, the chain of
    replacements gives what the one pass from the left gives. *)
Theorem unescape_single_pass (value : jsstring) :
  indexOf value [92%N; 92%N] = None ->
  unescape value = unescapeOnce value.
Proof.
  assert (Hplain : forall c s, c <> 92%N -> unescape (c :: s) = c :: unescape s).
  { intros c s Hc. unfold unescape. change (ch "\") with 92%N.
    rewrite !replaceAll2_other by exact Hc. reflexivity. }
  assert (Hesc : forall x s, x <> 92%N ->
            unescape (92%N :: x :: s) = unescaped x ++ unescape s).
  { intros x s Hx. unfold unescape, unescaped.
    change (ch "\") with 92%N. change (ch "s") with 115%N.
    change (ch "n") with 110%N. change (ch "r") with 114%N.
    change (ch ":") with 58%N. change (ch ";") with 59%N.
    change (u16 " ") with [32%N]. change (u16 ";") with [59%N].
    change (u16 "\") with [92%N].
    destruct (N.eqb_spec x 115) as [->|H1].
    { rewrite replaceAll2_hit. cbn [app].
      rewrite !replaceAll2_other by discriminate. reflexivity. }
    rewrite (replaceAll2_miss 92 115) by exact H1.
    rewrite (replaceAll2_other 92 115) by exact Hx.
    destruct (N.eqb_spec x 110) as [->|H2].
    { rewrite replaceAll2_hit. cbn [app].
      rewrite !replaceAll2_other by discriminate. reflexivity. }
    rewrite (replaceAll2_miss 92 110) by exact H2.
    rewrite (replaceAll2_other 92 110) by exact Hx.
    destruct (N.eqb_spec x 114) as [->|H3].
    { rewrite replaceAll2_hit. cbn [app].
      rewrite !replaceAll2_other by discriminate. reflexivity. }
    rewrite (replaceAll2_miss 92 114) by exact H3.
    rewrite (replaceAll2_other 92 114) by exact Hx.
    destruct (N.eqb_spec x 58) as [->|H4].
    { rewrite replaceAll2_hit. cbn [app].
      rewrite !replaceAll2_other by discriminate. reflexivity. }
    rewrite (replaceAll2_miss 92 58) by exact H4.
    rewrite (replaceAll2_other 92 58) by exact Hx.
    destruct (N.eqb_spec x 92) as [->|_]; [congruence|].
    rewrite (replaceAll2_miss 92 92) by exact Hx.
    rewrite (replaceAll2_other 92 92) by exact Hx. reflexivity. }
  remember (length value) as n eqn:Hn.
  revert value Hn. induction n as [n IH] using lt_wf_ind. intros value Hn Hno.
  destruct value as [|c s]; [reflexivity|].
  cbn [unescapeOnce].
  rewrite indexOf_cons in Hno.
  destruct (startsWith (c :: s) [92%N; 92%N]) eqn:Hst; [discriminate|].
  destruct (indexOf s [92%N; 92%N]) eqn:Hs; [discriminate|]. clear Hno.
  destruct (N.eqb_spec c 92) as [->|Hc].
  - destruct s as [|x s]; [reflexivity|].
    assert (Hx : x <> 92%N).
    { intros ->. cbn in Hst. discriminate. }
    rewrite Hesc by exact Hx. f_equal.
    apply (IH (length s)); [subst n; simpl; lia | reflexivity |].
    rewrite indexOf_cons in Hs.
    destruct (startsWith (x :: s) _); [discriminate|].
    destruct (indexOf s _); [discriminate | reflexivity].
  - rewrite Hplain by exact Hc. f_equal.
    apply (IH (length s)); [subst n; simpl; lia | reflexivity | exact Hs].
Qed.

Lemma unescape_single_pass_witness :
  unescape (u16 "Hello\sWorld\:\n\x") = unescapeOnce (u16 "Hello\sWorld\:\n\x").
Proof.
  apply unescape_single_pass. vm_compute. reflexivity.
Defined.

(** X4. The emotes of a message are exactly what its tag names. For a tag
    that is a list of groups between slashes, each an emote id, a colon and
    positions between commas, and a message that is not empty,
    [parseEmotes] returns, in the order of the tag, one emote for each
    position that gives a first and a last place in digits, the first not
    after the last and the last inside the message: placeholder and name
    are the text of the message from the first place to the last, and the
    address is the one of the emote id of the group. A position that
    reaches beyond the message or runs backwards, and a position without a
    digit, give nothing. *)
Theorem parseEmotes_exact (msg : jsstring) (gs : list (jsstring * list position)) :
  msg <> [] ->
  Forall groupSound gs ->
  parseEmotes (Some (emotesWritten gs)) msg = flat_map (pieces msg) gs.
Proof.
  intros Hmsg Hgs. unfold parseEmotes, emotesWritten.
  destruct gs as [|g gs]; [reflexivity|].
  assert (Htag : truthy_opt (Some (join [ch "/"] (map groupWritten (g :: gs)))) = true).
  { cbn [map truthy_opt]. destruct g as [[|c emoteId] ps]; destruct gs; reflexivity. }
  rewrite Htag. destruct msg as [|c msg]; [congruence|]. cbn [truthy negb orb].
  change (default [] (Some ?t)) with t.
  change (map groupWritten (g :: gs)) with (groupWritten g :: map groupWritten gs).
  rewrite split_join.
  2: { change (groupWritten g :: map groupWritten gs) with (map groupWritten (g :: gs)).
       apply Forall_map. eapply Forall_impl; [|exact Hgs]. intros q.
       apply groupWritten_free. }
  change (groupWritten g :: map groupWritten gs) with (map groupWritten (g :: gs)).
  clear Htag Hmsg.
  induction Hgs as [|q qs Hq _ IH]; [reflexivity|].
  cbn [map flat_map]. rewrite IH. f_equal.
  apply (group_read (c :: msg) q Hq).
Qed.

Lemma parseEmotes_exact_witness :
  parseEmotes (Some (u16 "25:0-4,x,30-40,8-6/1902:6-9")) (u16 "Kappa this is great")
  = [ (u16 "Kappa", emoteUrl (u16 "25"), u16 "Kappa");
      (u16 "this", emoteUrl (u16 "1902"), u16 "this") ].
Proof.
  refine (parseEmotes_exact (u16 "Kappa this is great")
            [ (u16 "25", [ Range (u16 "0") (u16 "4"); Other (u16 "x");
                           Range (u16 "30") (u16 "40"); Range (u16 "8") (u16 "6") ]);
              (u16 "1902", [ Range (u16 "6") (u16 "9") ]) ] _ _).
  - discriminate.
  - repeat constructor; try discriminate;
      try (intros Hin; repeat (apply elem_of_cons in Hin as [Hin|Hin];
                               [discriminate|]); inversion Hin).
Defined.

(** X5. A chat line gives a message exactly when the tag [id] of its frame is
    not empty. Without it nothing is returned and the log gets one warning
    with the raw line. With it the message carries the id as it is, the
    platform and the channel of the adapter, the trailing text (empty when
    there is none), a username that is not empty, the time of the tag
    [tmi-sent-ts] or else the reading of the clock, and neither avatar nor
    money; nothing is logged. *)
Theorem prepareChatMessage_outcome (this : Seed) (now : Z) (parsed : ParsedTextFrame) :
  (truthy_opt (tags parsed !! u16 "id") = false
   /\ prepareChatMessage this now parsed
      = (None, [Warn [u16 "PRIVMSG missing id:"; raw parsed]]))
  \/ (exists m,
        prepareChatMessage this now parsed = (Some m, [])
        /\ tags parsed !! u16 "id" = Some (id m) /\ id m <> []
        /\ platform m = this_platform this /\ channel m = this_channel this
        /\ message m = default [] (trailing parsed)
        /\ (exists u, username m = Some u /\ u <> [])
        /\ sent_at m
           = Some (if truthy_opt (tags parsed !! u16 "tmi-sent-ts")
                   then num_of_int (parseInt10 (tags parsed !! u16 "tmi-sent-ts"))
                   else num_of_Z now)
        /\ avatar m = None /\ amount m = None /\ currency m = None
        /\ is_placeholder m = false).
Proof.
  unfold prepareChatMessage.
  destruct (tags parsed !! u16 "id") as [[|c i]|] eqn:Hid; cbn [truthy_opt truthy negb].
  - left. split; reflexivity.
  - right. eexists. split; [reflexivity|].
    cbn [id platform channel message username sent_at avatar amount currency
         is_placeholder new_ChatMessage default].
    split; [reflexivity|]. split; [discriminate|].
    split; [reflexivity|]. split; [reflexivity|].
    split; [destruct (trailing parsed) as [[|d t]|]; reflexivity|].
    split.
    { apply truthy_opt_some. apply or_else_truthy. reflexivity. }
    repeat split.
  - left. split; reflexivity.
Qed.

(** X6. Where the username of a message comes from: the tag [display-name] when
    it is not empty; or else the nick of the prefix, which is the prefix up
    to its first exclamation mark, or all of it when it has none; or else,
    when there is no prefix or the nick is empty, the word Unknown. *)
Theorem username_sources (this : Seed) (now : Z) (parsed : ParsedTextFrame) :
  truthy_opt (tags parsed !! u16 "id") = true ->
  exists m u,
    prepareChatMessage this now parsed = (Some m, [])
    /\ username m = Some u /\ u <> []
    /\ (tags parsed !! u16 "display-name" = Some u
        \/ (truthy_opt (tags parsed !! u16 "display-name") = false
            /\ (ch "!" ∉ u)
            /\ (prefix parsed = Some u
                \/ exists rest, prefix parsed = Some (u ++ ch "!" :: rest)))
        \/ (truthy_opt (tags parsed !! u16 "display-name") = false
            /\ u = u16 "Unknown"
            /\ (prefix parsed = None \/ prefix parsed = Some []
                \/ exists rest, prefix parsed = Some (ch "!" :: rest)))).
Proof.
  intros Hid.
  destruct (username_choice (tags parsed !! u16 "display-name") (prefix parsed))
    as (u & Hu & Hne & Hfrom).
  unfold prepareChatMessage. rewrite Hid. cbn [negb].
  eexists. exists u. split; [reflexivity|]. cbn [username].
  split; [exact Hu|]. split; [exact Hne | exact Hfrom].
Qed.

Lemma username_sources_witness :
  exists m u,
    prepareChatMessage scenario_seed 0
      (parseIrcMessageToJson
         (u16 "@id=abc123 :nick!user@host.tmi.twitch.tv PRIVMSG #streamerchannel :hi"))
    = (Some m, [])
    /\ username m = Some u /\ u <> []
    /\ (parseIrcTags (u16 "id=abc123") !! u16 "display-name" = Some u
        \/ (truthy_opt (parseIrcTags (u16 "id=abc123") !! u16 "display-name") = false
            /\ (ch "!" ∉ u)
            /\ (Some (u16 "nick!user@host.tmi.twitch.tv") = Some u
                \/ exists rest,
                     Some (u16 "nick!user@host.tmi.twitch.tv")
                     = Some (u ++ ch "!" :: rest)))
        \/ (truthy_opt (parseIrcTags (u16 "id=abc123") !! u16 "display-name") = false
            /\ u = u16 "Unknown"
            /\ (Some (u16 "nick!user@host.tmi.twitch.tv") = None
                \/ Some (u16 "nick!user@host.tmi.twitch.tv") = Some []
                \/ exists rest,
                     Some (u16 "nick!user@host.tmi.twitch.tv")
                     = Some (ch "!" :: rest)))).
Proof.
  apply (username_sources scenario_seed 0
           (parseIrcMessageToJson
              (u16 "@id=abc123 :nick!user@host.tmi.twitch.tv PRIVMSG #streamerchannel :hi"))).
  vm_compute. reflexivity.
Defined.

(** X7. Every line handed to [processIrcLine] is recorded exactly once, as the
    last thing done with it, inbound and with the line as payload. It is
    recorded as handled exactly when one message was posted before, and
    then the line is a PRIVMSG whose tag [id], not empty, is the id of the
    message; otherwise nothing is posted and only the log is written. *)
Theorem processIrcLine_records_once (this : Seed) (now : Z) (line : jsstring) :
  exists pre c,
    processIrcLine this now line = pre ++ [Recorded c]
    /\ direction c = u16 "in" /\ payload c = Some line
    /\ ((outcome c = HANDLED
         /\ exists m, pre = [PostChatMessage m]
              /\ command (parseIrcMessageToJson line) = Some (u16 "PRIVMSG")
              /\ tags (parseIrcMessageToJson line) !! u16 "id" = Some (id m)
              /\ id m <> [])
        \/ (outcome c <> HANDLED /\ posted pre = [] /\ recorded pre = [])).
Proof.
  unfold processIrcLine. destruct (bool_decide _).
  - apply one_record_ignored. reflexivity.
  - apply dispatch_one_record.
Qed.

(** X8. A batch of lines joined by CR LF is worked on line by line, in order,
    empty lines left out: the effects are those of each line alone, one
    after the other. The lines are any texts that hold no CR LF. *)
Theorem onWebSocketMessage_batch (this : Seed) (clock : nat -> Z)
    (lines : list jsstring) :
  Forall (fun w => indexOf w [13%N; 10%N] = None) lines ->
  onWebSocketMessage this clock (Some (join [13%N; 10%N] lines))
  = concat (imap (fun i line => processIrcLine this (clock i) line)
                 (List.filter truthy lines)).
Proof.
  intros Hall. unfold onWebSocketMessage.
  destruct lines as [|l ls]; [reflexivity|].
  rewrite splitCRLF_join by exact Hall. reflexivity.
Qed.

Lemma onWebSocketMessage_batch_witness :
  onWebSocketMessage scenario_seed (fun _ => 0%Z)
    (Some (join [13%N; 10%N] [u16 "PING :tmi.twitch.tv"; []; scenario_line]))
  = concat (imap (fun i line => processIrcLine scenario_seed 0 line)
                 (List.filter truthy [u16 "PING :tmi.twitch.tv"; []; scenario_line])).
Proof.
  apply (onWebSocketMessage_batch scenario_seed (fun _ => 0%Z)
           [u16 "PING :tmi.twitch.tv"; []; scenario_line]).
  repeat constructor.
Defined.

(** X9. Nothing that comes in is lost to the recorder: the payloads recorded for
    a text frame are, in order, its lines that are not empty, each once,
    and no more messages are posted than there are such lines. *)
Theorem onWebSocketMessage_accounts (this : Seed) (clock : nat -> Z) (text : jsstring) :
  map payload (recorded (onWebSocketMessage this clock (Some text)))
  = map Some (List.filter truthy (splitCRLF text))
  /\ (length (posted (onWebSocketMessage this clock (Some text)))
      <= length (List.filter truthy (splitCRLF text)))%nat.
Proof.
  unfold onWebSocketMessage. apply batch_records.
  intros i line. apply (one_record_counts line (parseIrcMessageToJson line)).
  unfold processIrcLine. destruct (bool_decide _).
  - apply one_record_ignored. reflexivity.
  - apply dispatch_one_record.
Qed.

(** X10. A line that goes out is recorded once, outbound and as ignored, under
    its verb, and nothing is posted: for every line of the grammar
    [verb params... :trailing]. *)
Theorem onWebSocketSend_verb (cmd : jsstring) (ps : list jsstring)
    (trl : option jsstring) :
  well_formed cmd ps ->
  onWebSocketSend (Some (serialize cmd ps trl))
  = [recordWebSocketIgnored (u16 "out") (Some (serialize cmd ps trl)) cmd
       (u16 "Outgoing IRC command")].
Proof.
  intros (Hword & Hat & Hps). unfold onWebSocketSend.
  assert (Hparse : parseIrcMessageToJson (serialize cmd ps trl)
                   = parseCommand (serialize cmd ps trl) ∅ None (serialize cmd ps trl)).
  { destruct Hword as (Hne & _ & Hcolon).
    destruct cmd as [|c cmd]; [congruence|].
    assert (Hser : exists rest, serialize (c :: cmd) ps trl = c :: rest).
    { unfold serialize. destruct ps; cbn [join app]; eauto. }
    destruct Hser as [rest Hser]. rewrite Hser.
    unfold parseIrcMessageToJson, parsePrefix.
    rewrite lit_at, lit_colon, !startsWith_cons.
    replace (64 =? c)%N with false
      by (symmetry; apply N.eqb_neq; intros <-; apply Hat; reflexivity).
    replace (58 =? c)%N with false
      by (symmetry; apply N.eqb_neq; intros <-; apply Hcolon; reflexivity).
    reflexivity. }
  rewrite Hparse, parseCommand_serialize by assumption.
  cbn [command or_else truthy_opt].
  destruct Hword as (Hne & _). destruct cmd; [congruence|]. reflexivity.
Qed.

Lemma onWebSocketSend_verb_witness :
  onWebSocketSend (Some (serialize (u16 "JOIN") [u16 "#streamerchannel"] None))
  = [recordWebSocketIgnored (u16 "out")
       (Some (serialize (u16 "JOIN") [u16 "#streamerchannel"] None)) (u16 "JOIN")
       (u16 "Outgoing IRC command")].
Proof.
  apply (onWebSocketSend_verb (u16 "JOIN") [u16 "#streamerchannel"] None).
  split; [|split].
  - split; [discriminate|]. split; [|discriminate].
    vm_compute. intros H. repeat (apply elem_of_cons in H as [H|H]; [discriminate|]).
    inversion H.
  - discriminate.
  - constructor; [|constructor].
    split; [discriminate|]. split; [|discriminate].
    vm_compute. intros H. repeat (apply elem_of_cons in H as [H|H]; [discriminate|]).
    inversion H.
Defined.

(** X11. Every tag of a parsed block was written by one of its pairs: the key is
    the pair up to its first equals sign and the value is the rest,
    unescaped, or the key is a whole pair that holds no equals sign and the
    value is empty. A key holds neither a semicolon nor an equals sign,
    and no tag is ever named [__proto__]. *)
Theorem parseIrcTags_sound (tagsStr k v : jsstring) :
  parseIrcTags tagsStr !! k = Some v ->
  k <> u16 "__proto__" /\ (ch "=" ∉ k) /\ (ch ";" ∉ k)
  /\ exists pair,
       pair ∈ split (ch ";") tagsStr
       /\ ((pair = k /\ v = [])
           \/ exists value, pair = k ++ ch "=" :: value /\ v = unescape value).
Proof.
  unfold parseIrcTags. destruct (negb (truthy tagsStr)).
  { rewrite lookup_empty. discriminate. }
  intros H. apply fold_tags_sound in H as [H|(Hp & Hk & pair & Hin & H)].
  { rewrite lookup_empty in H. discriminate. }
  split; [exact Hp|]. split; [exact Hk|]. split; [|eauto].
  pose proof (split_pieces (ch ";") tagsStr) as Hpieces.
  rewrite Forall_forall in Hpieces.
  apply list_elem_of_In in Hin. specialize (Hpieces pair Hin).
  intros Hsemi. apply Hpieces.
  destruct H as [[-> _]|(value & -> & _)]; [exact Hsemi|].
  apply elem_of_app. left. exact Hsemi.
Qed.

Lemma parseIrcTags_sound_witness :
  u16 "display-name" <> u16 "__proto__"
  /\ (ch "=" ∉ u16 "display-name") /\ (ch ";" ∉ u16 "display-name")
  /\ exists pair,
       pair ∈ split (ch ";") scenario_tags
       /\ ((pair = u16 "display-name" /\ u16 "TestUser" = [])
           \/ exists value, pair = u16 "display-name" ++ ch "=" :: value
                            /\ u16 "TestUser" = unescape value).
Proof.
  apply (parseIrcTags_sound scenario_tags (u16 "display-name") (u16 "TestUser")).
  vm_compute. reflexivity.
Defined.

End TwitchExtra.

Module BatchFacts.
Import Core Regex YouTube YouTubeBatch YouTubeSpec.

Lemma occurs_app (p s t : jsstring) : occurs p s -> occurs p (s ++ t).
Proof.
  intros (a & b & ->). exists a, (b ++ t). rewrite <- !app_assoc. reflexivity.
Qed.

Lemma placed_app (body t : jsstring) (e : emoji_triple) :
  placed body e -> placed (body ++ t) e.
Proof. intros [Hp Ho]. split; [exact Hp | apply occurs_app, Ho]. Qed.

(** *** The loop over the runs *)

(** One call of the callback that returned. *)
Lemma addRun_Ok (body : jsstring) (ems : list emoji_triple) (element : option Run)
    (logs : list diagnostic) (acc' : jsstring * list emoji_triple) :
  addRun (body, ems) element = (logs, Ok acc') ->
  exists t, acc'.1 = body ++ t
    /\ ((acc'.2 = ems /\ (logs = [] \/ logs = [unknownRun]))
        \/ (exists name address,
              acc'.2 = ems ++ [(u16 ":" ++ name ++ u16 ":", address, name)]
              /\ t = u16 ":" ++ name ++ u16 ": " /\ logs = [])).
Proof.
  unfold addRun. rewrite andThen_lift.
  destruct element as [run|]; [|discriminate]. cbn [deref].
  destruct (text run) as [| |t] eqn:Htext.
  - destruct (emoji run) as [| |e].
    + unfold tell, andThen, ret. cbn [fst snd app]. intros [= <- <-].
      exists []. rewrite app_nil_r. split; [reflexivity|]. left. auto.
    + discriminate.
    + intros [= <- <-]. eexists. split; [reflexivity|]. right.
      eexists _, _. split; [reflexivity|]. split; reflexivity.
  - intros [= <- <-]. eexists. split; [reflexivity|]. left. auto.
  - intros [= <- <-]. eexists. split; [reflexivity|]. left. auto.
Qed.

Lemma forEach_cons {A S : Type} (f : S -> A -> logged S) (x : A) (rest : list A)
    (s s' : S) (logs : list diagnostic) :
  forEach f (x :: rest) s = (logs, Ok s') ->
  exists l1 s1 l2, f s x = (l1, Ok s1) /\ forEach f rest s1 = (l2, Ok s')
                   /\ logs = l1 ++ l2.
Proof. cbn [forEach]. apply andThen_Ok. Qed.

(** The runs only add to the body, every emoji they add is placed, and they
    log nothing but the line for an unknown run. *)
Lemma forEach_addRun (rs : list (option Run)) :
  forall body ems logs acc',
    Forall (placed body) ems ->
    forEach addRun rs (body, ems) = (logs, Ok acc') ->
    Forall (placed acc'.1) acc'.2 /\ Forall (fun d => d = unknownRun) logs.
Proof.
  induction rs as [|element rs IH]; intros body ems logs acc' Hall.
  - intros [= <- <-]. split; [exact Hall | constructor].
  - intros H. apply forEach_cons in H as (l1 & [body1 ems1] & l2 & Hrun & Hrest & ->).
    apply addRun_Ok in Hrun as (t & Hbody & Hcase). cbn [fst snd] in Hbody, Hcase.
    subst body1.
    assert (Hkept : Forall (placed (body ++ t)) ems)
      by (eapply Forall_impl; [|exact Hall]; intros e; apply placed_app).
    destruct Hcase as [(-> & Hl1)|(name & address & -> & -> & ->)].
    + destruct (IH _ _ _ _ Hkept Hrest) as [Hplaced Hlogs].
      split; [exact Hplaced|]. apply Forall_app. split; [|exact Hlogs].
      destruct Hl1 as [->| ->]; repeat constructor.
    + apply (IH _ _ _ _) in Hrest; [exact Hrest|].
      apply Forall_app. split; [exact Hkept|].
      constructor; [|constructor]. split; [reflexivity|].
      cbn [fst snd]. exists body, (u16 " ").
      rewrite <- !app_assoc. reflexivity.
Qed.



(** *** The searches through the badges *)




(** *** The avatar and the purchase *)




(** *** The text and paid branch *)

Lemma malformed_wellFormed (r : Renderer) : malformed r = false <-> wellFormed r.
Proof.
  unfold malformed, wellFormed.
  rewrite !orb_false_iff, !negb_false_iff, !bool_decide_eq_true. tauto.
Qed.

Lemma malformed_not_wellFormed (r : Renderer) : malformed r = true <-> ~ wellFormed r.
Proof.
  rewrite <- malformed_wellFormed. destruct (malformed r); split; congruence.
Qed.




Lemma textOrPaid_test (it : Item) :
  notUndefined (liveChatTextMessageRenderer it)
  || notUndefined (liveChatPaidMessageRenderer it) = true <-> textOrPaid it.
Proof.
  unfold textOrPaid.
  destruct (liveChatTextMessageRenderer it), (liveChatPaidMessageRenderer it);
    cbn; split; try tauto; try congruence;
    try (intros _; left; discriminate); try (intros _; right; discriminate).
Qed.




Lemma prepareAction_skipped (this : Seed) (action : option Action) :
  skipped action -> prepareAction this action = ([], Ok None).
Proof.
  unfold skipped, prepareAction.
  intros [-> | (it & -> & H)]; [reflexivity|].
  destruct H as [(r & Hr & Hbad)|(Ht & Hp & Hg & Hr & Hph)].
  - assert (Htest : textOrPaid it).
    { unfold chosen in Hr. unfold textOrPaid.
      destruct (liveChatTextMessageRenderer it); [|left; discriminate..].
      destruct (liveChatPaidMessageRenderer it); [discriminate|right; discriminate..]. }
    apply textOrPaid_test in Htest. rewrite Htest, Hr, andThen_lift. cbn [deref].
    apply prepareTextOrPaid_skips, malformed_not_wellFormed, Hbad.
  - rewrite Ht, Hp, Hg, Hr, Hph. reflexivity.
Qed.

(** [collect] over two lists. *)
Lemma collect_app (rs1 rs2 : list (result (option ChatMessage))) :
  collect (rs1 ++ rs2)
  = bind (collect rs1) (fun ms1 => bind (collect rs2) (fun ms2 => Ok (ms1 ++ ms2))).
Proof.
  induction rs1 as [|r rs1 IH]; cbn [app collect bind].
  - destruct (collect rs2); reflexivity.
  - destruct r as [o|e]; [|reflexivity]. rewrite IH.
    destruct (collect rs1) as [ms1|e]; [|reflexivity]. cbn [bind].
    destruct (collect rs2) as [ms2|e]; [|reflexivity]. cbn [bind].
    destruct o; reflexivity.
Qed.


Lemma prepareChatMessages_app (this : Seed) (a b : list (option Action)) :
  prepareChatMessages this (a ++ b)
  = (fst (prepareChatMessages this a) ++ fst (prepareChatMessages this b),
     bind (snd (prepareChatMessages this a)) (fun ma =>
     bind (snd (prepareChatMessages this b)) (fun mb => Ok (ma ++ mb)))).
Proof.
  unfold prepareChatMessages. cbn [fst snd].
  rewrite !map_app, flat_map_app, collect_app. reflexivity.
Qed.

Lemma prepareChatMessages_skipped (this : Seed) (action : option Action) :
  skipped action -> prepareChatMessages this [action] = ([], Ok []).
Proof.
  intros Hskip. unfold prepareChatMessages. cbn [map flat_map].
  rewrite (prepareAction_skipped this action Hskip). reflexivity.
Qed.


Lemma prepareTextOrPaid_placed (this : Seed) (it : Item) (renderer : Renderer)
    (logs : list diagnostic) (m : ChatMessage) :
  prepareTextOrPaid this it renderer = (logs, Ok (Some m)) ->
  Forall (placed (message m)) (emojis m).
Proof.
  intros H. apply prepareTextOrPaid_Ok in H as [_ H].
  destruct H as (name & av & v & mb & md & ow & l1 & money & l2 & filled
                 & _ & _ & _ & _ & _ & _ & _ & Hruns & _ & ->).
  cbn [message emojis].
  destruct (renderer_message renderer ?> runs) as [rs|].
  - eapply forEach_addRun in Hruns; [apply Hruns | constructor].
  - injection Hruns as _ <-. constructor.
Qed.

Lemma prepareGift_plain (this : Seed) (ev : Renderer) (body : jsstring -> jsstring)
    (amt : number) (m : ChatMessage) :
  prepareGift this ev body amt = Ok (Some m) -> emojis m = [].
Proof.
  unfold prepareGift.
  destruct (deref _ (authorName ev)) as [name|]; [|discriminate]. cbn [bind].
  destruct (lastThumbnailUrl (authorPhoto ev)) as [av|]; [|discriminate]. cbn [bind].
  intros [= <-]. reflexivity.
Qed.

Lemma prepareAction_placed (this : Seed) (action : option Action)
    (logs : list diagnostic) (m : ChatMessage) :
  prepareAction this action = (logs, Ok (Some m)) ->
  Forall (placed (message m)) (emojis m).
Proof.
  destruct action as [[[it|]]|]; try discriminate.
  intros H. apply prepareAction_cases in H.
  destruct H as [(r & _ & H)|(_ & _ & [(ev & body & _ & H)|[(ev & body & _ & _ & H)|H]])].
  - eapply prepareTextOrPaid_placed, H.
  - apply prepareGift_plain in H. rewrite H. constructor.
  - apply prepareGift_plain in H. rewrite H. constructor.
  - destruct H as (ph & _ & _ & _ & ->). constructor.
Qed.


End BatchFacts.

Module YouTubeExtra.
Import Core Regex YouTube YouTubeBatch YouTubeSpec BatchFacts.

(** X12. Every entry of the emoji list of a message that the adapter returns has
    as placeholder the emoji id between colons, and the body of the message
    holds that placeholder: what stands in the list can be found in the
    text. *)
Theorem emoji_placeholders_in_body (this : Seed) (actions : list (option Action))
    (logs : list diagnostic) (msgs : list ChatMessage) :
  prepareChatMessages this actions = (logs, Ok msgs) ->
  Forall (fun msg => Forall (placed (message msg)) (emojis msg)) msgs.
Proof.
  unfold prepareChatMessages. intros [= _ Hc].
  eapply collect_Forall; [|exact Hc].
  apply Forall_forall. intros r Hr m ->.
  apply in_map_iff in Hr as ([l r'] & Hsnd & Hin). simpl in Hsnd. subst r'.
  apply in_map_iff in Hin as (a & Ha & _).
  eapply prepareAction_placed. exact Ha.
Qed.

Lemma emoji_placeholders_in_body_witness :
  exists msgs,
    prepareChatMessages sample_seed [text_action "text-1" wave_runs] = ([], Ok msgs)
    /\ map message msgs = [u16 "Hello :wave: everyone"]
    /\ Forall (fun msg => Forall (placed (message msg)) (emojis msg)) msgs.
Proof.
  eexists. split; [vm_compute; reflexivity|]. split; [reflexivity|].
  apply (emoji_placeholders_in_body sample_seed [text_action "text-1" wave_runs] []).
  vm_compute. reflexivity.
Defined.



(** X14. Two batches one after the other: the log is the two logs in order, and
    the messages are the messages of the first followed by those of the
    second; the whole is rejected with the exception of the first when that
    is rejected, else with that of the second. *)
Theorem batch_composition (this : Seed) (a b : list (option Action)) :
  prepareChatMessages this (a ++ b)
  = (fst (prepareChatMessages this a) ++ fst (prepareChatMessages this b),
     bind (snd (prepareChatMessages this a)) (fun ma =>
     bind (snd (prepareChatMessages this b)) (fun mb => Ok (ma ++ mb)))).
Proof.
  unfold prepareChatMessages. cbn [fst snd].
  rewrite !map_app, flat_map_app. f_equal. apply collect_app.
Qed.

(** X15. An action that is skipped (no item, a text or paid renderer without id,
    author name or thumbnails, or an item of no known kind) leaves no trace:
    the batch with it gives the log and the result of the batch without
    it. *)
Theorem skipped_leaves_no_trace (this : Seed) (before after : list (option Action))
    (action : option Action) :
  skipped action ->
  prepareChatMessages this (before ++ action :: after)
  = prepareChatMessages this (before ++ after).
Proof.
  intros Hskip.
  rewrite !prepareChatMessages_app.
  change (action :: after) with ([action] ++ after).
  rewrite (prepareChatMessages_app this [action] after).
  rewrite (prepareChatMessages_skipped this action Hskip). cbn [fst snd bind app].
  destruct (snd (prepareChatMessages this after)); reflexivity.
Qed.

Lemma skipped_leaves_no_trace_witness :
  prepareChatMessages sample_seed
    ([paid_action "$5.00"] ++ nameless_action :: [gifting_action 3])
  = prepareChatMessages sample_seed ([paid_action "$5.00"] ++ [gifting_action 3]).
Proof.
  apply (skipped_leaves_no_trace sample_seed [paid_action "$5.00"] [gifting_action 3]
           nameless_action).
  right. eexists. split; [reflexivity|]. left. eexists. split; [reflexivity|].
  intros (H & _). discriminate.
Defined.





End YouTubeExtra.

Module ClassFacts.
Import Core Regex RegexFacts RegexClasses YouTube PaymentFacts SocketFacts.

Lemma star_class {A : Type} (cls : N -> bool) (s : jsstring)
    (k : jsstring -> option A) (res : A) :
  star cls s k = Some res ->
  exists w s', s = w ++ s' /\ Forall (fun c => cls c = true) w /\ k s' = Some res.
Proof.
  induction s as [|c s IH]; simpl.
  - intros H. exists [], []. auto.
  - destruct (cls c) eqn:Hc.
    + destruct (star cls s k) as [r|] eqn:Hs.
      * intros [= ->]. destruct (IH eq_refl) as (w & s' & -> & Hw & Hk).
        exists (c :: w), s'. auto.
      * intros H. exists [], (c :: s). auto.
    + intros H. exists [], (c :: s). auto.
Qed.

Lemma between_class {A : Type} (cls : N -> bool) (lo hi : nat) (s : jsstring)
    (k : jsstring -> option A) (res : A) :
  between cls lo hi s k = Some res ->
  exists w s', s = w ++ s' /\ Forall (fun c => cls c = true) w
               /\ (lo <= length w <= hi)%nat /\ k s' = Some res.
Proof.
  revert lo s. induction hi as [|hi IH]; intros lo s; simpl.
  - destruct lo; [|discriminate]. intros H. exists [], s. simpl. auto.
  - assert (Hstop : match lo with 0%nat => k s | S _ => None end = Some res ->
                    exists w s', s = w ++ s' /\ Forall (fun c => cls c = true) w
                                 /\ (lo <= length w <= S hi)%nat /\ k s' = Some res).
    { destruct lo; [|discriminate]. intros H. exists [], s. simpl.
      repeat split; auto; lia. }
    destruct s as [|c s]; [exact Hstop|].
    destruct (cls c) eqn:Hc; [|exact Hstop].
    destruct (between cls (pred lo) hi s k) as [r|] eqn:Hb; [|exact Hstop].
    intros [= ->]. destruct (IH _ _ Hb) as (w & s' & -> & Hw & Hlen & Hk).
    exists (c :: w), s'. simpl. repeat split; auto; lia.
Qed.

(** Whatever the matcher answers came out of its continuation, after a step
    that the pattern accepts. *)
Lemma m_accepts {A : Type} (ic : bool) (input : jsstring) (r : re) :
  forall (s : jsstring) (caps : captures)
         (k : jsstring -> captures -> option A) (res : A),
    m ic input r s caps k = Some res ->
    exists s' caps', accepts ic input r s caps s' caps' /\ k s' caps' = Some res.
Proof.
  induction r as [| | |p|cls|cls|cls lo hi|r1 IH1 r2 IH2|r1 IH1 r2 IH2|r1 IH1|i r1 IH1];
    intros s caps k res; simpl.
  - discriminate.
  - destruct (length s =? length input)%nat; [|discriminate].
    intros H. exists s, caps. auto.
  - destruct s; [|discriminate]. intros H. exists [], caps. auto.
  - destruct (strip_lit ic p s) as [s'|] eqn:Hs; [|discriminate].
    intros H. exists s', caps. auto.
  - intros H. apply star_class in H as (w & s' & -> & Hw & Hk).
    exists s', caps. split; [|exact Hk]. split; [|reflexivity]. exists w. auto.
  - unfold plus. destruct s as [|c s]; [discriminate|].
    destruct (cls c) eqn:Hc; [|discriminate].
    intros H. apply star_class in H as (w & s' & -> & Hw & Hk).
    exists s', caps. split; [|exact Hk]. split; [|reflexivity].
    exists (c :: w). split; [reflexivity|]. split; [discriminate|]. auto.
  - intros H. apply between_class in H as (w & s' & -> & Hw & Hlen & Hk).
    exists s', caps. split; [|exact Hk]. split; [|reflexivity]. exists w. auto.
  - intros H. apply IH1 in H as (s1 & c1 & H1 & H).
    apply IH2 in H as (s2 & c2 & H2 & H).
    exists s2, c2. eauto.
  - destruct (m ic input r1 s caps k) as [r|] eqn:H1.
    + intros [= ->]. apply IH1 in H1 as (s' & caps' & Hm & Hk).
      exists s', caps'. auto.
    + intros H. apply IH2 in H as (s' & caps' & Hm & Hk).
      exists s', caps'. auto.
  - destruct (m ic input r1 s caps k) as [r|] eqn:H1.
    + intros [= ->]. apply IH1 in H1 as (s' & caps' & Hm & Hk).
      exists s', caps'. auto.
    + intros H. exists s, caps. auto.
  - intros H. apply IH1 in H as (s' & c1 & Hm & Hk).
    eexists s', _. split; [|exact Hk]. exists c1. auto.
Qed.

Lemma exec_accepts (ic : bool) (input : jsstring) (r : re) (n : nat)
    (s : jsstring) (caps : captures) :
  exec_from ic input r n s = Some caps ->
  exists s0 s' caps',
    accepts ic input r s0 (replicate (S n) None) s' caps'
    /\ caps = <[0%nat := Some (take (length s0 - length s') s0)]> caps'.
Proof.
  induction s as [|c s IH]; cbn [exec_from].
  - destruct (m ic input r [] _ _) as [res|] eqn:Hm; [|discriminate].
    intros [= ->]. apply m_accepts in Hm as (s' & caps' & Hm & [= <-]). eauto.
  - destruct (m ic input r (c :: s) _ _) as [res|] eqn:Hm.
    + intros [= ->]. apply m_accepts in Hm as (s' & caps' & Hm & [= <-]). eauto.
    + exact IH.
Qed.

Lemma symbols_accept (ic : bool) (input : jsstring) (l : list jsstring)
    (s : jsstring) (caps : captures) (s' : jsstring) (caps' : captures) :
  accepts ic input (fold_right Alt Never (map Lit l)) s caps s' caps' ->
  caps' = caps.
Proof.
  induction l as [|p l IH]; simpl; [intros []|].
  intros [[_ ->]|H]; [reflexivity | exact (IH H)].
Qed.

(** The point of the pattern is matched by a point only. *)
Lemma strip_point (ic : bool) (s s' : jsstring) :
  strip_lit ic (u16 ".") s = Some s' -> s = ch "." :: s'.
Proof.
  change (u16 ".") with [46%N]. change (ch ".") with 46%N.
  destruct s as [|d s]; [discriminate|]. cbn [strip_lit].
  destruct (char_eq ic 46 d) eqn:Heq; [|discriminate].
  intros [= ->]. f_equal.
  unfold char_eq in Heq. destruct ic.
  - change (canonicalize 46) with 46%N in Heq. unfold canonicalize in Heq.
    repeat match type of Heq with
           | context [if ?b then _ else _] =>
               let Hb := fresh "Hb" in destruct b eqn:Hb
           end;
      apply N.eqb_eq in Heq;
      repeat match goal with
             | H : (_ && _) = true |- _ => apply andb_true_iff in H as [? ?]
             | H : (_ || _) = true |- _ => apply orb_true_iff in H as [?|?]
             | H : (_ <=? _)%N = true |- _ => apply N.leb_le in H
             | H : (_ =? _)%N = true |- _ => apply N.eqb_eq in H
             end; lia.
  - apply N.eqb_eq in Heq. auto.
Qed.

Lemma amount_accepts (ic : bool) (input s : jsstring) (caps : captures)
    (s' : jsstring) (caps' : captures) :
  accepts ic input amountPattern s caps s' caps' ->
  caps' = caps /\ amount_text (take (length s - length s') s).
Proof.
  unfold amountPattern. cbn [accepts].
  intros (s1 & c1 & [(whole & -> & Hne & Hwhole) ->] & Hopt).
  destruct Hopt as [(s2 & c2 & [Hl ->] & [(ds & -> & Hds & Hlen) ->])|[-> ->]].
  - apply strip_point in Hl as ->. split; [reflexivity|].
    replace (whole ++ ch "." :: ds ++ s') with ((whole ++ ch "." :: ds) ++ s')
      by (rewrite <- app_assoc; reflexivity).
    rewrite take_consumed. exists whole, (ch "." :: ds).
    split; [reflexivity|]. split; [exact Hne|]. split; [exact Hwhole|].
    right. exists ds. auto.
  - split; [reflexivity|]. rewrite take_consumed.
    exists whole, []. rewrite app_nil_r. auto.
Qed.

(** A match of the payment pattern captured an amount that has the form of
    one. *)
Lemma payment_amount (text : jsstring) (caps : captures) :
  exec true paymentRegex 4 text = Some caps ->
  exists amt, or_else (group caps 2) (group caps 3) = Some amt /\ amount_text amt.
Proof.
  intros H. apply exec_accepts in H as (s0 & s' & caps' & Hm & ->).
  unfold paymentRegex in Hm. cbn [accepts] in Hm.
  destruct Hm as (s1 & c1 & [-> ->] & s2 & c2 & [_ ->] & s3 & c3 & Halt
                  & s8 & c8 & [_ ->] & (_ & _ & ->)).
  assert (Htruthy : forall a, amount_text a -> truthy a = true).
  { intros a (whole & frac & -> & Hne & _). destruct whole; [congruence | reflexivity]. }
  destruct Halt as [Hfirst|Hsecond].
  - destruct Hfirst as (s4 & c4 & (c5 & Hsym & ->) & s6 & c6 & [_ ->] & c7 & Hamt & ->).
    apply symbols_accept in Hsym as ->.
    apply amount_accepts in Hamt as [-> Hform].
    eexists. split; [|exact Hform].
    unfold or_else.
    replace (group _ 2) with (Some (take (length s6 - length s3) s6)) by reflexivity.
    cbn [truthy_opt]. rewrite (Htruthy _ Hform). reflexivity.
  - destruct Hsecond as (s4 & c4 & (c5 & Hamt & ->) & s6 & c6 & [_ ->] & c7 & Hsym & ->).
    apply symbols_accept in Hsym as ->.
    apply amount_accepts in Hamt as [-> Hform].
    eexists. split; [|exact Hform]. reflexivity.
Qed.

Lemma digits_nonneg (ds : jsstring) :
  Forall (fun d => isDigit d = true) ds -> (0 <= digits_value ds)%Z.
Proof. intros Hall. unfold digits_value. apply digits_value_from; [lia | exact Hall]. Qed.

(** [parseFloat] of a text that opens with neither white space nor a sign is
    not negative. *)
Lemma parseFloat_unsigned (s : jsstring) :
  match s with
  | c :: _ => isWhiteSpace c = false /\ c <> ch "-" /\ c <> ch "+"
  | [] => True
  end ->
  unsigned (parseFloat s).
Proof.
  intros Hhead. unfold parseFloat.
  assert (Hskip : skipWhiteSpace s = s).
  { destruct s as [|c s]; [reflexivity|]. cbn [skipWhiteSpace].
    destruct Hhead as [-> _]. reflexivity. }
  rewrite Hskip.
  assert (Hsign : match s with
                  | c :: t' => if (c =? ch "-")%N then (true, t')
                               else if (c =? ch "+")%N then (false, t') else (false, s)
                  | [] => (false, s)
                  end = (false, s)).
  { destruct s as [|c s]; [reflexivity|]. destruct Hhead as (_ & Hm & Hp).
    apply N.eqb_neq in Hm, Hp. rewrite Hm, Hp. reflexivity. }
  rewrite Hsign.
  set (ds := takeDigits s).
  set (fs := match drop (length ds) s with
             | c :: t' => if (c =? ch ".")%N then takeDigits t' else []
             | [] => []
             end).
  assert (Hds : Forall (fun d => isDigit d = true) ds) by apply takeDigits_digits.
  assert (Hfs : Forall (fun d => isDigit d = true) fs).
  { subst fs. destruct (drop (length ds) s) as [|c t']; [constructor|].
    destruct (c =? ch ".")%N; [apply takeDigits_digits | constructor]. }
  destruct (ds ++ fs) as [|x xs] eqn:Hall; [exact I|].
  rewrite <- Hall.
  match goal with |- context [Qle_bool ?big ?q] => destruct (Qle_bool big q) end;
    [exact I|].
  cbn [unsigned].
  destruct (length fs =? 0)%nat.
  - change 0%Q with (inject_Z 0). rewrite <- Zle_Qle. apply digits_nonneg, Hds.
  - rewrite Qred_correct. unfold Qle. cbn [Qnum Qden]. 
    pose proof (digits_nonneg (ds ++ fs) (proj2 (Forall_app _ _ _) (conj Hds Hfs))).
    lia.
Qed.

Lemma amount_unsigned (amt : jsstring) :
  amount_text amt ->
  unsigned (parseFloat (List.filter (fun c => negb (c =? ch ",")%N) amt)).
Proof.
  intros (whole & frac & -> & Hne & Hwhole & Hfrac).
  apply parseFloat_unsigned.
  assert (Hform : Forall (fun c => isDigit c = true \/ c = ch ".")
                    (List.filter (fun c => negb (c =? ch ",")%N) (whole ++ frac))).
  { rewrite List.filter_app. apply Forall_app. split.
    - clear Hne. induction Hwhole as [|c whole Hc _ IH]; [constructor|].
      cbn [List.filter]. destruct (c =? ch ",")%N eqn:Hcomma; cbn [negb]; [exact IH|].
      constructor; [|exact IH]. left.
      unfold isDigitOrComma in Hc. rewrite Hcomma, orb_false_r in Hc. exact Hc.
    - destruct Hfrac as [-> | (ds & -> & Hds & _)]; [constructor|].
      cbn [List.filter]. change ((ch "." =? ch ",")%N) with false. cbn [negb].
      constructor; [right; reflexivity|].
      induction Hds as [|c ds Hc _ IH]; [constructor|].
      cbn [List.filter]. destruct (c =? ch ",")%N; cbn [negb]; [exact IH|].
      constructor; [left; exact Hc | exact IH]. }
  destruct (List.filter _ (whole ++ frac)) as [|c rest]; [exact I|].
  inversion Hform; subst. apply digit_plain. assumption.
Qed.

Lemma property_listed (entries : list (jsstring * jsstring)) (k v : jsstring) :
  property entries k = Some v -> (k, v) ∈ entries.
Proof.
  unfold property. destruct (List.find _ (rev entries)) as [[k' v']|] eqn:Hfind;
    [|discriminate].
  intros [= <-]. apply find_some in Hfind as [Hin Hk].
  apply bool_decide_eq_true in Hk. cbn [fst] in Hk. subst k'.
  apply list_elem_of_In. apply in_rev. exact Hin.
Qed.

End ClassFacts.

Module PaymentExtra.
Import Core Regex RegexFacts RegexClasses YouTube PaymentFacts ClassFacts.

(** X18. What [paymentValue] can return. The currency, when there is one, is a
    code that the table lists for some symbol, three capital letters; the
    amount, when there is one, is never negative: it is the value of digits
    with at most two decimals, or [NaN] (an amount text of commas only), or
    [Infinity]. *)
Theorem paymentValue_range (text : jsstring) (cur : option jsstring)
    (amt : option number) :
  paymentValue text = Ok (cur, amt) ->
  (forall code, cur = Some code ->
     isCode code = true /\ exists symbol, (symbol, code) ∈ currencyData)
  /\ (forall a, amt = Some a -> unsigned a).
Proof.
  unfold paymentValue.
  destruct (exec true paymentRegex 4 text) as [caps|] eqn:Hexec.
  - destruct (payment_amount _ _ Hexec) as (amtText & -> & Hform).
    cbn [deref bind]. intros [= <- <-]. split.
    + intros code Hcode. apply property_listed in Hcode.
      split; [|eauto].
      assert (Hall : forallb (fun kv => isCode (snd kv)) currencyData = true)
        by (vm_compute; reflexivity).
      rewrite forallb_forall in Hall.
      apply list_elem_of_In, Hall in Hcode. exact Hcode.
    + intros a [= <-]. apply amount_unsigned. exact Hform.
  - intros [= <- <-]. split; intros ? [=].
Qed.

Lemma paymentValue_range_witness :
  (forall code, Some (u16 "USD") = Some code ->
     isCode code = true /\ exists symbol, (symbol, code) ∈ currencyData)
  /\ (forall a, Some (Num (30864 # 25)) = Some a -> unsigned a).
Proof.
  apply (paymentValue_range (u16 "$1,234.56")).
  vm_compute. reflexivity.
Defined.

End PaymentExtra.

Module FeedFacts.
Import Core Regex RegexFacts YouTube YouTubeFeed YouTubeSpec SocketFacts ClassFacts.

(** Each action is of exactly one kind. *)
Lemma kind_once (a : RawAction) :
  ((if forwarded a then 1 else 0) + (if removing a then 1 else 0)
   + (if dropped a then 1 else 0) + (if unknown a then 1 else 0) = 1)%nat.
Proof.
  unfold unknown, dropped, removing.
  destruct (forwarded a); cbn [negb andb]; [reflexivity|].
  destruct (bool_decide (is_Some (removeChatItemAction a))); cbn [negb andb];
    [reflexivity|].
  destruct (bool_decide (is_Some (addLiveChatTickerItemAction a))
            || bool_decide (is_Some (updateLiveChatPollAction a))); reflexivity.
Qed.

Lemma kinds_partition (acts : list RawAction) :
  length acts
  = (length (List.filter forwarded acts) + length (List.filter removing acts)
     + length (List.filter dropped acts) + length (List.filter unknown acts))%nat.
Proof.
  induction acts as [|a acts IH]; [reflexivity|].
  cbn [List.filter]. pose proof (kind_once a) as Hone.
  destruct (forwarded a), (removing a), (dropped a), (unknown a);
    cbn [length] in *; lia.
Qed.

Lemma removals_app (a b : list effect) : removals (a ++ b) = removals a ++ removals b.
Proof. apply omap_app. Qed.

Lemma fetchRecords_app (a b : list effect) :
  fetchRecords (a ++ b) = fetchRecords a ++ fetchRecords b.
Proof. apply List.filter_app. Qed.

Lemma removals_written (received : option (list diagnostic * result (list ChatMessage))) :
  removals (written received) = [].
Proof.
  destruct received as [[logs outcome]|]; [|reflexivity]. cbn [written].
  induction logs as [|d logs IH]; [reflexivity | exact IH].
Qed.

Lemma fetchRecords_written
    (received : option (list diagnostic * result (list ChatMessage))) :
  fetchRecords (written received) = [].
Proof.
  destruct received as [[logs outcome]|]; [|reflexivity]. cbn [written].
  induction logs as [|d logs IH]; [reflexivity | exact IH].
Qed.

Lemma removals_settled (received : option (list diagnostic * result (list ChatMessage))) :
  removals (settled received) = [].
Proof. destruct received as [[logs [msgs|e]]|]; reflexivity. Qed.

Lemma fetchRecords_settled
    (received : option (list diagnostic * result (list ChatMessage))) :
  fetchRecords (settled received) = [].
Proof. destruct received as [[logs [msgs|e]]|]; reflexivity. Qed.

(** The map over actions that are all objects: it ends well; what it does
    is neither a record of the fetch nor a batch of messages; it sends one
    removal for each removing action, puts the unknown actions aside and
    returns the forwarded ones. *)
Lemma mapActions_objects (this : Seed) (acts : list RawAction) :
  forall st,
  exists did back,
    mapActions this st (map Some acts)
    = (done st ++ did,
       Ok {| done := done st ++ did;
             aside := aside st ++ List.filter unknown acts;
             returned := returned st ++ back |})
    /\ fetchRecords did = []
    /\ removals did
       = map (fun a => [identity this (targetOf a)])
             (List.filter removing acts)
    /\ length (omap (fun o => o) back) = length (List.filter forwarded acts).
Proof.
  induction acts as [|a acts IH]; intros st.
  - exists [], []. cbn [map mapActions List.filter]. rewrite !app_nil_r.
    destruct st. auto.
  - cbn [map mapActions List.filter]. unfold classify. cbn [deref bind].
    destruct (addChatItemAction a) as [added|] eqn:Hadd.
    { assert (Hf : forwarded a = true) by (unfold forwarded; rewrite Hadd; reflexivity).
      assert (Hr : removing a = false) by (unfold removing; rewrite Hf; reflexivity).
      assert (Hu : unknown a = false) by (unfold unknown; rewrite Hf; reflexivity).
      rewrite Hf, Hr, Hu.
      destruct (IH {| done := done st; aside := aside st;
                      returned := returned st ++ [Some added] |})
        as (did & back & -> & Hrec & Hrem & Hback).
      cbn [done aside returned]. exists did, (Some added :: back).
      rewrite <- app_assoc. cbn [app].
      split; [reflexivity|]. split; [exact Hrec|]. split; [exact Hrem|].
      change (omap (fun o => o) (Some added :: back))
        with (added :: omap (fun o : option Action => o) back).
      cbn [length]. rewrite Hback. reflexivity. }
    destruct (addLiveChatMembershipItemAction a) as [added|] eqn:Hmember.
    { assert (Hf : forwarded a = true)
        by (unfold forwarded; rewrite Hadd, Hmember; reflexivity).
      assert (Hr : removing a = false) by (unfold removing; rewrite Hf; reflexivity).
      assert (Hu : unknown a = false) by (unfold unknown; rewrite Hf; reflexivity).
      rewrite Hf, Hr, Hu.
      destruct (IH {| done := done st; aside := aside st;
                      returned := returned st ++ [Some added] |})
        as (did & back & -> & Hrec & Hrem & Hback).
      cbn [done aside returned]. exists did, (Some added :: back).
      rewrite <- app_assoc. cbn [app].
      split; [reflexivity|]. split; [exact Hrec|]. split; [exact Hrem|].
      change (omap (fun o => o) (Some added :: back))
        with (added :: omap (fun o : option Action => o) back).
      cbn [length]. rewrite Hback. reflexivity. }
    assert (Hf : forwarded a = false)
      by (unfold forwarded; rewrite Hadd, Hmember; reflexivity).
    rewrite Hf.
    destruct (removeChatItemAction a) as [removal|] eqn:Hremove.
    { assert (Hr : removing a = true)
        by (unfold removing; rewrite Hf, Hremove; reflexivity).
      assert (Hu : unknown a = false)
        by (unfold unknown; rewrite Hf, Hr; reflexivity).
      rewrite Hr, Hu.
      destruct (IH {| done := done st
                              ++ [SendRemoveMessages [identity this (targetItemId removal)]];
                      aside := aside st; returned := returned st ++ [None] |})
        as (did & back & -> & Hrec & Hrem & Hback).
      cbn [done aside returned].
      exists (SendRemoveMessages [identity this (targetItemId removal)] :: did),
             (None :: back).
      rewrite <- !app_assoc. cbn [app omap length map].
      split; [reflexivity|]. split; [exact Hrec|].
      split; [|exact Hback].
      change (removals (SendRemoveMessages [identity this (targetItemId removal)] :: did))
        with ([identity this (targetItemId removal)] :: removals did).
      rewrite Hrem. unfold targetOf. rewrite Hremove. reflexivity. }
    assert (Hr : removing a = false)
      by (unfold removing; rewrite Hf, Hremove; reflexivity).
    rewrite Hr.
    destruct (addLiveChatTickerItemAction a) as [ticker|] eqn:Hticker.
    { assert (Hu : unknown a = false)
        by (unfold unknown, dropped; rewrite Hf, Hr, Hticker; reflexivity).
      rewrite Hu.
      destruct (IH {| done := done st; aside := aside st;
                      returned := returned st ++ [None] |})
        as (did & back & -> & Hrec & Hrem & Hback).
      cbn [done aside returned]. exists did, (None :: back).
      rewrite <- app_assoc. cbn [app].
      split; [reflexivity|]. split; [exact Hrec|]. split; [exact Hrem | exact Hback]. }
    destruct (updateLiveChatPollAction a) as [poll|] eqn:Hpoll.
    { assert (Hu : unknown a = false)
        by (unfold unknown, dropped; rewrite Hf, Hr, Hticker, Hpoll; reflexivity).
      rewrite Hu.
      destruct (IH {| done := done st; aside := aside st;
                      returned := returned st ++ [None] |})
        as (did & back & -> & Hrec & Hrem & Hback).
      cbn [done aside returned]. exists did, (None :: back).
      rewrite <- app_assoc. cbn [app].
      split; [reflexivity|]. split; [exact Hrec|]. split; [exact Hrem | exact Hback]. }
    assert (Hu : unknown a = true)
      by (unfold unknown, dropped; rewrite Hf, Hr, Hticker, Hpoll; reflexivity).
    rewrite Hu.
    destruct (IH {| done := done st
                            ++ [Said (Log [u16 "Unknown get_live_chat action."])];
                    aside := aside st ++ [a]; returned := returned st ++ [None] |})
      as (did & back & -> & Hrec & Hrem & Hback).
    cbn [done aside returned].
    exists (Said (Log [u16 "Unknown get_live_chat action."]) :: did), (None :: back).
    rewrite <- !app_assoc. cbn [app omap length].
    split; [reflexivity|]. split; [exact Hrec|]. split; [exact Hrem | exact Hback].
Qed.

(** The id of a message is the identity of the native id of its item. *)
Lemma prepareTextOrPaid_identity (this : Seed) (it : Item) (renderer : Renderer)
    (logs : list diagnostic) (m : ChatMessage) :
  prepareTextOrPaid this it renderer = (logs, Ok (Some m)) ->
  id m = identity this (renderer_id renderer).
Proof.
  intros H. apply prepareTextOrPaid_Ok in H as [_ H].
  destruct H as (name & av & v & mb & md & ow & l1 & money & l2 & filled
                 & _ & _ & _ & _ & _ & _ & _ & _ & _ & ->).
  reflexivity.
Qed.

Lemma prepareGift_identity (this : Seed) (ev : Renderer) (body : jsstring -> jsstring)
    (amt : number) (m : ChatMessage) :
  prepareGift this ev body amt = Ok (Some m) -> id m = identity this (renderer_id ev).
Proof.
  unfold prepareGift.
  destruct (deref _ (authorName ev)) as [name|]; [|discriminate]. cbn [bind].
  destruct (lastThumbnailUrl (authorPhoto ev)) as [av|]; [|discriminate]. cbn [bind].
  intros [= <-]. reflexivity.
Qed.

Lemma prepareAction_identity (this : Seed) (it : Item) (logs : list diagnostic)
    (m : ChatMessage) :
  prepareAction this (Some {| item := Some it |}) = (logs, Ok (Some m)) ->
  id m = identity this (nativeId it).
Proof.
  intros H. apply prepareAction_cases in H. unfold nativeId.
  destruct H as [(r & -> & H)
                |(-> & _ & [(ev & body & -> & H)
                           |[(ev & body & -> & -> & H)|(ph & -> & -> & -> & ->)]])].
  - eapply prepareTextOrPaid_identity, H.
  - eapply prepareGift_identity, H.
  - eapply prepareGift_identity, H.
  - reflexivity.
Qed.

Lemma filter_digits (s : jsstring) :
  Forall (fun d => isDigit d = true) (List.filter isDigit s).
Proof.
  apply Forall_forall. intros d Hd. apply filter_In in Hd as [_ Hd]. exact Hd.
Qed.

(** The text of the count, read by the pattern. *)
Lemma views_read (ds : jsstring) :
  Forall (fun d => isDigit d = true) ds -> ds <> [] ->
  exists match_,
    exec false viewsPattern 1 (ds ++ u16 " views") = Some match_
    /\ group match_ 1 = Some ds.
Proof.
  intros Hall Hne. destruct ds as [|d ds]; [congruence|].
  inversion Hall as [|? ? Hd Hrest]; subst.
  eexists. split.
  - apply exec_first. unfold viewsPattern. cbn [m app]. unfold plus.
    assert (Hcls : isDigitOrComma d = true) by (unfold isDigitOrComma; rewrite Hd; reflexivity).
    rewrite Hcls.
    apply star_greedy.
    + eapply Forall_impl; [|exact Hrest]. intros c Hc.
      unfold isDigitOrComma. rewrite Hc. reflexivity.
    + reflexivity.
    + reflexivity.
  - unfold group. cbn [length app].
    rewrite length_app. change (length (u16 " views")) with 6%nat.
    replace (S (length ds + 6) - 6)%nat with (S (length ds)) by lia.
    replace (S (length ds + 6) - length (@nil N))%nat with (S (length ds + 6)) by (cbn; lia).
    cbn [take]. rewrite take_app_length. reflexivity.
Qed.

(** A response that holds one removal. *)
Lemma onFetchResponse_removal (this : Seed) (target : nullable jsstring) :
  exists counts,
    onFetchResponse this (liveChatResponse [removeAction target])
    = [SendRemoveMessages [identity this target];
       RecordFetchHandled (response_url (liveChatResponse [removeAction target]))
         (u16 "GET") 200 counts].
Proof.
  unfold onFetchResponse.
  assert (Hurl : includes (response_url (liveChatResponse [removeAction target]))
                          (u16 "/get_live_chat") = true) by (vm_compute; reflexivity).
  rewrite Hurl. cbn [negb].
  eexists. reflexivity.
Qed.

End FeedFacts.

Module FeedExtra.
Import Core Regex RegexFacts YouTube YouTubeFeed YouTubeSpec SocketFacts ClassFacts FeedFacts.

(** X19. A response of the live chat whose actions are all objects is recorded
    once, as handled, and every action is accounted for: it is forwarded to
    [receiveChatMessages], or one removal is sent for it, or it is a ticker
    or poll action and dropped, or it is logged and put aside as unhandled;
    the counts of the record are the numbers of these actions. *)
Theorem onFetchResponse_accounts (this : Seed) (response : Response)
    (body : option Json) (acts : list RawAction) :
  includes (response_url response) (u16 "/get_live_chat") = true ->
  json response = Ok body ->
  body ?> continuationContents ?> liveChatContinuation ?> actions
  = Some (map Some acts) ->
  exists counts,
    fetchRecords (onFetchResponse this response)
    = [RecordFetchHandled (response_url response) (u16 "GET") (status response) counts]
    /\ actionCount counts = length acts
    /\ messagesAdded counts = length (List.filter forwarded acts)
    /\ removals (onFetchResponse this response)
       = map (fun a => [identity this (targetOf a)])
             (List.filter removing acts)
    /\ unhandledActions counts = List.filter unknown acts
    /\ unhandledCount counts = length (List.filter unknown acts)
    /\ actionCount counts
       = (messagesAdded counts + length (removals (onFetchResponse this response))
          + length (List.filter dropped acts) + unhandledCount counts)%nat.
Proof.
  intros Hurl Hjson Hacts. unfold onFetchResponse.
  rewrite Hurl, Hjson, Hacts. cbn [negb].
  destruct (mapActions_objects this acts {| done := []; aside := []; returned := [] |})
    as (did & back & -> & Hrec & Hrem & Hback).
  cbn [done aside returned]. change ([] ++ did) with did.
  assert (Hsum : length (map Some acts)
                 = (length (omap (fun o : option Action => o) back)
                    + length (map (fun a : RawAction =>
                                     [identity this (targetOf a)])
                                (List.filter removing acts))
                    + length (List.filter dropped acts)
                    + length (List.filter unknown acts))%nat).
  { rewrite Hback, !length_map. apply kinds_partition. }
  eexists.
  rewrite !fetchRecords_app, !removals_app, Hrec, Hrem, fetchRecords_written,
    removals_written, fetchRecords_settled, removals_settled.
  cbn [app fetchRecords List.filter removals omap map].
  rewrite ?app_nil_r.
  split; [reflexivity|].
  cbn [actionCount messagesAdded unhandledCount unhandledActions].
  split; [apply length_map|]. split; [exact Hback|]. split; [reflexivity|].
  split; [reflexivity|]. split; [reflexivity|]. exact Hsum.
Qed.

Lemma onFetchResponse_accounts_witness :
  exists counts,
    fetchRecords (onFetchResponse sample_seed
                    (liveChatResponse [removeAction (Defined (u16 "paid-1"))]))
    = [RecordFetchHandled
         (response_url (liveChatResponse [removeAction (Defined (u16 "paid-1"))]))
         (u16 "GET") (status (liveChatResponse [removeAction (Defined (u16 "paid-1"))]))
         counts]
    /\ actionCount counts = length [removeAction (Defined (u16 "paid-1"))]
    /\ messagesAdded counts
       = length (List.filter forwarded [removeAction (Defined (u16 "paid-1"))])
    /\ removals (onFetchResponse sample_seed
                   (liveChatResponse [removeAction (Defined (u16 "paid-1"))]))
       = map (fun a => [identity sample_seed (targetOf a)])
             (List.filter removing [removeAction (Defined (u16 "paid-1"))])
    /\ unhandledActions counts
       = List.filter unknown [removeAction (Defined (u16 "paid-1"))]
    /\ unhandledCount counts
       = length (List.filter unknown [removeAction (Defined (u16 "paid-1"))])
    /\ actionCount counts
       = (messagesAdded counts
          + length (removals (onFetchResponse sample_seed
                                (liveChatResponse [removeAction (Defined (u16 "paid-1"))])))
          + length (List.filter dropped [removeAction (Defined (u16 "paid-1"))])
          + unhandledCount counts)%nat.
Proof.
  apply (onFetchResponse_accounts sample_seed
           (liveChatResponse [removeAction (Defined (u16 "paid-1"))])
           (liveChatBody [removeAction (Defined (u16 "paid-1"))])
           [removeAction (Defined (u16 "paid-1"))]).
  - vm_compute. reflexivity.
  - reflexivity.
  - reflexivity.
Defined.

(** X20. A removal names the message that was added: the id sent for a removal
    whose target is the native id of an item is the id of the message that
    the adapter made of that item. *)
Theorem removal_names_the_message (this : Seed) (it : Item) (logs : list diagnostic)
    (m : ChatMessage) :
  prepareAction this (Some {| item := Some it |}) = (logs, Ok (Some m)) ->
  removals (onFetchResponse this (liveChatResponse [removeAction (nativeId it)]))
  = [[id m]].
Proof.
  intros Hm. apply prepareAction_identity in Hm. rewrite Hm.
  destruct (onFetchResponse_removal this (nativeId it)) as [counts ->].
  reflexivity.
Qed.

Lemma removal_names_the_message_witness :
  exists m,
    prepareAction sample_seed (paid_action "$5.00") = ([], Ok (Some m))
    /\ removals (onFetchResponse sample_seed
                   (liveChatResponse [removeAction (Defined (u16 "paid-1"))]))
       = [[id m]].
Proof.
  eexists. split; [vm_compute; reflexivity|].
  apply (removal_names_the_message sample_seed
           {| liveChatTextMessageRenderer := Undefined;
              liveChatPaidMessageRenderer :=
                Defined (sample_renderer "paid-1" (Some "$5.00"%string) Undefined);
              liveChatMembershipGiftingEventRenderer := Undefined;
              liveChatGiftMembershipReceivedEventRenderer := Undefined;
              liveChatPlaceholderItemRenderer := Undefined |} []).
  vm_compute. reflexivity.
Defined.

(** X21. The count of viewers comes from the digits of the label: when the
    attribute [aria-label] holds a digit, each observed mutation sends the
    number that the digits of the label spell, whatever stands between
    them and whatever the text of the element is; other mutations send
    nothing. *)
Theorem viewers_from_label (elem : ViewCount) (label : jsstring)
    (mutationTypes : list jsstring) :
  ariaLabel elem = Some label ->
  List.filter isDigit label <> [] ->
  (length (List.filter isDigit label) <= 15)%nat ->
  onViewCountChange (Some elem) mutationTypes
  = map (fun _ => digits_value (List.filter isDigit label))
        (List.filter observed mutationTypes).
Proof.
  intros Hlabel Hdigits _.
  assert (Hview : viewersOf elem = Some (digits_value (List.filter isDigit label))).
  { unfold viewersOf. rewrite Hlabel. cbn [default truthy_opt].
    assert (Hl : truthy label = true).
    { destruct label; [|reflexivity]. exfalso. apply Hdigits. reflexivity. }
    rewrite Hl.
    assert (Hn : truthy (List.filter isDigit label) = true)
      by (destruct (List.filter isDigit label); [congruence | reflexivity]).
    cbv zeta. change (Datatypes.id label) with label.
    rewrite Hn, parseInt10_digits; [reflexivity | apply filter_digits | exact Hdigits]. }
  unfold onViewCountChange. rewrite Hview.
  induction mutationTypes as [|type rest IH]; [reflexivity|].
  cbn [flat_map List.filter]. rewrite IH.
  destruct (observed type); reflexivity.
Qed.

Lemma viewers_from_label_witness :
  onViewCountChange
    (Some {| ariaLabel := Some (u16 "1,234 watching now"); textContent := None |})
    [u16 "attributes"; u16 "other"; u16 "childList"]
  = map (fun _ => digits_value (List.filter isDigit (u16 "1,234 watching now")))
        (List.filter observed [u16 "attributes"; u16 "other"; u16 "childList"]).
Proof.
  apply (viewers_from_label
           {| ariaLabel := Some (u16 "1,234 watching now"); textContent := None |}
           (u16 "1,234 watching now")).
  - reflexivity.
  - vm_compute. discriminate.
  - vm_compute. lia.
Defined.

(** X22. Without a digit in the label the count comes from the text: a text
    that, its commas taken out, is a run of digits followed by a space and
    the word views, sends the number of the digits. *)
Theorem viewers_from_text (elem : ViewCount) (shown ds : jsstring) :
  List.filter isDigit (default [] (ariaLabel elem)) = [] ->
  textContent elem = Some shown ->
  List.filter (fun c => negb (c =? ch ",")%N) shown = ds ++ u16 " views" ->
  Forall (fun d => isDigit d = true) ds -> ds <> [] -> (length ds <= 15)%nat ->
  viewersOf elem = Some (digits_value ds).
Proof.
  intros Hlabel Htext Hshown Hds Hne _.
  assert (Hfall : viewersOf elem = viewersOfText elem).
  { unfold viewersOf. rewrite Hlabel. cbn [truthy].
    destruct (truthy_opt (ariaLabel elem)); reflexivity. }
  rewrite Hfall. unfold viewersOfText. rewrite Htext.
  assert (Hdef : default [] (or_else (Some shown) (Some [])) = shown)
    by (destruct shown; reflexivity).
  rewrite Hdef, Hshown.
  destruct (views_read ds Hds Hne) as (match_ & -> & ->).
  cbn [truthy_opt]. destruct ds as [|d ds']; [congruence|]. cbn [truthy].
  apply parseInt10_digits; [exact Hds | discriminate].
Qed.

Lemma viewers_from_text_witness :
  viewersOf {| ariaLabel := None; textContent := Some (u16 "12,345 views") |}
  = Some (digits_value (u16 "12345")).
Proof.
  apply (viewers_from_text
           {| ariaLabel := None; textContent := Some (u16 "12,345 views") |}
           (u16 "12,345 views") (u16 "12345")).
  - reflexivity.
  - reflexivity.
  - vm_compute. reflexivity.
  - repeat constructor.
  - discriminate.
  - vm_compute. lia.
Defined.

End FeedExtra.

Module TrafficFacts.
Import Core Facebook FacebookTraffic JSFacts SocketFacts.

Lemma arrayIndexOf_first (pre rest : list jsstring) (x : jsstring) :
  x ∉ pre -> arrayIndexOf (pre ++ x :: rest) x = Some (length pre).
Proof.
  induction pre as [|p pre IH]; intros Hfree; cbn [app arrayIndexOf length].
  - rewrite bool_decide_eq_true_2 by reflexivity. reflexivity.
  - rewrite bool_decide_eq_false_2 by (intros ->; apply Hfree; left).
    rewrite IH by (intros Hin; apply Hfree; right; exact Hin). reflexivity.
Qed.

Lemma filter_segments (ps : list jsstring) :
  Forall segment ps -> List.filter truthy ps = ps.
Proof.
  induction 1 as [|p ps [Hne _] _ IH]; [reflexivity|].
  cbn [List.filter]. destruct p; [congruence|]. cbn [truthy]. rewrite IH. reflexivity.
Qed.

(** One turn of the [switch]: it only ever sets flags. *)
Lemma applyBadge_flags (withOwner md sb ow : bool) (b : IdentityBadge) :
  applyBadge withOwner (md, sb, ow) b
  = (md || typed [u16 "moderator"] b,
     sb || typed [u16 "top_fan"; u16 "rising_fan"; u16 "tipper"] b,
     ow || (withOwner && typed [u16 "gaming_partner"] b)).
Proof.
  unfold applyBadge, typed. cbn [existsb]. rewrite !orb_false_r.
  destruct (bool_decide (identity_badge_type b = Some (u16 "moderator"))) eqn:Hm.
  { apply bool_decide_eq_true in Hm. rewrite Hm.
    destruct md, sb, ow, withOwner; vm_compute; reflexivity. }
  destruct (bool_decide (identity_badge_type b = Some (u16 "top_fan"))) eqn:Ht.
  { apply bool_decide_eq_true in Ht. rewrite Ht.
    destruct md, sb, ow, withOwner; vm_compute; reflexivity. }
  destruct (bool_decide (identity_badge_type b = Some (u16 "rising_fan"))) eqn:Hr.
  { apply bool_decide_eq_true in Hr. rewrite Hr.
    destruct md, sb, ow, withOwner; vm_compute; reflexivity. }
  destruct (bool_decide (identity_badge_type b = Some (u16 "tipper"))) eqn:Hp.
  { apply bool_decide_eq_true in Hp. rewrite Hp.
    destruct md, sb, ow, withOwner; vm_compute; reflexivity. }
  cbn [orb].
  destruct (bool_decide (identity_badge_type b = Some (u16 "gaming_partner")));
    destruct md, sb, ow, withOwner; reflexivity.
Qed.

(** The two loops over the badges. *)
Lemma first_loop (bs : list IdentityBadge) (md sb ow : bool) :
  fold_left applyShown bs (md, sb, ow)
  = (md || existsb (typed [u16 "moderator"]) (List.filter counts bs),
     sb || existsb (typed [u16 "top_fan"; u16 "rising_fan"; u16 "tipper"])
             (List.filter counts bs),
     ow || existsb (typed [u16 "gaming_partner"]) (List.filter counts bs)).
Proof.
  revert md sb ow. induction bs as [|b bs IH]; intros md sb ow.
  - cbn. rewrite !orb_false_r. reflexivity.
  - cbn [fold_left List.filter]. unfold applyShown at 2.
    assert (Hguard : negb (default false (is_earned b))
                     && negb (default false (is_enabled b)) = negb (counts b))
      by (unfold counts; rewrite negb_involutive; reflexivity).
    rewrite Hguard. destruct (counts b); cbn [negb]; [|apply IH].
    rewrite applyBadge_flags, IH. cbn [existsb].
    rewrite andb_true_l, <- !orb_assoc. reflexivity.
Qed.

Lemma second_loop (bs : list IdentityBadge) (md sb ow : bool) :
  fold_left (applyBadge false) bs (md, sb, ow)
  = (md || existsb (typed [u16 "moderator"]) bs,
     sb || existsb (typed [u16 "top_fan"; u16 "rising_fan"; u16 "tipper"]) bs,
     ow).
Proof.
  revert md sb ow. induction bs as [|b bs IH]; intros md sb ow.
  - cbn. rewrite !orb_false_r. reflexivity.
  - cbn [fold_left]. rewrite applyBadge_flags, IH. cbn [existsb].
    rewrite andb_false_l, orb_false_r, <- !orb_assoc. reflexivity.
Qed.

(** A loop that runs to its end has gone through the badges in order. *)
Lemma forOf_Ok (body : bool * bool * bool -> IdentityBadge -> bool * bool * bool)
    (items : list (option IdentityBadge)) :
  forall flags flags',
    forOf body items flags = Ok flags' ->
    flags' = fold_left body (omap (fun element => element) items) flags.
Proof.
  induction items as [|[b|] items IH]; intros flags flags'; cbn [forOf deref bind].
  - intros [= <-]. reflexivity.
  - intros H. apply IH in H. exact H.
  - discriminate.
Qed.

Lemma forOf_Throw (body : bool * bool * bool -> IdentityBadge -> bool * bool * bool)
    (items : list (option IdentityBadge)) :
  forall flags, (exists e, forOf body items flags = Throw e) <-> None ∈ items.
Proof.
  induction items as [|[b|] items IH]; intros flags; cbn [forOf deref bind].
  - split; [intros [e [=]] | intros H; inversion H].
  - rewrite IH. split; [intros H; right; exact H|].
    intros H. apply elem_of_cons in H as [[=]|H]. exact H.
  - split; [intros _; left | intros _; eexists; reflexivity].
Qed.

Lemma loopOver_Ok (body : bool * bool * bool -> IdentityBadge -> bool * bool * bool)
    (badges : badgeList) (flags flags' : bool * bool * bool) :
  loopOver body badges flags = Ok flags' ->
  flags' = fold_left body (badgesOf badges) flags.
Proof.
  destruct badges as [|items|]; cbn [loopOver badgesOf fold_left].
  - intros [= <-]. reflexivity.
  - apply forOf_Ok.
  - discriminate.
Qed.

Lemma loopOver_Throw (body : bool * bool * bool -> IdentityBadge -> bool * bool * bool)
    (badges : badgeList) (flags : bool * bool * bool) :
  (exists e, loopOver body badges flags = Throw e) <-> unloopable badges.
Proof.
  unfold unloopable. destruct badges as [|items|]; cbn [loopOver].
  - split; [intros [e [=]] | intros [[=]|(? & [=] & _)]].
  - rewrite forOf_Throw. split; [intros H; right; eauto|].
    intros [[=]|(items' & [= <-] & H)]. exact H.
  - split; [intros _; left; reflexivity | intros _; eexists; reflexivity].
Qed.

(** One byte in hexadecimal, and back. *)
Lemma byte_listed (b : N) : isByte b -> In b (map N.of_nat (seq 0 256)).
Proof.
  unfold isByte. intros Hb. apply in_map_iff. exists (N.to_nat b).
  split; [apply N2Nat.id|]. apply in_seq. lia.
Qed.

Lemma byte_hex (b : N) :
  isByte b ->
  exists hi lo,
    padStart 2 (toString16 b) = [hi; lo]
    /\ value16 hi = Some (b / 16)%N /\ value16 lo = Some (b mod 16)%N.
Proof.
  intros Hb.
  assert (Hall : forallb (fun b =>
      match padStart 2 (toString16 b) with
      | [hi; lo] =>
          bool_decide (value16 hi = Some (b / 16)%N)
          && bool_decide (value16 lo = Some (b mod 16)%N)
      | _ => false
      end) (map N.of_nat (seq 0 256)) = true) by (vm_compute; reflexivity).
  rewrite forallb_forall in Hall. specialize (Hall b (byte_listed b Hb)).
  destruct (padStart 2 (toString16 b)) as [|hi [|lo [|x rest]]]; try discriminate.
  apply andb_true_iff in Hall as [Hhi Hlo].
  apply bool_decide_eq_true in Hhi, Hlo. eauto.
Qed.

Lemma fromHex_hexOf (bytes : list N) :
  Forall isByte bytes -> fromHex (hexOf bytes) = Some bytes.
Proof.
  induction 1 as [|b bytes Hb _ IH]; [reflexivity|].
  unfold hexOf. cbn [map concat]. fold (hexOf bytes).
  destruct (byte_hex b Hb) as (hi & lo & -> & Hhi & Hlo).
  cbn [app fromHex]. rewrite Hhi, Hlo, IH. do 2 f_equal.
  rewrite N.mul_comm. symmetry. rewrite N.add_comm, N.mul_comm.
  rewrite N.add_comm. apply N.div_mod. discriminate.
Qed.

Lemma hexOf_take (n : nat) (bytes : list N) :
  Forall isByte bytes -> take (2 * n) (hexOf bytes) = hexOf (take n bytes).
Proof.
  intros Hall. revert n. induction Hall as [|b bytes Hb _ IH]; intros n.
  - destruct n; reflexivity.
  - destruct n as [|n]; [reflexivity|].
    unfold hexOf. cbn [map concat take]. fold (hexOf bytes) (hexOf (take n bytes)).
    destruct (byte_hex b Hb) as (hi & lo & -> & _).
    replace (2 * S n)%nat with (S (S (2 * n))) by lia.
    cbn [app take]. rewrite IH. reflexivity.
Qed.

Lemma readable_map (bytes : list N) (acc : jsstring) :
  fold_left (fun text byte =>
               if ((32 <=? byte) && (byte <? 127))%N then text ++ [byte]
               else text ++ [ch "."])
            bytes acc
  = acc ++ map (fun byte => if ((32 <=? byte) && (byte <? 127))%N then byte else ch ".")
               bytes.
Proof.
  revert acc. induction bytes as [|b bytes IH]; intros acc; cbn [fold_left map].
  - rewrite app_nil_r. reflexivity.
  - rewrite IH. destruct ((32 <=? b) && (b <? 127))%N; rewrite <- app_assoc; reflexivity.
Qed.

(** What [parseComment] returned when it returned a message. *)
Lemma parseComment_Ok (this : Seed) (c : Comment) (m : ChatMessage) :
  parseComment this (Some c) = Ok (Some m) ->
  truthy_opt (comment_id c) = true
  /\ exists flags1 flags2,
       loopOver applyShown (discoverable_identity_badges_web c) (false, false, false)
       = Ok flags1
       /\ loopOver (applyBadge false) (identity_badges_web c) flags1 = Ok flags2
       /\ message m
          = default [] (or_else (preferred_body c ?> body_text) (body c ?> body_text))
       /\ is_mod m = flags2.1.1 /\ is_sub m = flags2.1.2 /\ is_owner m = flags2.2.
Proof.
  unfold parseComment. destruct (truthy_opt (comment_id c)); [|discriminate].
  cbn [negb].
  change (is_mod (new_ChatMessage _ _ _)) with false.
  change (is_sub (new_ChatMessage _ _ _)) with false.
  change (is_owner (new_ChatMessage _ _ _)) with false.
  destruct (loopOver applyShown _ _) as [flags1|]; [|discriminate]. cbn [bind].
  destruct (loopOver (applyBadge false) _ _) as [flags2|] eqn:H2; [|discriminate].
  cbn [bind]. intros [= <-]. split; [reflexivity|]. exists flags1, flags2.
  cbn [message is_mod is_sub is_owner].
  split; [reflexivity|]. split; [exact H2|]. repeat split.
  destruct (or_else (preferred_body c ?> body_text) (body c ?> body_text))
    as [[|x t]|]; reflexivity.
Qed.

Lemma parseComment_None (this : Seed) (c : Comment) :
  parseComment this (Some c) = Ok None <-> truthy_opt (comment_id c) = false.
Proof.
  unfold parseComment. destruct (truthy_opt (comment_id c)); cbn [negb].
  - split; [|discriminate].
    destruct (loopOver applyShown _ _) as [flags1|]; [|discriminate]. cbn [bind].
    destruct (loopOver (applyBadge false) _ _) as [flags2|]; discriminate.
  - split; reflexivity.
Qed.

Lemma parseComment_Throw (this : Seed) (c : Comment) :
  (exists e, parseComment this (Some c) = Throw e)
  <-> truthy_opt (comment_id c) = true
      /\ (unloopable (discoverable_identity_badges_web c)
          \/ unloopable (identity_badges_web c)).
Proof.
  unfold parseComment. destruct (truthy_opt (comment_id c)); cbn [negb].
  2: { split; [intros [e [=]] | intros [[=] _]]. }
  rewrite <- (loopOver_Throw applyShown _ (false, false, false)).
  change (is_mod (new_ChatMessage _ _ _)) with false.
  change (is_sub (new_ChatMessage _ _ _)) with false.
  change (is_owner (new_ChatMessage _ _ _)) with false.
  destruct (loopOver applyShown _ _) as [flags1|e1]; cbn [bind].
  - rewrite <- (loopOver_Throw (applyBadge false) _ flags1).
    destruct (loopOver (applyBadge false) _ _) as [flags2|e2]; cbn [bind].
    + split; [intros [e [=]] | intros [_ [[e [=]]|[e [=]]]]].
    + split; [intros _; split; [reflexivity|]; right; eauto
             | intros _; eexists; reflexivity].
  - split; [intros _; split; [reflexivity|]; left; eauto
           | intros _; eexists; reflexivity].
Qed.

End TrafficFacts.

Module FacebookExtra.
Import Core Facebook FacebookTraffic JSFacts SocketFacts TrafficFacts.

(** X23. The channel of a video page: for a path of segments that holds the
    segment [videos], the channel is the segment after the first [videos],
    wherever in the path that stands, when no parameter [v] is given. *)
Theorem channelOf_video_path (before after : list jsstring) (video : jsstring) :
  Forall segment before -> u16 "videos" ∉ before ->
  segment video -> Forall (fun p => ch "/" ∉ p) after ->
  channelOf (join (u16 "/") ([] :: before ++ u16 "videos" :: video :: after)) None
  = video.
Proof.
  intros Hbefore Hfree [Hne Hslash] Hafter.
  assert (Hvideo : truthy video = true) by (destruct video; [congruence | reflexivity]).
  assert (Hparts :
    List.filter truthy
      (split (ch "/")
         (join (u16 "/") ([] :: before ++ u16 "videos" :: video :: after)))
    = before ++ u16 "videos" :: video :: List.filter truthy after).
  { change (u16 "/") with [ch "/"]. rewrite split_join.
    - cbn [List.filter truthy].
      rewrite List.filter_app, (filter_segments before Hbefore).
      cbn [List.filter]. rewrite Hvideo. reflexivity.
    - constructor; [intros H; inversion H|]. apply Forall_app. split.
      + eapply Forall_impl; [|exact Hbefore]. intros p [_ Hp]. exact Hp.
      + constructor; [vm_compute; intros H;
                      repeat (apply elem_of_cons in H as [H|H]; [discriminate|]);
                      inversion H|].
        constructor; assumption. }
  assert (Hat : (before ++ u16 "videos" :: video :: List.filter truthy after)
                !! (length before + 1)%nat = Some video).
  { rewrite lookup_app_r by lia.
    replace (length before + 1 - length before)%nat with 1%nat by lia. reflexivity. }
  unfold channelOf. cbv zeta. rewrite Hparts, arrayIndexOf_first by exact Hfree.
  unfold jsstring in *. rewrite !Hat. cbn [truthy_opt default]. rewrite Hvideo.
  reflexivity.
Qed.

Lemma channelOf_video_path_witness :
  channelOf (join (u16 "/") ([] :: [u16 "streamer"] ++ u16 "videos"
                                :: u16 "1234567890" :: [[]])) None
  = u16 "1234567890".
Proof.
  apply (channelOf_video_path [u16 "streamer"] [[]] (u16 "1234567890")).
  - constructor; [|constructor]. split; [discriminate|].
    vm_compute. intros H. repeat (apply elem_of_cons in H as [H|H]; [discriminate|]).
    inversion H.
  - vm_compute. intros H. repeat (apply elem_of_cons in H as [H|H]; [discriminate|]).
    inversion H.
  - split; [discriminate|].
    vm_compute. intros H. repeat (apply elem_of_cons in H as [H|H]; [discriminate|]).
    inversion H.
  - constructor; [|constructor]. intros H. inversion H.
Defined.

(** X24. The flags of a comment, whatever the order of its badges. The comment
    is a moderator's when a badge of type moderator is among the badges of
    the first list that are earned or enabled, or anywhere in the second
    list; a subscriber's likewise for the types top_fan, rising_fan and
    tipper; the owner's only for a badge of type gaming_partner of the
    first list that is earned or enabled. *)
Theorem parseComment_flags (this : Seed) (c : Comment) (m : ChatMessage) :
  parseComment this (Some c) = Ok (Some m) ->
  is_mod m = existsb (typed [u16 "moderator"]) (shownBadges c ++ earnedBadges c)
  /\ is_sub m = existsb (typed [u16 "top_fan"; u16 "rising_fan"; u16 "tipper"])
                  (shownBadges c ++ earnedBadges c)
  /\ is_owner m = existsb (typed [u16 "gaming_partner"]) (shownBadges c).
Proof.
  intros H. apply parseComment_Ok in H as (_ & flags1 & flags2 & H1 & H2 & _ & -> & -> & ->).
  apply loopOver_Ok in H1, H2. rewrite first_loop in H1. subst flags1.
  rewrite second_loop in H2. subst flags2.
  unfold shownBadges, earnedBadges. cbn [fst snd orb].
  rewrite !existsb_app. auto.
Qed.

Lemma parseComment_flags_witness :
  exists m,
    parseComment facebook_seed (Some badged_comment) = Ok (Some m)
    /\ map (fun flag => flag m) [is_mod; is_sub; is_owner] = [false; true; true]
    /\ is_mod m = existsb (typed [u16 "moderator"])
                    (shownBadges badged_comment ++ earnedBadges badged_comment)
    /\ is_sub m = existsb (typed [u16 "top_fan"; u16 "rising_fan"; u16 "tipper"])
                    (shownBadges badged_comment ++ earnedBadges badged_comment)
    /\ is_owner m = existsb (typed [u16 "gaming_partner"]) (shownBadges badged_comment).
Proof.
  eexists. split; [vm_compute; reflexivity|]. split; [reflexivity|].
  apply (parseComment_flags facebook_seed badged_comment).
  vm_compute. reflexivity.
Defined.

(** X25. What a response leads to. The handler raises, answers true after
    handing one batch of one message to [sendChatMessages], or answers
    false and sends nothing. It raises exactly when the response holds a
    created comment with an id that is not empty and a list of badges that
    cannot be looped over: one that is not iterable, or one that holds a
    null. It sends exactly when the response holds a created comment whose
    id and whose text (the preferred body, or else the body) are not empty
    and whose two lists of badges can be looped over; the message sent is
    the one [parseComment] makes of the comment, with that text. *)
Theorem handleGraphQLResponse_sends (this : Seed) (json : option Response) :
  ((exists e, handleGraphQLResponse this json = Throw e)
   \/ (exists m, handleGraphQLResponse this json = Ok (true, [[m]]))
   \/ handleGraphQLResponse this json = Ok (false, []))
  /\ ((exists e, handleGraphQLResponse this json = Throw e)
      <-> exists c, createdComment json = Some c
            /\ truthy_opt (comment_id c) = true
            /\ (unloopable (discoverable_identity_badges_web c)
                \/ unloopable (identity_badges_web c)))
  /\ ((exists m, handleGraphQLResponse this json = Ok (true, [[m]]))
      <-> exists c, createdComment json = Some c
            /\ truthy_opt (comment_id c) = true
            /\ truthy_opt (textOf c) = true
            /\ ~ unloopable (discoverable_identity_badges_web c)
            /\ ~ unloopable (identity_badges_web c))
  /\ (forall m, handleGraphQLResponse this json = Ok (true, [[m]]) ->
        exists c, createdComment json = Some c
          /\ parseComment this (Some c) = Ok (Some m)
          /\ message m = default [] (textOf c)).
Proof.
  unfold createdComment, handleGraphQLResponse.
  destruct json as [[[d|]]|]; cbn [chain data].
  2,3: (split; [auto|]; split; [|split]);
       [ split; [intros [e [=]] | intros (c & [=] & _)]
       | split; [intros [m [=]] | intros (c & [=] & _)]
       | intros m [=] ].
  destruct (comment_create d) as [[[c|]]|]; cbn [chain comment].
  2,3: (split; [auto|]; split; [|split]);
       [ split; [intros [e [=]] | intros (c & [=] & _)]
       | split; [intros [m [=]] | intros (c & [=] & _)]
       | intros m [=] ].
  assert (Hsome : forall P : Comment -> Prop, (exists c', Some c = Some c' /\ P c') <-> P c).
  { intros P. split; [intros (c' & [= <-] & H); exact H | eauto]. }
  rewrite !Hsome.
  pose proof (parseComment_Throw this c) as Hthrow.
  destruct (parseComment this (Some c)) as [[m|]|e] eqn:Hparse; cbn [bind].
  - pose proof (parseComment_Ok _ _ _ Hparse) as (Hid & f1 & f2 & _ & _ & Htext & _).
    assert (Hloops : ~ unloopable (discoverable_identity_badges_web c)
                     /\ ~ unloopable (identity_badges_web c)).
    { split; intros Hbad; destruct (proj2 Hthrow) as [e [=]]; auto. }
    assert (Htruthy : truthy (message m) = truthy_opt (textOf c)).
    { rewrite Htext. unfold textOf.
      destruct (or_else _ _) as [[|x t]|]; reflexivity. }
    destruct (truthy (message m)) eqn:Hm.
    + split; [right; left; eauto|]. split; [|split].
      * split; [intros [e [=]] | intros [_ [H|H]]; tauto].
      * split; [|intros _; eauto].
        intros _. split; [exact Hid|]. split; [symmetry; exact Htruthy | exact Hloops].
      * intros m' [= <-]. exists c. auto.
    + split; [auto|]. split; [|split].
      * split; [intros [e [=]] | intros [_ [H|H]]; tauto].
      * split; [intros [m' [=]] | intros (_ & H & _); congruence].
      * intros m' [=].
  - apply parseComment_None in Hparse.
    split; [auto|]. split; [|split].
    + split; [intros [e [=]] | intros [H _]; congruence].
    + split; [intros [m' [=]] | intros (H & _); congruence].
    + intros m' [=].
  - split; [left; eauto|]. split; [|split].
    + split; [intros _; apply Hthrow; eauto | intros _; eauto].
    + split; [intros [m' [=]]|]. intros (Hid & _ & H1 & H2).
      destruct (proj1 Hthrow) as [_ [H|H]]; [eauto | tauto..].
    + intros m' [=].
Qed.

(** X26. The dump of a frame of bytes can be read back: the hexadecimal text is
    that of the first thousand bytes, two digits each, and decodes to them;
    the readable text has one character for each of these bytes, the byte
    itself where it is printable ASCII and a point elsewhere; the size is
    that of the whole frame. *)
Theorem dumpOf_reads_back (bytes : list N) :
  Forall isByte bytes ->
  fromHex (hex (dumpOf bytes)) = Some (take 1000 bytes)
  /\ length (hex (dumpOf bytes)) = (2 * length (text (dumpOf bytes)))%nat
  /\ text (dumpOf bytes)
     = map (fun b => if ((32 <=? b) && (b <? 127))%N then b else ch ".")
           (take 1000 bytes)
  /\ size (dumpOf bytes) = length bytes.
Proof.
  intros Hall. unfold dumpOf. cbn [hex text size]. unfold slice.
  rewrite !Nat.sub_0_r, !drop_0.
  change 2000%nat with (2 * 1000)%nat. rewrite hexOf_take by exact Hall.
  assert (Htake : Forall isByte (take 1000 bytes)) by (apply Forall_take; exact Hall).
  assert (Hlen : forall bs, Forall isByte bs -> length (hexOf bs) = (2 * length bs)%nat).
  { induction 1 as [|b bs Hb _ IH]; [reflexivity|].
    unfold hexOf. cbn [map concat]. fold (hexOf bs).
    destruct (byte_hex b Hb) as (hi & lo & -> & _).
    cbn [app length]. rewrite IH. lia. }
  unfold readable. rewrite readable_map. cbn [app]. rewrite firstn_map.
  split; [apply fromHex_hexOf; exact Htake|].
  split; [rewrite Hlen by exact Htake; rewrite length_map; reflexivity|].
  split; reflexivity.
Qed.

Lemma dumpOf_reads_back_witness :
  fromHex (hex (dumpOf [48%N; 12%N; 0%N; 77%N; 81%N; 255%N]))
  = Some (take 1000 [48%N; 12%N; 0%N; 77%N; 81%N; 255%N])
  /\ length (hex (dumpOf [48%N; 12%N; 0%N; 77%N; 81%N; 255%N]))
     = (2 * length (text (dumpOf [48%N; 12%N; 0%N; 77%N; 81%N; 255%N])))%nat
  /\ text (dumpOf [48%N; 12%N; 0%N; 77%N; 81%N; 255%N])
     = map (fun b => if ((32 <=? b) && (b <? 127))%N then b else ch ".")
           (take 1000 [48%N; 12%N; 0%N; 77%N; 81%N; 255%N])
  /\ size (dumpOf [48%N; 12%N; 0%N; 77%N; 81%N; 255%N]) = 6%nat.
Proof.
  apply (dumpOf_reads_back [48%N; 12%N; 0%N; 77%N; 81%N; 255%N]).
  repeat constructor.
Defined.

End FacebookExtra.
